(** * The replay state machine of the WebdriverIO Allure reporter

    A shallow embedding of [packages/wdio-allure-reporter/src/state.ts]
    (class [AllureReportState]) together with the properties of its
    message log predicates and of its replay pass
    ([processRuntimeMessage]).

    Conventions
    - a JavaScript array used as a stack is a [list] in array order:
      [push] appends at the end, [pop] removes the last element;
    - [string | undefined] is [option string]; the truthiness tests of the
      source ([if (uuid)], [if (!this._currentTestUuid)]) are kept, so an
      empty string counts as absent exactly as it does in JavaScript;
    - the report backend ([ReporterRuntime] of allure-js-commons) is an
      arbitrary deterministic oracle over the history of calls it has
      received; every call may fail, that is, return a promise that
      rejects.  The failure of a call that is awaited aborts the pass;
      the one call that is not awaited (the forced step stop of
      [_closeOpenedSteps]) has its promise dropped, so its failure
      reaches nobody. *)

From Stdlib Require Import List ZArith Lia Bool String Ascii DecimalString.
Import ListNotations.

Local Open Scope string_scope.
Local Open Scope list_scope.
Local Open Scope Z_scope.

(* ------------------------------------------------------------------ *)
(** ** Lifecycle messages (types.ts, as used by state.ts and the reporter) *)

Inductive AllureStatus : Set := failed | broken | passed | skipped.

Inductive Stage : Set := scheduled | running | finished | pending | interrupted.

Inductive HookType : Set := before | after.

Record StatusDetails : Set := mkStatusDetails {
  sd_message : option string;
  sd_trace : option string
}.

(** Payload of ['allure:suite:start']: [{ name: string; feature?: boolean }]. *)
Record WDIOSuiteStartData : Set := mkSuiteStart {
  ss_name : string;
  ss_feature : option bool
}.

(** Payload of ['allure:test:start']: [{ name: string; start: number }]. *)
Record WDIOTestStartData : Set := mkTestStart {
  ts_name : string;
  ts_start : Z
}.

(** Payload of ['allure:test:end']. *)
Record WDIOTestEndData : Set := mkTestEnd {
  te_status : AllureStatus;
  te_stage : option Stage;
  te_stop : option Z;
  te_duration : option Z;
  te_statusDetails : option StatusDetails
}.

(** Payload of ['allure:hook:start']. *)
Record WDIOHookStartData : Set := mkHookStart {
  hs_name : string;
  hs_type : HookType;
  hs_start : Z
}.

(** Payload of ['allure:hook:end']. *)
Record WDIOHookEndData : Set := mkHookEnd {
  he_status : AllureStatus;
  he_statusDetails : option StatusDetails;
  he_duration : option Z;
  he_stop : option Z
}.

(** The messages of allure-js-commons that the state machine forwards
    verbatim to the backend. *)
Inductive RuntimeMessage : Set :=
| step_start (name : string) (start : Z)
| step_stop (status : AllureStatus) (stop : Z) (statusDetails : option StatusDetails)
| metadata (labels parameters : list (string * string))
| attachment_content (name content contentType encoding : string).

Inductive WDIORuntimeMessage : Set :=
| allure_suite_start (data : WDIOSuiteStartData)
| allure_suite_end
| allure_test_start (data : WDIOTestStartData)
| allure_test_info (fullName : string)
| allure_test_end (data : WDIOTestEndData)
| allure_hook_start (data : WDIOHookStartData)
| allure_hook_end (data : WDIOHookEndData)
| runtime (m : RuntimeMessage).

Definition runtime_type (m : RuntimeMessage) : string :=
  match m with
  | step_start _ _ => "step_start"
  | step_stop _ _ _ => "step_stop"
  | metadata _ _ => "metadata"
  | attachment_content _ _ _ _ => "attachment_content"
  end.

(** The [type] field of a message. *)
Definition type (m : WDIORuntimeMessage) : string :=
  match m with
  | allure_suite_start _ => "allure:suite:start"
  | allure_suite_end => "allure:suite:end"
  | allure_test_start _ => "allure:test:start"
  | allure_test_info _ => "allure:test:info"
  | allure_test_end _ => "allure:test:end"
  | allure_hook_start _ => "allure:hook:start"
  | allure_hook_end _ => "allure:hook:end"
  | runtime r => runtime_type r
  end.

(* ------------------------------------------------------------------ *)
(** ** Array helpers (utils.ts) *)

(** Modelled from the spec: [findLastIndex] of utils.ts, which is not
    among the sources.  The spec describes it as a backward search for the
    last index at which the predicate holds, a missing kind having index
    [-1].  [findLastIndex_from arr p n] inspects the indices [n-1], ...,
    [0] in that order. *)
Fixpoint findLastIndex_from {A : Type} (arr : list A) (p : A -> bool) (n : nat) : Z :=
  match n with
  | O => -1
  | S i =>
      match nth_error arr i with
      | Some x => if p x then Z.of_nat i else findLastIndex_from arr p i
      | None => findLastIndex_from arr p i
      end
  end.

Definition findLastIndex {A : Type} (arr : list A) (p : A -> bool) : Z :=
  findLastIndex_from arr p (List.length arr).

(** Modelled from the spec: [findLast] of utils.ts, which is not among the
    sources: the element found by the same backward search, [undefined]
    when there is none. *)
Fixpoint findLast_from {A : Type} (arr : list A) (p : A -> bool) (n : nat) : option A :=
  match n with
  | O => None
  | S i =>
      match nth_error arr i with
      | Some x => if p x then Some x else findLast_from arr p i
      | None => findLast_from arr p i
      end
  end.

Definition findLast {A : Type} (arr : list A) (p : A -> bool) : option A :=
  findLast_from arr p (List.length arr).

(** Modelled from the spec: [last] of utils.ts, which is not among the
    sources: the element on top of a stack kept in array order,
    [undefined] for an empty array. *)
Definition last {A : Type} (arr : list A) : option A :=
  match arr with
  | [] => None
  | _ => nth_error arr (Nat.pred (List.length arr))
  end.

(** [Array.prototype.push] and [Array.prototype.pop]. *)
Definition push {A : Type} (arr : list A) (x : A) : list A := arr ++ [x].

Definition pop {A : Type} (arr : list A) : option A * list A :=
  (last arr, removelast arr).

(** JavaScript truthiness of a [string | undefined]. *)
Definition truthy (u : option string) : bool :=
  match u with
  | Some s => negb (s =? "")%string
  | None => false
  end.

(* ------------------------------------------------------------------ *)
(** ** Pending predicates and [currentFeature] (state.ts, lines 35-65) *)

Definition has_type (t : string) (m : WDIORuntimeMessage) : bool :=
  (type m =? t)%string.

Definition hasPendingSuite (messages : list WDIORuntimeMessage) : bool :=
  let s := findLastIndex messages (has_type "allure:suite:start") in
  let e := findLastIndex messages (has_type "allure:suite:end") in
  s >? e.

Definition hasPendingTest (messages : list WDIORuntimeMessage) : bool :=
  let s := findLastIndex messages (has_type "allure:test:start") in
  let e := findLastIndex messages (has_type "allure:test:end") in
  s >? e.

Definition hasPendingStep (messages : list WDIORuntimeMessage) : bool :=
  let s := findLastIndex messages (has_type "step_start") in
  let e := findLastIndex messages (has_type "step_stop") in
  s >? e.

Definition hasPendingHook (messages : list WDIORuntimeMessage) : bool :=
  let s := findLastIndex messages (has_type "allure:hook:start") in
  let e := findLastIndex messages (has_type "allure:hook:end") in
  s >? e.

(** [Boolean(data.feature)] for an optional boolean. *)
Definition Boolean (b : option bool) : bool :=
  match b with
  | Some true => true
  | _ => false
  end.

(** [(data as WDIOSuiteStartMessage['data']).feature]: only a suite-start
    payload has the field, it is [undefined] on every other payload. *)
Definition feature (m : WDIORuntimeMessage) : option bool :=
  match m with
  | allure_suite_start data => ss_feature data
  | _ => None
  end.

Definition is_feature_start (m : WDIORuntimeMessage) : bool :=
  has_type "allure:suite:start" m && Boolean (feature m).

Definition currentFeature (messages : list WDIORuntimeMessage) : option string :=
  match findLast messages is_feature_start with
  | Some (allure_suite_start data) => Some (ss_name data)
  | _ => None
  end.

(* ------------------------------------------------------------------ *)
(** ** The report backend as seen from state.ts *)

(** What [updateTest] is asked to change: [_addTestInfo] sets the full
    name, [_endTest] sets status and, when present, stage and details. *)
Inductive TestUpdate : Set :=
| set_fullName (fullName : string)
| set_result (status : AllureStatus) (stage : option Stage)
             (statusDetails : option StatusDetails).

(** One call on [this.allureRuntime], with its arguments. *)
Inductive Call : Set :=
| startScope
| writeScope (uuid : string)
| startTest (name : string) (start : Z) (scopeUuids : list string)
| updateTest (uuid : string) (change : TestUpdate)
| stopTest (uuid : string) (stop duration : option Z)
| writeTest (uuid : string)
| startFixture (scopeUuid : option string) (kind : HookType) (name : string) (start : Z)
| updateFixture (uuid : string) (status : AllureStatus)
                (statusDetails : option StatusDetails)
| stopFixture (uuid : string) (stop duration : option Z)
| applyRuntimeMessages (uuid : string) (msgs : list RuntimeMessage).

(** The backend is external: it is an oracle that, from the calls made so
    far and the call being made, decides whether the call fails (the
    promise it returns rejects) and which handle it returns. *)
Record ReporterRuntime : Type := mkRuntime {
  fails : list Call -> Call -> bool;
  new_uuid : list Call -> Call -> string;
  new_fixture : list Call -> Call -> option string
}.

(* ------------------------------------------------------------------ *)
(** ** The session state (fields of [AllureReportState]) *)

Record AllureReportState : Type := mkState {
  _scopesStack : list string;
  _executablesStack : list string;
  _fixturesStack : list string;
  _currentTestUuid : option string;
  messages : list WDIORuntimeMessage;
  _openSteps : Z
}.

(** [new AllureReportState(runtime)]. *)
Definition new_state : AllureReportState := mkState [] [] [] None [] 0.

Definition pushRuntimeMessage (st : AllureReportState) (message : WDIORuntimeMessage)
  : AllureReportState :=
  mkState (_scopesStack st) (_executablesStack st) (_fixturesStack st)
          (_currentTestUuid st) (push (messages st) message) (_openSteps st).

Definition set_scopesStack (v : list string) (st : AllureReportState) :=
  mkState v (_executablesStack st) (_fixturesStack st)
          (_currentTestUuid st) (messages st) (_openSteps st).

Definition set_executablesStack (v : list string) (st : AllureReportState) :=
  mkState (_scopesStack st) v (_fixturesStack st)
          (_currentTestUuid st) (messages st) (_openSteps st).

Definition set_fixturesStack (v : list string) (st : AllureReportState) :=
  mkState (_scopesStack st) (_executablesStack st) v
          (_currentTestUuid st) (messages st) (_openSteps st).

Definition set_currentTestUuid (v : option string) (st : AllureReportState) :=
  mkState (_scopesStack st) (_executablesStack st) (_fixturesStack st)
          v (messages st) (_openSteps st).

Definition set_openSteps (v : Z) (st : AllureReportState) :=
  mkState (_scopesStack st) (_executablesStack st) (_fixturesStack st)
          (_currentTestUuid st) (messages st) v.

(* ------------------------------------------------------------------ *)
(** ** The monad of the async methods

    A computation reads and writes the session state, appends the calls it
    makes to the trace of backend calls, and ends in one of three ways. *)

Inductive Outcome (A : Type) : Type :=
| Done (a : A)      (* the promise resolves *)
| Failed            (* an awaited backend call failed: the promise rejects *)
| OutOfFuel.        (* a loop was cut short by the model *)

Arguments Done {A} a.
Arguments Failed {A}.
Arguments OutOfFuel {A}.

Definition M (A : Type) : Type :=
  AllureReportState -> list Call -> Outcome A * AllureReportState * list Call.

Definition ret {A : Type} (a : A) : M A := fun st tr => (Done a, st, tr).

Definition bind {A B : Type} (m : M A) (k : A -> M B) : M B :=
  fun st tr =>
    match m st tr with
    | (Done a, st', tr') => k a st' tr'
    | (Failed, st', tr') => (Failed, st', tr')
    | (OutOfFuel, st', tr') => (OutOfFuel, st', tr')
    end.

Notation "x <- m ;; k" := (bind m (fun x => k))
  (at level 61, m at next level, right associativity).
Notation "m ;;; k" := (bind m (fun _ => k))
  (at level 61, right associativity).

Definition get : M AllureReportState := fun st tr => (Done st, st, tr).

Definition modify (f : AllureReportState -> AllureReportState) : M unit :=
  fun st tr => (Done tt, f st, tr).

Definition when (b : bool) (m : M unit) : M unit := if b then m else ret tt.

(** [while (cond) { body }], at most [fuel] iterations. *)
Fixpoint while (fuel : nat) (cond : AllureReportState -> bool) (body : M unit) : M unit :=
  fun st tr =>
    if cond st then
      match fuel with
      | O => (OutOfFuel, st, tr)
      | S fuel' => (body ;;; while fuel' cond body) st tr
      end
    else (Done tt, st, tr).

(** [/after all/i.test(name)]: the pattern is ASCII, so ignoring case is
    ignoring the case of the letters A-Z. *)
Definition toLower (c : ascii) : ascii :=
  let n := nat_of_ascii c in
  if ((65 <=? n) && (n <=? 90))%nat then ascii_of_nat (n + 32) else c.

Fixpoint starts_with_ci (pat s : string) : bool :=
  match pat, s with
  | EmptyString, _ => true
  | String a pat', String b s' => Ascii.eqb (toLower a) (toLower b) && starts_with_ci pat' s'
  | String _ _, EmptyString => false
  end.

Fixpoint test_ci (pat s : string) : bool :=
  starts_with_ci pat s ||
  match s with
  | EmptyString => false
  | String _ s' => test_ci pat s'
  end.

Definition after_all (name : string) : bool := test_ci "after all" name.

(* ------------------------------------------------------------------ *)
(** ** The methods of [AllureReportState] (state.ts, lines 24-33, 67-232) *)

Section Replay.

(** [this.allureRuntime], and the clock read by [Date.now()] (a function
    of the calls made so far). *)
Variable allureRuntime : ReporterRuntime.
Variable Date_now : list Call -> Z.

(** [await this.allureRuntime.f(...)], the result not being used: the
    call completes, or it fails and the method is left there. *)
Definition call (c : Call) : M unit :=
  fun st tr =>
    if fails allureRuntime tr c then (Failed, st, tr ++ [c])
    else (Done tt, st, tr ++ [c]).

(** [startScope()] and [startTest(...)]: a call that returns a handle. *)
Definition call_uuid (c : Call) : M string :=
  fun st tr =>
    if fails allureRuntime tr c then (Failed, st, tr ++ [c])
    else (Done (new_uuid allureRuntime tr c), st, tr ++ [c]).

(** [startFixture(...)]: a call that returns a handle or [undefined]. *)
Definition call_fixture (c : Call) : M (option string) :=
  fun st tr =>
    if fails allureRuntime tr c then (Failed, st, tr ++ [c])
    else (Done (new_fixture allureRuntime tr c), st, tr ++ [c]).

(** [this._scopesStack.pop()], [this._executablesStack.pop()] and
    [this._fixturesStack.pop()]. *)
Definition pop_scope : M (option string) :=
  fun st tr =>
    let (top, rest) := pop (_scopesStack st) in
    (Done top, set_scopesStack rest st, tr).

Definition pop_executable : M (option string) :=
  fun st tr =>
    let (top, rest) := pop (_executablesStack st) in
    (Done top, set_executablesStack rest st, tr).

Definition pop_fixture : M (option string) :=
  fun st tr =>
    let (top, rest) := pop (_fixturesStack st) in
    (Done top, set_fixturesStack rest st, tr).

(** [this.allureRuntime.f(...)] without [await]: the call is made and
    the promise it returns is dropped, so the method goes on whether
    the backend completes the call or fails it. *)
Definition call_unawaited (c : Call) : M unit :=
  fun st tr =>
    if fails allureRuntime tr c then (Done tt, st, tr ++ [c])
    else (Done tt, st, tr ++ [c]).

(** One round of the loop of [_closeOpenedSteps]: the forced step stop
    is applied without [await] (line 27), then the counter goes down. *)
Definition close_one_step (uuid : string) (status : AllureStatus) (stop : option Z)
  : M unit :=
  fun st tr =>
    let stop' := match stop with Some t => t | None => Date_now tr end in
    (call_unawaited (applyRuntimeMessages uuid [step_stop status stop' None]) ;;;
     modify (fun s => set_openSteps (_openSteps s - 1) s)) st tr.

(** The loop does not assign [_currentTestUuid], so the handle read by
    the guard is the one every round uses. *)
Definition _closeOpenedSteps (fuel : nat) (status : AllureStatus) (stop : option Z)
  : M unit :=
  st <- get ;;
  match _currentTestUuid st with
  | Some uuid =>
      if (uuid =? "")%string then ret tt
      else while fuel (fun s => _openSteps s >? 0) (close_one_step uuid status stop)
  | None => ret tt
  end.

Definition _openScope : M unit :=
  scopeUuid <- call_uuid startScope ;;
  modify (fun s => set_scopesStack (push (_scopesStack s) scopeUuid) s).

Definition _closeScope : M unit :=
  scopeUuid <- pop_scope ;;
  match scopeUuid with
  | Some uuid => if (uuid =? "")%string then ret tt else call (writeScope uuid)
  | None => ret tt
  end.

Definition _writeLastTest : M unit :=
  st <- get ;;
  match _currentTestUuid st with
  | Some uuid =>
      if (uuid =? "")%string then ret tt
      else
        _closeScope ;;;
        call (writeTest uuid) ;;;
        modify (set_currentTestUuid None)
  | None => ret tt
  end.

Definition _startSuite : M unit :=
  st <- get ;;
  when (truthy (_currentTestUuid st)) _writeLastTest ;;;
  _openScope.

Definition _endSuite (write : bool) : M unit :=
  _closeScope ;;;
  when write _writeLastTest.

Definition _startTest (data : WDIOTestStartData) : M unit :=
  st <- get ;;
  when (truthy (_currentTestUuid st)) _writeLastTest ;;;
  _openScope ;;;
  st' <- get ;;
  testUuid <- call_uuid (startTest (ts_name data) (ts_start data) (_scopesStack st')) ;;
  modify (fun s =>
            set_openSteps 0
              (set_currentTestUuid (Some testUuid)
                 (set_executablesStack (push (_executablesStack s) testUuid) s))).

Definition _addTestInfo (fullName : string) : M unit :=
  st <- get ;;
  match last (_executablesStack st) with
  | Some testUuid =>
      if (testUuid =? "")%string then ret tt
      else call (updateTest testUuid (set_fullName fullName))
  | None => ret tt
  end.

Definition _endTest (fuel : nat) (data : WDIOTestEndData) (write : bool) : M unit :=
  popped <- pop_executable ;;
  match popped with
  | Some testUuid =>
      if (testUuid =? "")%string then ret tt
      else
        _closeOpenedSteps fuel (te_status data) (te_stop data) ;;;
        call (updateTest testUuid
                (set_result (te_status data) (te_stage data) (te_statusDetails data))) ;;;
        call (stopTest testUuid (te_stop data) (te_duration data)) ;;;
        when write _writeLastTest
  | None => ret tt
  end.

Definition _startHook (data : WDIOHookStartData) : M unit :=
  st <- get ;;
  when (after_all (hs_name data) && truthy (_currentTestUuid st)) _writeLastTest ;;;
  st' <- get ;;
  let scopeUuid := last (_scopesStack st') in
  hookUuid <- call_fixture
                (startFixture scopeUuid (hs_type data) (hs_name data) (hs_start data)) ;;
  match hookUuid with
  | Some uuid =>
      if (uuid =? "")%string then ret tt
      else modify (fun s => set_fixturesStack (push (_fixturesStack s) uuid) s)
  | None => ret tt
  end.

Definition _endHook (data : WDIOHookEndData) : M unit :=
  popped <- pop_fixture ;;
  match popped with
  | Some hookUuid =>
      if (hookUuid =? "")%string then ret tt
      else
        call (updateFixture hookUuid (he_status data) (he_statusDetails data)) ;;;
        call (stopFixture hookUuid (he_stop data) (he_duration data))
  | None => ret tt
  end.

(** The part of the loop body after the [switch]: a message of
    allure-js-commons, forwarded to the current test if there is one. *)
Definition forward (m : RuntimeMessage) : M unit :=
  st <- get ;;
  match _currentTestUuid st with
  | Some uuid =>
      if (uuid =? "")%string then ret tt
      else
        when (runtime_type m =? "step_start")%string
             (modify (fun s => set_openSteps (_openSteps s + 1) s)) ;;;
        when (runtime_type m =? "step_stop")%string
             (modify (fun s => set_openSteps (Z.max 0 (_openSteps s - 1)) s)) ;;;
        call (applyRuntimeMessages uuid [m])
  | None => ret tt
  end.

(** The body of the [for] loop of [processRuntimeMessage]. *)
Definition process_message (fuel : nat) (message : WDIORuntimeMessage)
           (lastMessage : bool) : M unit :=
  match message with
  | allure_suite_start _ => _startSuite
  | allure_suite_end => _endSuite lastMessage
  | allure_test_start data => _startTest data
  | allure_test_info fullName => _addTestInfo fullName
  | allure_test_end data => _endTest fuel data lastMessage
  | allure_hook_start data => _startHook data
  | allure_hook_end data => _endHook data
  | runtime m => forward m
  end.

(** [for (let i = ...; i < this.messages.length; i++)], from index [i],
    at most [n] rounds; every inner loop may use [fuel] rounds.  Reading
    [this.messages[i]] outside the array would make [message.type] throw. *)
Fixpoint for_messages (fuel : nat) (n : nat) (i : nat) : M unit :=
  fun st tr =>
    if (i <? List.length (messages st))%nat then
      match n with
      | O => (OutOfFuel, st, tr)
      | S n' =>
          match nth_error (messages st) i with
          | Some message =>
              let lastMessage := (i =? List.length (messages st) - 1)%nat in
              (process_message fuel message lastMessage ;;;
               for_messages fuel n' (S i)) st tr
          | None => (Failed, st, tr)
          end
      end
    else (Done tt, st, tr).

(** The end of [processRuntimeMessage]: the last test, then the scopes. *)
Definition drain (fuel : nat) : M unit :=
  st <- get ;;
  when (truthy (_currentTestUuid st)) _writeLastTest ;;;
  while fuel (fun s => (0 <? List.length (_scopesStack s))%nat) _closeScope.

Definition processRuntimeMessage (fuel : nat) : M unit :=
  for_messages fuel fuel 0 ;;;
  drain fuel.

End Replay.

(* ------------------------------------------------------------------ *)
(** ** The words of the specification about the log predicates *)

(** [z] is the last index of [l] at which [p] holds, [-1] when [p] holds
    nowhere. *)
Definition last_index_of {A : Type} (p : A -> bool) (l : list A) (z : Z) : Prop :=
  (z = -1 /\ forall j x, nth_error l j = Some x -> p x = false) \/
  (exists i x, z = Z.of_nat i /\ nth_error l i = Some x /\ p x = true /\
               forall j y, (i < j)%nat -> nth_error l j = Some y -> p y = false).

(** A message of kind [start] occurs in the log and no message of kind
    [stop] occurs after it. *)
Definition start_without_later_end (start stop : string)
           (log : list WDIORuntimeMessage) : Prop :=
  exists i m, nth_error log i = Some m /\ type m = start /\
              forall j m', (i < j)%nat -> nth_error log j = Some m' -> type m' <> stop.

(** What the specification says of one pending predicate whose value on
    [log] is [b]. *)
Definition pending_spec (start stop : string) (log : list WDIORuntimeMessage)
           (b : bool) : Prop :=
  (exists s e, last_index_of (has_type start) log s /\
               last_index_of (has_type stop) log e /\
               (b = true <-> s > e)) /\
  (b = true <-> start_without_later_end start stop log).

(** The suites that are open at the end of a log, innermost last: a
    suite-start opens one, a suite-end closes the innermost open one. *)
Fixpoint open_suites (log : list WDIORuntimeMessage) (opened : list WDIOSuiteStartData)
  : list WDIOSuiteStartData :=
  match log with
  | [] => opened
  | allure_suite_start data :: log' => open_suites log' (opened ++ [data])
  | allure_suite_end :: log' => open_suites log' (removelast opened)
  | _ :: log' => open_suites log' opened
  end.

(** The name of the most recent still-open suite-start that is marked as a
    feature, as the specification words [currentFeature]. *)
Definition still_open_feature (log : list WDIORuntimeMessage) : option string :=
  match findLast (open_suites log []) (fun data => Boolean (ss_feature data)) with
  | Some data => Some (ss_name data)
  | None => None
  end.


(** The log of the counterexample to the "still open" reading of
    [currentFeature]: a feature suite that has started and ended. *)
Definition closed_feature_log : list WDIORuntimeMessage :=
  [allure_suite_start (mkSuiteStart "Login" (Some true)); allure_suite_end].

(* ------------------------------------------------------------------ *)
(** ** Vocabulary for the replay pass *)

(** The backend never fails a call. *)
Definition never_fails (rt : ReporterRuntime) : Prop :=
  forall (history : list Call) (c : Call), fails rt history c = false.

(** The calls [_closeScope] makes when it completes: it persists the scope
    on top of the stack, if there is one. *)
Definition closing_calls (st : AllureReportState) : list Call :=
  match last (_scopesStack st) with
  | Some uuid => if (uuid =? "")%string then [] else [writeScope uuid]
  | None => []
  end.

(** How many starts of kind [start] are left without their end after
    [log], [waiting] of them having been left before it: a message of kind
    [stop] ends the most recent start that is still waiting, and ends
    nothing when none is. *)
Fixpoint unended (start stop : string) (log : list WDIORuntimeMessage) (waiting : nat)
  : nat :=
  match log with
  | [] => waiting
  | m :: log' =>
      unended start stop log'
              (if has_type start m then S waiting
               else if has_type stop m then Nat.pred waiting
               else waiting)
  end.

(** The executable stack and the fixture stack of [s] are [E] and [F]. *)
Definition stacks_are (E F : list string) (s : AllureReportState) : Prop :=
  _executablesStack s = E /\ _fixturesStack s = F.

(** The backend gives every fixture a handle that is not empty. *)
Definition fixtures_get_handles (rt : ReporterRuntime) : Prop :=
  forall (history : list Call) (c : Call),
    exists h, new_fixture rt history c = Some h /\ (h =? "")%string = false.

(** The measure of the loops: open steps plus open scopes. *)
Definition weight (st : AllureReportState) : nat :=
  (Z.to_nat (_openSteps st) + List.length (_scopesStack st))%nat.

(** Fuel that lets every loop of a replay of [st] run to its end. *)
Definition enough_fuel (st : AllureReportState) : nat :=
  (weight st + List.length (messages st))%nat.

(** The rounds [i], [i+1], ..., [i+count-1] of the loop over the log, one
    after the other, each message once. *)
Fixpoint rounds (rt : ReporterRuntime) (Date_now : list Call -> Z) (fuel : nat)
         (i count : nat) : M unit :=
  fun st tr =>
    match count with
    | O => (Done tt, st, tr)
    | S count' =>
        match nth_error (messages st) i with
        | Some message =>
            (process_message rt Date_now fuel message
                             (i =? List.length (messages st) - 1)%nat ;;;
             rounds rt Date_now fuel (S i) count') st tr
        | None => (Done tt, st, tr)
        end
    end.

(** The shape of the one call that is made without being awaited: a step
    stop without details, as [_closeOpenedSteps] applies it. *)
Definition is_forced_stop (c : Call) : bool :=
  match c with
  | applyRuntimeMessages _ [step_stop _ _ None] => true
  | _ => false
  end.

(** Every call of [calls], made in order after the history [tr], is one
    the backend completes, unless it is a forced step stop, whose failure
    nobody waits for. *)
Fixpoint completed (rt : ReporterRuntime) (tr calls : list Call) : Prop :=
  match calls with
  | [] => True
  | c :: rest =>
      (fails rt tr c = false \/ is_forced_stop c = true) /\
      completed rt (tr ++ [c]) rest
  end.

(** The calls a computation with outcome [o] has issued after the history
    [tr]: all of them [completed], except that a failed computation
    stopped at the call the backend failed. *)
Definition issued (rt : ReporterRuntime) (tr : list Call) {A : Type}
           (o : Outcome A) (calls : list Call) : Prop :=
  match o with
  | Failed => exists pre c, calls = pre ++ [c] /\ completed rt tr pre /\
                            fails rt (tr ++ pre) c = true
  | _ => completed rt tr calls
  end.

(** A run from [st] and [tr] is sound at cost [k]: it leaves the log
    alone, raises the weight by at most [k], and only appends to the trace
    the calls it issued. *)
Definition sound (rt : ReporterRuntime) (k : nat) {A : Type}
           (st : AllureReportState) (tr : list Call)
           (r : Outcome A * AllureReportState * list Call) : Prop :=
  match r with
  | (o, st', tr') =>
      messages st' = messages st /\
      (weight st' <= weight st + k)%nat /\
      exists calls, tr' = tr ++ calls /\ issued rt tr o calls
  end.

(** A computation is well behaved within fuel [F] at cost [k]: every run
    is sound at cost [k], and a run started with [weight + k <= F] does not
    run out of fuel. *)
Definition behaves (rt : ReporterRuntime) (F k : nat) {A : Type} (m : M A) : Prop :=
  forall st tr,
    match m st tr with
    | (o, st', tr') =>
        ((weight st + k <= F)%nat -> o <> OutOfFuel) /\
        sound rt k st tr (o, st', tr')
    end.

(* ------------------------------------------------------------------ *)
(** ** Concrete sessions *)

(** A session that has received [log] and has not been replayed yet. *)
Definition session (log : list WDIORuntimeMessage) : AllureReportState :=
  mkState [] [] [] None log 0.

Definition show (n : nat) : string := NilEmpty.string_of_uint (Nat.to_uint n).

(** A backend that completes every call and numbers its handles by the
    number of calls made before. *)
Definition counting_runtime : ReporterRuntime :=
  mkRuntime (fun _ _ => false)
            (fun tr c =>
               match c with
               | startTest name _ _ => ("test:" ++ name)%string
               | _ => ("scope#" ++ show (List.length tr))%string
               end)
            (fun tr _ => Some ("hook#" ++ show (List.length tr))%string).

(** The same backend, except that it cannot stop a test. *)
Definition stop_failing_runtime : ReporterRuntime :=
  mkRuntime (fun _ c => match c with stopTest _ _ _ => true | _ => false end)
            (new_uuid counting_runtime)
            (new_fixture counting_runtime).


Definition ticking_clock (tr : list Call) : Z := 1000 + Z.of_nat (List.length tr).

Definition passed_data (stop : Z) : WDIOTestEndData :=
  mkTestEnd passed (Some finished) (Some stop) None None.

Definition passed_at (stop : Z) : WDIORuntimeMessage :=
  allure_test_end (passed_data stop).

(** A test and a hook that start and never end. *)
Definition unfinished_log : list WDIORuntimeMessage :=
  [allure_test_start (mkTestStart "A" 1);
   allure_hook_start (mkHookStart "before each" before 2)].

(** A test whose step is never stopped and which a suite start finalises
    before its test end arrives. *)
Definition finalised_early_log : list WDIORuntimeMessage :=
  [allure_test_start (mkTestStart "A" 1);
   runtime (step_start "click" 2);
   allure_suite_start (mkSuiteStart "S" None);
   passed_at 9].


(** suite start, test start, step start, step stop, test end, suite end. *)
Definition round_trip_log : list WDIORuntimeMessage :=
  [allure_suite_start (mkSuiteStart "S" None);
   allure_test_start (mkTestStart "A" 1);
   runtime (step_start "click" 2);
   runtime (step_stop passed 3 None);
   passed_at 4;
   allure_suite_end].

Definition is_writeScope (c : Call) : bool :=
  match c with writeScope _ => true | _ => false end.

Definition is_writeTest (c : Call) : bool :=
  match c with writeTest _ => true | _ => false end.

Definition is_apply (c : Call) : bool :=
  match c with applyRuntimeMessages _ _ => true | _ => false end.

(** How many calls of a trace satisfy [p]. *)
Definition count_calls (p : Call -> bool) (tr : list Call) : nat :=
  List.length (filter p tr).

(** A call that force-closes one step of test [uuid]: a step stop with
    the given status, stamped with [stop] when there is one. *)
Definition forced_stop (uuid : string) (status : AllureStatus) (stop : option Z)
           (c : Call) : Prop :=
  exists t, c = applyRuntimeMessages uuid [step_stop status t None] /\
            forall t', stop = Some t' -> t = t'.

(** The session and the calls made once [test_start A] has been replayed
    by [counting_runtime]. *)
Definition test_A_open (log : list WDIORuntimeMessage) (steps : Z) : AllureReportState :=
  mkState ["scope#0"] ["test:A"] [] (Some "test:A") log steps.

Definition test_A_calls : list Call :=
  [startScope; startTest "A" 1 ["scope#0"]].

(* ------------------------------------------------------------------ *)
(** ** Vocabulary for the accounting of scopes and tests *)

Definition is_startScope (c : Call) : bool :=
  match c with startScope => true | _ => false end.

Definition is_startTest (c : Call) : bool :=
  match c with startTest _ _ _ => true | _ => false end.

(** A call that neither starts nor writes a scope or a test. *)
Definition neutral (c : Call) : bool :=
  negb (is_startScope c || is_writeScope c || is_startTest c || is_writeTest c).

(** The backend never returns the empty string as a handle. *)
Definition nonempty_handles (rt : ReporterRuntime) : Prop :=
  forall (history : list Call) (c : Call), (new_uuid rt history c =? "")%string = false.

(** The session once its current test, if any, has been finalised by
    [_writeLastTest], and the calls that finalising makes. *)
Definition finalised (st : AllureReportState) : AllureReportState :=
  if truthy (_currentTestUuid st)
  then set_currentTestUuid None (set_scopesStack (removelast (_scopesStack st)) st)
  else st.

Definition finalising_calls (st : AllureReportState) : list Call :=
  match _currentTestUuid st with
  | Some uuid => if (uuid =? "")%string then [] else closing_calls st ++ [writeTest uuid]
  | None => []
  end.

(** The books balance: every scope started is either written or still on
    the scope stack, every test started is either written or the current
    one, and no handle on the scope stack is empty. *)
Definition balanced (st : AllureReportState) (tr : list Call) : Prop :=
  count_calls is_startScope tr =
    (count_calls is_writeScope tr + List.length (_scopesStack st))%nat /\
  count_calls is_startTest tr =
    (count_calls is_writeTest tr + if truthy (_currentTestUuid st) then 1 else 0)%nat /\
  Forall (fun uuid => (uuid =? "")%string = false) (_scopesStack st).

(** [m] keeps [J] whenever it completes. *)
Definition keeps (J : AllureReportState -> list Call -> Prop) {A : Type} (m : M A) : Prop :=
  forall st tr a st' tr', J st tr -> m st tr = (Done a, st', tr') -> J st' tr'.

(** [m] keeps the property [P] of the session however it ends. *)
Definition always (P : AllureReportState -> Prop) {A : Type} (m : M A) : Prop :=
  forall st tr, P st -> match m st tr with (_, st', _) => P st' end.

(** The call [_addTestInfo] makes: it renames the test on top of the
    executable stack, if there is one. *)
Definition renaming_calls (st : AllureReportState) (fullName : string) : list Call :=
  match last (_executablesStack st) with
  | Some testUuid =>
      if (testUuid =? "")%string then [] else [updateTest testUuid (set_fullName fullName)]
  | None => []
  end.

(** The open-step counter after a message of allure-js-commons has been
    forwarded. *)
Definition counted (m : RuntimeMessage) (steps : Z) : Z :=
  match m with
  | step_start _ _ => steps + 1
  | step_stop _ _ _ => Z.max 0 (steps - 1)
  | _ => steps
  end.

(* ------------------------------------------------------------------ *)
(** ** The session registry of the reporter (class [AllureReporter])

    A JavaScript [Map] with string keys is a list of entries in insertion
    order with no key twice: [set] replaces the value of a key it finds
    and appends a new key at the end, iteration follows the list.  The
    sessions are objects held by the map, so a change of a session is a
    change of the entry. *)

Section JsMap.

Context {K V : Type}.
(** Equality of keys. *)
Variable eqb : K -> K -> bool.

Fixpoint Map_get (k : K) (m : list (K * V)) : option V :=
  match m with
  | [] => None
  | (k', v) :: m' => if eqb k' k then Some v else Map_get k m'
  end.

Definition Map_has (k : K) (m : list (K * V)) : bool :=
  match Map_get k m with Some _ => true | None => false end.

Fixpoint Map_set (k : K) (v : V) (m : list (K * V)) : list (K * V) :=
  match m with
  | [] => [(k, v)]
  | (k', v') :: m' =>
      if eqb k' k then (k, v) :: m' else (k', v') :: Map_set k v m'
  end.

End JsMap.

(** The fields of [AllureReporter] that the registry and [onRunnerEnd]
    read and write; [stdout_patched] tells whether [process.stdout.write]
    is the reporter's wrapper rather than the original function. *)
Record AllureReporter : Type := mkReporter {
  _cid : option string;
  allureStatesByCid : list (string * AllureReportState);
  _isFlushing : bool;
  addConsoleLogs : bool;
  stdout_patched : bool
}.

Definition set_allureStatesByCid (v : list (string * AllureReportState))
           (r : AllureReporter) : AllureReporter :=
  mkReporter (_cid r) v (_isFlushing r) (addConsoleLogs r) (stdout_patched r).

Definition isSynchronised (r : AllureReporter) : bool := negb (_isFlushing r).

(** What [onRunnerEnd] leaves behind: how its promise settled, the
    reporter, the calls made on the backend, and whether
    [writeEnvironmentInfo] was called. *)
Record RunnerEnd : Type := mkRunnerEnd {
  settled : Outcome unit;
  reporter : AllureReporter;
  backend_calls : list Call;
  environment_info_requested : bool
}.

Section Registry.

(** [DEFAULT_CID] of constants.ts, which is not among the sources. *)
Variable DEFAULT_CID : string.
Variable allureRuntime : ReporterRuntime.
Variable Date_now : list Call -> Z.
(** Whether [writeEnvironmentInfo] throws after the given calls. *)
Variable environment_fails : list Call -> bool.

(** [this._cid || DEFAULT_CID]. *)
Definition _currentCid (r : AllureReporter) : string :=
  if truthy (_cid r) then
    match _cid r with Some cid => cid | None => DEFAULT_CID end
  else DEFAULT_CID.

(** The session returned is the one held by the map; [None] stands for
    the [undefined] that the non-null assertion lets through. *)
Definition _ensureState (cid : string) (r : AllureReporter)
  : option AllureReportState * AllureReporter :=
  let r' := if negb (Map_has String.eqb cid (allureStatesByCid r))
            then set_allureStatesByCid (Map_set String.eqb cid new_state (allureStatesByCid r)) r
            else r in
  (Map_get String.eqb cid (allureStatesByCid r'), r').

(** [state.pushRuntimeMessage(message)] changes the session the map
    holds; on [undefined] the method call would throw. *)
Definition _pushRuntimeMessage (message : WDIORuntimeMessage) (r : AllureReporter)
  : option AllureReporter :=
  let cid := _currentCid r in
  match _ensureState cid r with
  | (Some state, r') =>
      Some (set_allureStatesByCid
              (Map_set String.eqb cid (pushRuntimeMessage state message) (allureStatesByCid r')) r')
  | (None, _) => None
  end.

(** [current?.hasPendingSuite] and its siblings: [undefined] when the
    current worker has no session. *)
Definition _hasPendingSuite (r : AllureReporter) : option bool :=
  match Map_get String.eqb (_currentCid r) (allureStatesByCid r) with
  | Some current => Some (hasPendingSuite (messages current))
  | None => None
  end.

Definition _hasPendingTest (r : AllureReporter) : option bool :=
  match Map_get String.eqb (_currentCid r) (allureStatesByCid r) with
  | Some current => Some (hasPendingTest (messages current))
  | None => None
  end.

Definition _hasPendingHook (r : AllureReporter) : option bool :=
  match Map_get String.eqb (_currentCid r) (allureStatesByCid r) with
  | Some current => Some (hasPendingHook (messages current))
  | None => None
  end.

(** The loop of [onRunnerEnd] over the entries still to visit: replay
    the session, then delete its entry.  A replay that does not complete
    leaves its entry, with the session as the replay left it, and the
    entries after it. *)
Fixpoint flush (fuel : nat) (entries : list (string * AllureReportState))
         (tr : list Call)
  : Outcome unit * list (string * AllureReportState) * list Call :=
  match entries with
  | [] => (Done tt, [], tr)
  | (cid, state) :: rest =>
      match processRuntimeMessage allureRuntime Date_now fuel state tr with
      | (Done _, _, tr') => flush fuel rest tr'
      | (Failed, state', tr') => (Failed, (cid, state') :: rest, tr')
      | (OutOfFuel, state', tr') => (OutOfFuel, (cid, state') :: rest, tr')
      end
  end.

Definition onRunnerEnd (fuel : nat) (r : AllureReporter) (tr : list Call) : RunnerEnd :=
  match flush fuel (allureStatesByCid r) tr with
  | (o, entries, tr') =>
      (* finally *)
      let r' := mkReporter (_cid r) entries false (addConsoleLogs r)
                           (if addConsoleLogs r then false else stdout_patched r) in
      match o with
      | Done _ =>
          if environment_fails tr' then mkRunnerEnd Failed r' tr' true
          else mkRunnerEnd (Done tt) r' tr' true
      | _ => mkRunnerEnd o r' tr' false
      end
  end.

End Registry.

(** The entries have no key twice. *)
Definition well_keyed {K V : Type} (m : list (K * V)) : Prop := NoDup (map fst m).

(** The calls of the sessions of a registry replayed one after the other,
    each on the history the previous ones left. *)
Fixpoint replayed_in_turn (rt : ReporterRuntime) (Date_now : list Call -> Z) (fuel : nat)
         (entries : list (string * AllureReportState)) (tr : list Call) : list Call :=
  match entries with
  | [] => tr
  | (_, state) :: rest =>
      replayed_in_turn rt Date_now fuel rest
                       (snd (processRuntimeMessage rt Date_now fuel state tr))
  end.

(** A reporter for worker "0-1" that holds a session with a started test
    for that worker and an empty session for worker "0-2". *)
Definition two_workers : AllureReporter :=
  mkReporter (Some "0-1")
             [("0-1", session [allure_test_start (mkTestStart "A" 1)]);
              ("0-2", session [])]
             false true true.

(* ------------------------------------------------------------------ *)
(** ** The test plan (testplan.ts)

    The strings of this file are searched, trimmed and rewritten
    character by character, so they are modelled as JavaScript has them:
    sequences of UTF-16 code units. *)

Definition jsstring : Type := list N.

Fixpoint units_eqb (a b : jsstring) : bool :=
  match a, b with
  | [], [] => true
  | x :: a', y :: b' => (x =? y)%N && units_eqb a' b'
  | _, _ => false
  end.

(** An ASCII literal as a JavaScript string. *)
Definition js (s : string) : jsstring :=
  map (fun a => N.of_nat (nat_of_ascii a)) (list_ascii_of_string s).

(** The class [\s] of a regular expression, which is also what [trim]
    strips: the white space and line terminator code points. *)
Definition is_space (c : N) : bool :=
  ((9 <=? c) && (c <=? 13) || (c =? 32) || (c =? 160) || (c =? 5760) ||
   (8192 <=? c) && (c <=? 8202) || (c =? 8232) || (c =? 8233) || (c =? 8239) ||
   (c =? 8287) || (c =? 12288) || (c =? 65279))%N.

(** The class [[\\/]]: a backslash or a slash. *)
Definition is_slash (c : N) : bool := ((c =? 92) || (c =? 47))%N.

(** [s.replace(/p+/g, r)] for a class [p] of code units: every maximal
    run of [p] becomes the single unit [r].  [in_run] tells that the
    unit before [s] belongs to the run being replaced. *)
Fixpoint replace_runs (p : N -> bool) (r : N) (in_run : bool) (s : jsstring) : jsstring :=
  match s with
  | [] => []
  | c :: s' =>
      if p c then
        if in_run then replace_runs p r true s' else r :: replace_runs p r true s'
      else c :: replace_runs p r false s'
  end.

Fixpoint trimStart (s : jsstring) : jsstring :=
  match s with
  | [] => []
  | c :: s' => if is_space c then trimStart s' else s
  end.

Fixpoint trimEnd (s : jsstring) : jsstring :=
  match s with
  | [] => []
  | c :: s' =>
      match trimEnd s' with
      | [] => if is_space c then [] else [c]
      | rest => c :: rest
      end
  end.

Definition trim (s : jsstring) : jsstring := trimEnd (trimStart s).

(** [s.replace(/\s+/g, ' ').replace(/[\\/]+/g, '/').trim()]. *)
Definition normalize (s : jsstring) : jsstring :=
  trim (replace_runs is_slash 47 false (replace_runs is_space 32 false s)).

(** [testPath.join(' ')] and its like. *)
Fixpoint join (sep : jsstring) (parts : list jsstring) : jsstring :=
  match parts with
  | [] => []
  | [part] => part
  | part :: rest => part ++ sep ++ join sep rest
  end.

Fixpoint startsWith (s prefix : jsstring) : bool :=
  match prefix, s with
  | [], _ => true
  | x :: prefix', y :: s' => (x =? y)%N && startsWith s' prefix'
  | _ :: _, [] => false
  end.

Definition endsWith (s suffix : jsstring) : bool := startsWith (rev s) (rev suffix).

(** [sel.includes('#')]. *)
Definition includes_hash (s : jsstring) : bool := existsb (N.eqb 35) s.

(** Truthiness of a string that may be [undefined]. *)
Definition filled (s : option jsstring) : bool :=
  match s with
  | Some (_ :: _) => true
  | _ => false
  end.

(** [Set.prototype.add]. *)
Definition Set_add (x : jsstring) (s : list jsstring) : list jsstring :=
  if existsb (units_eqb x) s then s else s ++ [x].

Record LoadedTestPlan : Type := mkLoadedTestPlan {
  path : jsstring;
  bySelector : list (jsstring * jsstring);
  byId : list jsstring
}.

(** [MatchableArgs]: the arguments of the test-info event, or the loose
    triple of optional strings. *)
Inductive MatchableArgs : Type :=
| AddTestInfoEventArgs (file : jsstring) (testPath : list jsstring)
| LooseArgs (file fullTitle fullName : option jsstring).

Section TestPlan.

(** JavaScript numbers and [String(n)] are left to the host. *)
Variable number : Type.
Variable number_to_string : number -> jsstring.
(** [path.relative(process.cwd(), p)] and [path.basename(p)]. *)
Variable relative_to_cwd : jsstring -> jsstring.
Variable basename : jsstring -> jsstring.

Inductive TestId : Type :=
| id_string (s : jsstring)
| id_number (n : number).

(** An entry of [TestPlan.tests]. *)
Record PlanTest : Type := mkPlanTest {
  id : TestId;
  selector : option jsstring
}.

(** [String(t.id)]. *)
Definition String_of_id (i : TestId) : jsstring :=
  match i with
  | id_string s => s
  | id_number n => number_to_string n
  end.

(** One round of the loop of [loadTestPlan] over [raw.tests]. *)
Definition index_test (plan : list (jsstring * jsstring) * list jsstring) (t : PlanTest)
  : list (jsstring * jsstring) * list jsstring :=
  let sel := trim (match selector t with Some s => s | None => [] end) in
  match sel with
  | [] => plan
  | _ =>
      let i := String_of_id (id t) in
      (Map_set units_eqb (normalize sel) i (Map_set units_eqb sel i (fst plan)),
       Set_add i (snd plan))
  end.

(** The plan [loadTestPlan] builds from the file at [p] once it has been
    read and parsed; [tests] is [raw.tests], which may be missing. *)
Definition plan_of (p : jsstring) (tests : option (list PlanTest)) : LoadedTestPlan :=
  let indexed := fold_left index_test
                           (match tests with Some l => l | None => [] end) ([], []) in
  mkLoadedTestPlan p (fst indexed) (snd indexed).

(** What [JSON.parse] gave, as far as the body of the [try] looks at
    it.  Reading [raw.tests] throws when [raw] is [null]; a [raw] that
    is not an object has no [tests].  The loop iterates
    [raw.tests ?? []], which throws when that value is not iterable (a
    number, a boolean, an object), and reading the selector of an
    element that is [null] throws.  Everything else stands where the
    type [TestPlan] puts it: an element that is not an object (and each
    character of a [tests] that is a string) has no selector and is
    skipped like a test without one, and an id or a selector of
    another type stands as the string that [String] makes of it. *)
Inductive RawTests : Type :=
| tests_missing
| tests_not_iterable
| tests_array (elements : list (option PlanTest)).

Inductive RawPlan : Type :=
| raw_null
| raw_value (tests : RawTests).

(** The loop of [loadTestPlan] over the elements of [raw.tests]:
    [None] when it throws. *)
Fixpoint index_tests (elements : list (option PlanTest))
         (plan : list (jsstring * jsstring) * list jsstring)
  : option (list (jsstring * jsstring) * list jsstring) :=
  match elements with
  | [] => Some plan
  | None :: _ => None
  | Some t :: rest => index_tests rest (index_test plan t)
  end.

(** The body of the [try] once the file at [p] has been read and
    parsed: the plan it returns, [None] when it throws. *)
Definition try_plan (p : jsstring) (raw : RawPlan) : option LoadedTestPlan :=
  match raw with
  | raw_null => None
  | raw_value tests_not_iterable => None
  | raw_value tests_missing => Some (plan_of p None)
  | raw_value (tests_array elements) =>
      match index_tests elements ([], []) with
      | Some indexed => Some (mkLoadedTestPlan p (fst indexed) (snd indexed))
      | None => None
      end
  end.

(** [loadTestPlan]: [read p] is what [JSON.parse] gives for the file at
    [p], [None] when reading or parsing throws.  Whatever is thrown in
    the [try] is caught and the next candidate is tried. *)
Fixpoint first_plan (read : jsstring -> option RawPlan)
         (candidates : list jsstring) : option LoadedTestPlan :=
  match candidates with
  | [] => None
  | p :: rest =>
      match read p with
      | Some raw =>
          match try_plan p raw with
          | Some plan => Some plan
          | None => first_plan read rest
          end
      | None => first_plan read rest
      end
  end.

Definition loadTestPlan (ALLURE_TESTPLAN_PATH : option jsstring) (cwd : jsstring)
           (read : jsstring -> option RawPlan)
  : option LoadedTestPlan :=
  let candidates :=
      filter (fun p => filled (Some p))
             [match ALLURE_TESTPLAN_PATH with Some p => p | None => [] end;
              cwd ++ js "/.allure/testplan.json";
              cwd ++ js "/testplan.json"] in
  first_plan read candidates.

Definition selectorVariants (file fullTitle : option jsstring) : list jsstring :=
  match file, fullTitle with
  | Some ((_ :: _) as abs), Some ((_ :: _) as ft) =>
      flat_map (fun p => let s := p ++ 35%N :: ft in [s; normalize s])
               [abs; relative_to_cwd abs; basename abs]
  | _, _ => []
  end.

Definition primaryCandidates (fullName fullTitle : option jsstring) : list jsstring :=
  (match fullName with
   | Some ((_ :: _) as fn) => [fn; normalize fn]
   | _ => []
   end) ++
  (match fullTitle with
   | Some ((_ :: _) as ft) => [ft; normalize ft]
   | _ => []
   end).

(** The loop of [heuristicMatch] over the entries of the map. *)
Fixpoint heuristic_scan (ft : jsstring) (entries : list (jsstring * jsstring))
  : option jsstring :=
  match entries with
  | [] => None
  | (sel, i) :: rest =>
      if includes_hash sel then heuristic_scan ft rest
      else
        let s := normalize sel in
        if units_eqb ft s || endsWith ft (32%N :: s) || startsWith ft (s ++ [32%N])
        then Some i
        else heuristic_scan ft rest
  end.

Definition heuristicMatch (plan : LoadedTestPlan) (fullTitle : option jsstring)
  : option jsstring :=
  match fullTitle with
  | Some ((_ :: _) as title) => heuristic_scan (normalize title) (bySelector plan)
  | _ => None
  end.

(** The loop of [matchInPlan] over the candidate keys: the first hit
    that is not the empty string. *)
Fixpoint first_hit (plan : LoadedTestPlan) (keys : list jsstring) : option jsstring :=
  match keys with
  | [] => None
  | k :: rest =>
      match Map_get units_eqb k (bySelector plan) with
      | Some ((_ :: _) as hit) => Some hit
      | _ => first_hit plan rest
      end
  end.

Definition matchInPlan (plan : option LoadedTestPlan) (args : MatchableArgs)
  : option jsstring :=
  match plan with
  | None => None
  | Some plan =>
      match args with
      | AddTestInfoEventArgs file testPath =>
          let fn := file ++ 35%N :: join [32%N] testPath in
          match Map_get units_eqb fn (bySelector plan) with
          | Some hit => Some hit
          | None => Map_get units_eqb (normalize fn) (bySelector plan)
          end
      | LooseArgs file fullTitle fullName =>
          match first_hit plan (primaryCandidates fullName fullTitle ++
                                selectorVariants file fullTitle) with
          | Some hit => Some hit
          | None => heuristicMatch plan fullTitle
          end
      end
  end.

Definition isInTestPlan (plan : option LoadedTestPlan) (args : MatchableArgs) : bool :=
  filled (matchInPlan plan args).

End TestPlan.

(** A class of code units is kept canonical in [s]: each of its units in
    [s] is [r], and no two of them are next to each other ([after] tells
    that the unit before [s] is of the class). *)
Fixpoint canonical (p : N -> bool) (r : N) (after : bool) (s : jsstring) : bool :=
  match s with
  | [] => true
  | c :: s' =>
      if p c then negb after && (c =? r)%N && canonical p r true s'
      else canonical p r false s'
  end.

(** [String(t.selector ?? '').trim()]: the selector under which a test of
    the plan is listed; the empty one is skipped. *)
Definition listed_selector {number : Type} (t : PlanTest number) : jsstring :=
  trim (match selector number t with Some s => s | None => [] end).

(** A plan of two tests: one listed by file and title with stray white
    space, one by its bare title and with a numeric id. *)
Definition one_digit (n : N) : jsstring := [(48 + n)%N].

Definition suite_one : PlanTest N :=
  mkPlanTest N (id_string N (js "7")) (Some (js " spec.js#suite  one ")).

Definition login_works : PlanTest N :=
  mkPlanTest N (id_number N 9%N) (Some (js "login works")).

Definition two_tests_plan : LoadedTestPlan :=
  plan_of N one_digit (js "plan.json") (Some ([] ++ suite_one :: [login_works])).

(** A file system that holds a plan at [/tmp/plan.json] only. *)
Definition only_tmp_plan (p : jsstring) : option (RawPlan N) :=
  if units_eqb p (js "/tmp/plan.json")
  then Some (raw_value N (tests_array N (map Some [suite_one; login_works])))
  else None.
(* ------------------------------------------------------------------ *)
(** ** Backward search *)

Section BackwardSearch.

Context {A : Type}.
Variable p : A -> bool.

Lemma nth_error_in_range (l : list A) (j : nat) (y : A) :
  nth_error l j = Some y -> (j < List.length l)%nat.
Proof. intros H. apply nth_error_Some. congruence. Qed.

Lemma findLastIndex_from_app (l l' : list A) (n : nat) :
  (n <= List.length l)%nat ->
  findLastIndex_from (l ++ l') p n = findLastIndex_from l p n.
Proof.
  induction n as [|n IH]; intros Hn; simpl; [reflexivity|].
  rewrite nth_error_app1 by lia.
  rewrite IH by lia. reflexivity.
Qed.

Lemma findLastIndex_snoc (l : list A) (x : A) :
  findLastIndex (l ++ [x]) p =
  if p x then Z.of_nat (List.length l) else findLastIndex l p.
Proof.
  unfold findLastIndex. rewrite length_app, Nat.add_1_r. simpl.
  rewrite nth_error_app2, Nat.sub_diag by lia. simpl.
  destruct (p x); [reflexivity|].
  apply findLastIndex_from_app. lia.
Qed.

Lemma findLast_from_app (l l' : list A) (n : nat) :
  (n <= List.length l)%nat ->
  findLast_from (l ++ l') p n = findLast_from l p n.
Proof.
  induction n as [|n IH]; intros Hn; simpl; [reflexivity|].
  rewrite nth_error_app1 by lia.
  rewrite IH by lia. reflexivity.
Qed.

Lemma findLast_snoc (l : list A) (x : A) :
  findLast (l ++ [x]) p = if p x then Some x else findLast l p.
Proof.
  unfold findLast. rewrite length_app, Nat.add_1_r. simpl.
  rewrite nth_error_app2, Nat.sub_diag by lia. simpl.
  destruct (p x); [reflexivity|].
  apply findLast_from_app. lia.
Qed.

(** The search returns the last index in the sense of the specification. *)
Lemma findLastIndex_last_index (l : list A) : last_index_of p l (findLastIndex l p).
Proof.
  induction l as [|x l IH] using rev_ind.
  - left. split; [reflexivity|]. intros [|j] y Hy; discriminate.
  - rewrite findLastIndex_snoc. destruct (p x) eqn:Hx.
    + right. exists (List.length l), x. repeat split; trivial.
      * rewrite nth_error_app2, Nat.sub_diag by lia. reflexivity.
      * intros j y Hj Hy.
        apply nth_error_in_range in Hy. rewrite length_app in Hy. simpl in Hy. lia.
    + destruct IH as [[Hz Hall]|(i & y & Hz & Hi & Hy & Hafter)].
      * left. split; [exact Hz|]. intros j y Hj.
        destruct (Nat.lt_ge_cases j (List.length l)) as [Hlt|Hge].
        -- rewrite nth_error_app1 in Hj by lia. eauto.
        -- rewrite nth_error_app2 in Hj by lia.
           destruct (j - List.length l)%nat as [|k]; simpl in Hj.
           ++ congruence.
           ++ destruct k; discriminate.
      * right. exists i, y. repeat split; trivial.
        -- rewrite nth_error_app1; [exact Hi|].
           apply nth_error_in_range in Hi. exact Hi.
        -- intros j y' Hij Hj.
           destruct (Nat.lt_ge_cases j (List.length l)) as [Hlt|Hge].
           ++ rewrite nth_error_app1 in Hj by lia. eauto.
           ++ rewrite nth_error_app2 in Hj by lia.
              destruct (j - List.length l)%nat as [|k]; simpl in Hj.
              ** congruence.
              ** destruct k; discriminate.
Qed.

Lemma last_index_of_unique (l : list A) (z1 z2 : Z) :
  last_index_of p l z1 -> last_index_of p l z2 -> z1 = z2.
Proof.
  intros [[H1 A1]|(i1 & x1 & H1 & N1 & P1 & A1)]
         [[H2 A2]|(i2 & x2 & H2 & N2 & P2 & A2)]; subst.
  - reflexivity.
  - rewrite (A1 _ _ N2) in P2. discriminate.
  - rewrite (A2 _ _ N1) in P1. discriminate.
  - destruct (Nat.lt_trichotomy i1 i2) as [H|[H|H]].
    + rewrite (A1 _ _ H N2) in P2. discriminate.
    + subst. reflexivity.
    + rewrite (A2 _ _ H N1) in P1. discriminate.
Qed.

Lemma findLast_none (l : list A) :
  (forall x, In x l -> p x = false) -> findLast l p = None.
Proof.
  induction l as [|x l IH] using rev_ind; intros H; [reflexivity|].
  rewrite findLast_snoc, (H x) by (apply in_or_app; right; left; reflexivity).
  apply IH. intros y Hy. apply H, in_or_app. left. exact Hy.
Qed.

Lemma findLast_most_recent (pre post : list A) (x : A) :
  p x = true -> (forall y, In y post -> p y = false) ->
  findLast (pre ++ x :: post) p = Some x.
Proof.
  intros Hx. induction post as [|y post IH] using rev_ind; intros H.
  - rewrite findLast_snoc, Hx. reflexivity.
  - replace (pre ++ x :: post ++ [y]) with ((pre ++ x :: post) ++ [y])
      by (rewrite <- app_assoc; reflexivity).
    rewrite findLast_snoc, (H y) by (apply in_or_app; right; left; reflexivity).
    apply IH. intros z Hz. apply H, in_or_app. left. exact Hz.
Qed.

End BackwardSearch.

(* ------------------------------------------------------------------ *)
(** ** The pending predicates *)

Lemma has_type_true (t : string) (m : WDIORuntimeMessage) :
  has_type t m = true <-> type m = t.
Proof. unfold has_type. apply String.eqb_eq. Qed.

Lemma has_type_false (t : string) (m : WDIORuntimeMessage) :
  has_type t m = false <-> type m <> t.
Proof. unfold has_type. apply String.eqb_neq. Qed.

(** The comparison of the two backward searches is the predicate of the
    specification, for any two distinct kinds. *)
Lemma compare_last_indices (start stop : string) (log : list WDIORuntimeMessage) :
  start <> stop ->
  pending_spec start stop log
    (findLastIndex log (has_type start) >? findLastIndex log (has_type stop)).
Proof.
  intros Hne.
  pose proof (findLastIndex_last_index (has_type start) log) as Hs.
  pose proof (findLastIndex_last_index (has_type stop) log) as He.
  set (s := findLastIndex log (has_type start)) in *.
  set (e := findLastIndex log (has_type stop)) in *.
  split.
  - exists s, e. repeat split; trivial.
    + intros H. apply Z.gtb_lt in H. lia.
    + intros H. apply Z.gtb_lt. lia.
  - rewrite Z.gtb_lt. split.
    + intros Hlt.
      destruct Hs as [[Hs _]|(i & m & Hs & Hi & Hm & Hafter)].
      * destruct He as [[He _]|(i' & m' & He & _)]; lia.
      * exists i, m. split; [exact Hi|]. split; [apply has_type_true; exact Hm|].
        intros j m' Hij Hj Hstop.
        apply has_type_true in Hstop.
        destruct He as [[He Hall]|(i' & x & He & Hi' & Hx & Hafter')].
        -- rewrite (Hall _ _ Hj) in Hstop. discriminate.
        -- assert (i' < j)%nat as Hlt' by lia.
           rewrite (Hafter' _ _ Hlt' Hj) in Hstop. discriminate.
    + intros (i & m & Hi & Hm & Hafter).
      apply has_type_true in Hm.
      assert (Z.of_nat i <= s) as Hle.
      { destruct Hs as [[_ Hall]|(i0 & x & Hs & Hi0 & Hx & Hafter0)].
        - rewrite (Hall _ _ Hi) in Hm. discriminate.
        - destruct (Nat.lt_ge_cases i0 i) as [Hlt|Hge]; [|lia].
          rewrite (Hafter0 _ _ Hlt Hi) in Hm. discriminate. }
      destruct He as [[He _]|(i' & x & He & Hi' & Hx & _)]; [lia|].
      apply has_type_true in Hx.
      destruct (Nat.lt_trichotomy i' i) as [Hlt|[Heq|Hgt]].
      * lia.
      * subst i'. rewrite Hi in Hi'. inversion Hi'; subst x.
        apply has_type_true in Hm. congruence.
      * exfalso. exact (Hafter _ _ Hgt Hi' Hx).
Qed.

Lemma fold_push_messages (others : list WDIORuntimeMessage) (st : AllureReportState) :
  messages (fold_left pushRuntimeMessage others st) = messages st ++ others.
Proof.
  revert st. induction others as [|m others IH]; intros st; simpl.
  - rewrite app_nil_r. reflexivity.
  - rewrite IH. simpl. unfold push. rewrite <- app_assoc. reflexivity.
Qed.

(** C5. Each of [hasPendingSuite], [hasPendingTest], [hasPendingStep] and
    [hasPendingHook] is true exactly when the last index of its start kind
    in the log is strictly greater than the last index of its end kind
    (a missing kind having index -1), that is, when a start occurs with no
    later end.  [hasPendingTest] is true right after a test start is
    pushed, and false right after a test end is pushed, whatever was
    pushed in between. *)
Theorem pending_predicates_compare_last_indices :
  forall st : AllureReportState,
    pending_spec "allure:suite:start" "allure:suite:end" (messages st)
                 (hasPendingSuite (messages st)) /\
    pending_spec "allure:test:start" "allure:test:end" (messages st)
                 (hasPendingTest (messages st)) /\
    pending_spec "step_start" "step_stop" (messages st)
                 (hasPendingStep (messages st)) /\
    pending_spec "allure:hook:start" "allure:hook:end" (messages st)
                 (hasPendingHook (messages st)) /\
    (forall data,
        hasPendingTest (messages (pushRuntimeMessage st (allure_test_start data))) = true) /\
    (forall data others data',
        hasPendingTest
          (messages
             (pushRuntimeMessage
                (fold_left pushRuntimeMessage others
                           (pushRuntimeMessage st (allure_test_start data)))
                (allure_test_end data'))) = false).
Proof.
  intros st.
  split; [apply compare_last_indices; discriminate|].
  split; [apply compare_last_indices; discriminate|].
  split; [apply compare_last_indices; discriminate|].
  split; [apply compare_last_indices; discriminate|].
  split.
  - intros data. unfold hasPendingTest. simpl. unfold push.
    rewrite !findLastIndex_snoc. simpl. apply Z.gtb_lt.
    pose proof (findLastIndex_last_index (has_type "allure:test:end") (messages st)) as H.
    destruct H as [[H _]|(i & x & H & Hi & _)].
    + lia.
    + apply nth_error_in_range in Hi. lia.
  - intros data others data'. unfold hasPendingTest. simpl. unfold push.
    rewrite !findLastIndex_snoc. simpl.
    set (log := messages (fold_left pushRuntimeMessage others
                            (pushRuntimeMessage st (allure_test_start data)))).
    pose proof (findLastIndex_last_index (has_type "allure:test:start") log) as H.
    destruct (findLastIndex log (has_type "allure:test:start") >? Z.of_nat (List.length log))
      eqn:Hgt; [|reflexivity].
    apply Z.gtb_lt in Hgt.
    destruct H as [[H _]|(i & x & H & Hi & _)].
    + lia.
    + apply nth_error_in_range in Hi. lia.
Qed.

(* ------------------------------------------------------------------ *)
(** ** [currentFeature] *)

(** C6, as the specification words it, fails: once a feature suite has
    ended no feature is still open, yet [currentFeature] still gives its
    name. *)
Lemma currentFeature_ignores_suite_end :
  still_open_feature closed_feature_log = None /\
  currentFeature closed_feature_log = Some "Login" /\
  currentFeature closed_feature_log <> still_open_feature closed_feature_log.
Proof. repeat split. discriminate. Qed.

(** C6, amended. [currentFeature] gives the name carried by the most
    recent suite-start message marked as a feature, whether or not a
    suite-end has followed it, and [undefined] when the log has no
    suite-start message marked as a feature. *)
Theorem currentFeature_most_recent_feature_start :
  forall log : list WDIORuntimeMessage,
    (forall pre data post,
        log = pre ++ allure_suite_start data :: post ->
        Boolean (ss_feature data) = true ->
        (forall m, In m post -> is_feature_start m = false) ->
        currentFeature log = Some (ss_name data)) /\
    ((forall m, In m log -> is_feature_start m = false) ->
     currentFeature log = None).
Proof.
  intros log. split.
  - intros pre data post -> Hf Hpost. unfold currentFeature.
    rewrite (findLast_most_recent is_feature_start pre post (allure_suite_start data)).
    + reflexivity.
    + unfold is_feature_start. simpl. exact Hf.
    + exact Hpost.
  - intros H. unfold currentFeature. rewrite findLast_none by exact H. reflexivity.
Qed.

Lemma currentFeature_most_recent_feature_start_witness :
  currentFeature closed_feature_log = Some "Login" /\
  currentFeature [allure_suite_end] = None.
Proof.
  split.
  - apply (proj1 (currentFeature_most_recent_feature_start closed_feature_log)
                 [] (mkSuiteStart "Login" (Some true)) [allure_suite_end]).
    + reflexivity.
    + reflexivity.
    + intros m [<-|[]]. reflexivity.
  - apply (proj2 (currentFeature_most_recent_feature_start [allure_suite_end])).
    intros m [<-|[]]. reflexivity.
Defined.

(* ------------------------------------------------------------------ *)
(** ** Every method is well behaved *)

Section WellBehaved.

Variable rt : ReporterRuntime.
Variable Date_now : list Call -> Z.
Variable F : nat.

Lemma completed_app (tr c1 c2 : list Call) :
  completed rt tr (c1 ++ c2) <-> completed rt tr c1 /\ completed rt (tr ++ c1) c2.
Proof.
  revert tr. induction c1 as [|c c1 IH]; intros tr; simpl.
  - rewrite app_nil_r. split; [intros H; split; [exact I|exact H]|intros [_ H]; exact H].
  - rewrite IH. rewrite <- app_assoc. simpl.
    split; [intros (H1 & H2 & H3)|intros ((H1 & H2) & H3)]; repeat split; assumption.
Qed.

Lemma never_fails_not_failed {A : Type} (tr calls : list Call) :
  never_fails rt -> ~ issued rt tr (@Failed A) calls.
Proof.
  intros Hn (pre & c & _ & _ & Hf). rewrite Hn in Hf. discriminate.
Qed.

(** A state change that makes no call. *)
Lemma sound_silent {A : Type} (k : nat) (a : A) (st st' : AllureReportState)
      (tr : list Call) :
  messages st' = messages st -> (weight st' <= weight st + k)%nat ->
  sound rt k st tr (Done a, st', tr).
Proof.
  intros Hm Hw. unfold sound. repeat split; trivial.
  exists []. rewrite app_nil_r. split; [reflexivity|exact I].
Qed.

Lemma behaves_ret {A : Type} (a : A) : behaves rt F 0 (ret a).
Proof.
  intros st tr. unfold ret. split; [discriminate|].
  apply sound_silent; [reflexivity|lia].
Qed.

Lemma behaves_get : behaves rt F 0 get.
Proof.
  intros st tr. unfold get. split; [discriminate|].
  apply sound_silent; [reflexivity|lia].
Qed.

Lemma behaves_modify (k : nat) (f : AllureReportState -> AllureReportState) :
  (forall st, messages (f st) = messages st /\ (weight (f st) <= weight st + k)%nat) ->
  behaves rt F k (modify f).
Proof.
  intros Hf st tr. unfold modify. destruct (Hf st) as [Hm Hw].
  split; [discriminate|]. apply sound_silent; assumption.
Qed.

Lemma behaves_weaken {A : Type} (k k' : nat) (m : M A) :
  (k <= k')%nat -> behaves rt F k m -> behaves rt F k' m.
Proof.
  intros Hk Hm st tr. specialize (Hm st tr).
  destruct (m st tr) as [[o st'] tr'].
  destruct Hm as (H1 & H2 & H3 & H4).
  split; [intros Hw; apply H1; lia|].
  unfold sound. repeat split; trivial. lia.
Qed.

Lemma sound_trans {A B : Type} (k1 k2 : nat) (a : A) (o : Outcome B)
      (st st1 st2 : AllureReportState) (tr tr1 tr2 : list Call) :
  sound rt k1 st tr (Done a, st1, tr1) ->
  sound rt k2 st1 tr1 (o, st2, tr2) ->
  sound rt (k1 + k2) st tr (o, st2, tr2).
Proof.
  intros (H2 & H3 & c1 & H4 & H5) (G2 & G3 & c2 & G4 & G5).
  unfold sound. repeat split; try congruence; try lia.
  exists (c1 ++ c2). split; [subst; rewrite <- app_assoc; reflexivity|].
  simpl in H5. subst tr1.
  destruct o as [b| |]; simpl in *.
  - apply completed_app. split; assumption.
  - destruct G5 as (pre & c & -> & Gc & Gf).
    exists (c1 ++ pre), c. rewrite <- !app_assoc in *.
    repeat split; trivial. apply completed_app. split; assumption.
  - apply completed_app. split; assumption.
Qed.

(** A run that stopped early is as sound for the whole computation. *)
Lemma sound_stopped {A B : Type} (k k' : nat) (o : Outcome A) (o' : Outcome B)
      (st st1 : AllureReportState) (tr tr1 : list Call) :
  (forall calls, issued rt tr o calls -> issued rt tr o' calls) ->
  (k <= k')%nat ->
  sound rt k st tr (o, st1, tr1) ->
  sound rt k' st tr (o', st1, tr1).
Proof.
  intros Ho Hk (H2 & H3 & c1 & H4 & H5).
  unfold sound. repeat split; trivial; try lia.
  exists c1. split; [exact H4|apply Ho; exact H5].
Qed.

Lemma behaves_bind {A B : Type} (k1 k2 : nat) (m : M A) (f : A -> M B) :
  behaves rt F k1 m ->
  (forall a, behaves rt F k2 (f a)) ->
  behaves rt F (k1 + k2) (bind m f).
Proof.
  intros Hm Hf st tr. unfold bind. specialize (Hm st tr).
  destruct (m st tr) as [[o st1] tr1].
  destruct Hm as (H1 & Hs).
  destruct o as [a| |].
  - specialize (Hf a st1 tr1).
    destruct (f a st1 tr1) as [[o2 st2] tr2].
    destruct Hf as (G1 & Gs).
    split; [|exact (sound_trans k1 k2 a o2 st st1 st2 tr tr1 tr2 Hs Gs)].
    intros Hw. apply G1. destruct Hs as (_ & Hw1 & _). lia.
  - split; [discriminate|].
    apply (sound_stopped k1 (k1 + k2) (@Failed A)); [trivial|lia|exact Hs].
  - split; [intros Hw _; apply H1; [lia|reflexivity]|].
    apply (sound_stopped k1 (k1 + k2) (@OutOfFuel A)); [trivial|lia|exact Hs].
Qed.

Lemma behaves_when (k : nat) (b : bool) (m : M unit) :
  behaves rt F k m -> behaves rt F k (when b m).
Proof.
  intros Hm. destruct b; simpl; [exact Hm|].
  apply (behaves_weaken 0); [lia|apply behaves_ret].
Qed.

Lemma issued_one {A : Type} (a : A) (tr : list Call) (c : Call) :
  issued rt tr (if fails rt tr c then Failed else Done a) [c].
Proof.
  destruct (fails rt tr c) eqn:Hf; simpl.
  - exists [], c. rewrite app_nil_r. repeat split. exact Hf.
  - split; [left; exact Hf|exact I].
Qed.

Lemma behaves_call (c : Call) : behaves rt F 0 (call rt c).
Proof.
  intros st tr. unfold call.
  pose proof (issued_one tt tr c) as Hi.
  destruct (fails rt tr c); (split; [discriminate|]);
    unfold sound; repeat split; try lia; exists [c]; split; trivial.
Qed.

Lemma behaves_call_uuid (c : Call) : behaves rt F 0 (call_uuid rt c).
Proof.
  intros st tr. unfold call_uuid.
  pose proof (issued_one (new_uuid rt tr c) tr c) as Hi.
  destruct (fails rt tr c); (split; [discriminate|]);
    unfold sound; repeat split; try lia; exists [c]; split; trivial.
Qed.

Lemma behaves_call_fixture (c : Call) : behaves rt F 0 (call_fixture rt c).
Proof.
  intros st tr. unfold call_fixture.
  pose proof (issued_one (new_fixture rt tr c) tr c) as Hi.
  destruct (fails rt tr c); (split; [discriminate|]);
    unfold sound; repeat split; try lia; exists [c]; split; trivial.
Qed.

Lemma behaves_call_unawaited (c : Call) :
  is_forced_stop c = true -> behaves rt F 0 (call_unawaited rt c).
Proof.
  intros Hc st tr. unfold call_unawaited.
  destruct (fails rt tr c); (split; [discriminate|]);
    unfold sound; (split; [reflexivity|]); (split; [lia|]);
    exists [c]; (split; [reflexivity|]); simpl; (split; [right; exact Hc|exact I]).
Qed.

Lemma length_removelast {A : Type} (l : list A) :
  List.length (removelast l) = (List.length l - 1)%nat.
Proof.
  induction l as [|x l IH]; [reflexivity|].
  destruct l as [|y l]; [reflexivity|].
  change (removelast (x :: y :: l)) with (x :: removelast (y :: l)).
  simpl List.length in *. rewrite IH. lia.
Qed.

Lemma behaves_pop_scope : behaves rt F 0 pop_scope.
Proof.
  intros st tr. unfold pop_scope, pop. split; [discriminate|].
  apply sound_silent; [reflexivity|].
  unfold weight. simpl. rewrite length_removelast. lia.
Qed.

Lemma behaves_pop_executable : behaves rt F 0 pop_executable.
Proof.
  intros st tr. unfold pop_executable, pop. split; [discriminate|].
  apply sound_silent; [reflexivity|]. unfold weight. simpl. lia.
Qed.

Lemma behaves_pop_fixture : behaves rt F 0 pop_fixture.
Proof.
  intros st tr. unfold pop_fixture, pop. split; [discriminate|].
  apply sound_silent; [reflexivity|]. unfold weight. simpl. lia.
Qed.

Lemma behaves_openScope : behaves rt F 1 (_openScope rt).
Proof.
  unfold _openScope.
  apply (behaves_bind 0 1); [apply behaves_call_uuid|].
  intros scopeUuid. apply behaves_modify. intros st. split; [reflexivity|].
  unfold weight, push. simpl. rewrite length_app. simpl. lia.
Qed.

Lemma behaves_closeScope : behaves rt F 0 (_closeScope rt).
Proof.
  unfold _closeScope.
  apply (behaves_bind 0 0); [apply behaves_pop_scope|].
  intros [uuid|]; [|apply behaves_ret].
  destruct (uuid =? "")%string; [apply behaves_ret|apply behaves_call].
Qed.

Lemma behaves_writeLastTest : behaves rt F 0 (_writeLastTest rt).
Proof.
  unfold _writeLastTest.
  apply (behaves_bind 0 0); [apply behaves_get|].
  intros st. destruct (_currentTestUuid st) as [uuid|]; [|apply behaves_ret].
  destruct (uuid =? "")%string; [apply behaves_ret|].
  apply (behaves_bind 0 0); [apply behaves_closeScope|]. intros _.
  apply (behaves_bind 0 0); [apply behaves_call|]. intros _.
  apply behaves_modify. intros s. split; reflexivity || (unfold weight; simpl; lia).
Qed.

Lemma behaves_startSuite : behaves rt F 1 (_startSuite rt).
Proof.
  unfold _startSuite.
  apply (behaves_bind 0 1); [apply behaves_get|]. intros st.
  apply (behaves_bind 0 1); [apply behaves_when, behaves_writeLastTest|].
  intros _. apply behaves_openScope.
Qed.

Lemma behaves_endSuite (write : bool) : behaves rt F 0 (_endSuite rt write).
Proof.
  unfold _endSuite.
  apply (behaves_bind 0 0); [apply behaves_closeScope|].
  intros _. apply behaves_when, behaves_writeLastTest.
Qed.

Lemma behaves_startTest (data : WDIOTestStartData) : behaves rt F 1 (_startTest rt data).
Proof.
  unfold _startTest.
  apply (behaves_bind 0 1); [apply behaves_get|]. intros st.
  apply (behaves_bind 0 1); [apply behaves_when, behaves_writeLastTest|]. intros _.
  apply (behaves_bind 1 0); [apply behaves_openScope|]. intros _.
  apply (behaves_bind 0 0); [apply behaves_get|]. intros st'.
  apply (behaves_bind 0 0); [apply behaves_call_uuid|]. intros testUuid.
  apply behaves_modify. intros s. split; [reflexivity|].
  unfold weight. simpl. lia.
Qed.

Lemma behaves_addTestInfo (fullName : string) : behaves rt F 0 (_addTestInfo rt fullName).
Proof.
  unfold _addTestInfo.
  apply (behaves_bind 0 0); [apply behaves_get|]. intros st.
  destruct (last (_executablesStack st)) as [uuid|]; [|apply behaves_ret].
  destruct (uuid =? "")%string; [apply behaves_ret|apply behaves_call].
Qed.

Lemma behaves_close_one_step (uuid : string) (status : AllureStatus) (stop : option Z) :
  behaves rt F 0 (close_one_step rt Date_now uuid status stop).
Proof.
  intros st tr. unfold close_one_step.
  apply (behaves_bind 0 0); [apply behaves_call_unawaited; reflexivity|].
  intros _. apply behaves_modify. intros s. split; [reflexivity|].
  unfold weight. simpl. lia.
Qed.

(** A [while] loop whose body is sound, never runs out of fuel itself
    and lowers the measure [mu] in every completed round, is sound and
    ends within [mu] rounds; when it completes its condition is false. *)
Lemma while_sound (cond : AllureReportState -> bool) (body : M unit)
      (mu : AllureReportState -> nat) :
  (forall st, cond st = true -> (0 < mu st)%nat) ->
  (forall st tr,
      match body st tr with
      | (o, st', tr') =>
          o <> OutOfFuel /\ sound rt 0 st tr (o, st', tr') /\
          (cond st = true -> o = Done tt -> (mu st' < mu st)%nat)
      end) ->
  forall fuel st tr,
    match while fuel cond body st tr with
    | (o, st', tr') =>
        ((mu st <= fuel)%nat -> o <> OutOfFuel) /\
        sound rt 0 st tr (o, st', tr') /\
        (o = Done tt -> cond st' = false)
    end.
Proof.
  intros Hpos Hbody. induction fuel as [|fuel IH]; intros st tr; simpl.
  - destruct (cond st) eqn:Hc.
    + split; [intros Hmu; specialize (Hpos st Hc); lia|].
      split; [|discriminate].
      unfold sound. repeat split; try lia.
      exists []. rewrite app_nil_r. split; [reflexivity|exact I].
    + split; [discriminate|]. split; [apply sound_silent; [reflexivity|lia]|].
      intros _. exact Hc.
  - destruct (cond st) eqn:Hc.
    + unfold bind. specialize (Hbody st tr).
      destruct (body st tr) as [[o1 st1] tr1].
      destruct Hbody as (Hno & Hs & Hdec).
      destruct o1 as [[]| |].
      * specialize (IH st1 tr1). specialize (Hdec Hc eq_refl).
        destruct (while fuel cond body st1 tr1) as [[o2 st2] tr2].
        destruct IH as (G1 & Gs & Gc).
        split; [intros Hmu; apply G1; lia|].
        split; [exact (sound_trans 0 0 tt o2 st st1 st2 tr tr1 tr2 Hs Gs)|exact Gc].
      * split; [discriminate|]. split; [exact Hs|discriminate].
      * congruence.
    + split; [discriminate|]. split; [apply sound_silent; [reflexivity|lia]|].
      intros _. exact Hc.
Qed.

(** A property of the state that every round keeps is kept by the loop. *)
Lemma while_invariant (P : AllureReportState -> Prop)
      (cond : AllureReportState -> bool) (body : M unit) :
  (forall st tr, P st -> match body st tr with (_, st', _) => P st' end) ->
  forall fuel st tr,
    P st -> match while fuel cond body st tr with (_, st', _) => P st' end.
Proof.
  intros Hbody. induction fuel as [|fuel IH]; intros st tr HP; simpl.
  - destruct (cond st); exact HP.
  - destruct (cond st); [|exact HP]. unfold bind.
    specialize (Hbody st tr HP). destruct (body st tr) as [[o1 st1] tr1].
    destruct o1 as [[]| |]; try exact Hbody.
    apply IH. exact Hbody.
Qed.

Lemma close_one_step_run (uuid : string) (status : AllureStatus) (stop : option Z)
      (st : AllureReportState) (tr : list Call) :
  exists t,
    (forall t', stop = Some t' -> t = t') /\
    (stop = None -> t = Date_now tr) /\
    let c := applyRuntimeMessages uuid [step_stop status t None] in
    close_one_step rt Date_now uuid status stop st tr =
    (Done tt, set_openSteps (_openSteps st - 1) st, tr ++ [c]).
Proof.
  unfold close_one_step, bind, call_unawaited, modify.
  exists (match stop with Some t => t | None => Date_now tr end).
  split; [intros t' ->; reflexivity|]. split; [intros ->; reflexivity|].
  simpl. destruct (fails rt tr _); reflexivity.
Qed.

Lemma closing_steps_sound (uuid : string) (status : AllureStatus) (stop : option Z) :
  forall fuel st tr,
    match while fuel (fun s => _openSteps s >? 0)
                (close_one_step rt Date_now uuid status stop) st tr with
    | (o, st', tr') =>
        ((Z.to_nat (_openSteps st) <= fuel)%nat -> o <> OutOfFuel) /\
        sound rt 0 st tr (o, st', tr') /\
        (o = Done tt -> (_openSteps st' >? 0) = false)
    end.
Proof.
  apply (while_sound (fun s => _openSteps s >? 0) _ (fun s => Z.to_nat (_openSteps s))).
  - intros st Hc. apply Z.gtb_lt in Hc. lia.
  - intros st tr.
    pose proof (behaves_close_one_step uuid status stop st tr) as Hb.
    destruct (close_one_step_run uuid status stop st tr) as (t & _ & _ & Hrun).
    simpl in Hrun. rewrite Hrun in Hb |- *.
    destruct Hb as [_ Hs]. split; [discriminate|]. split; [exact Hs|].
    intros Hc _. apply Z.gtb_lt in Hc. simpl. lia.
Qed.

Lemma behaves_closeOpenedSteps (status : AllureStatus) (stop : option Z) :
  behaves rt F 0 (_closeOpenedSteps rt Date_now F status stop).
Proof.
  unfold _closeOpenedSteps.
  apply (behaves_bind 0 0); [apply behaves_get|]. intros st.
  destruct (_currentTestUuid st) as [uuid|]; [|apply behaves_ret].
  destruct (uuid =? "")%string; [apply behaves_ret|].
  intros s tr.
  pose proof (closing_steps_sound uuid status stop F s tr) as H.
  destruct (while F _ _ s tr) as [[o st'] tr'].
  destruct H as (H1 & H2 & _).
  split; [|exact H2].
  intros Hw. apply H1. unfold weight in Hw. lia.
Qed.

Lemma behaves_endTest (data : WDIOTestEndData) (write : bool) :
  behaves rt F 0 (_endTest rt Date_now F data write).
Proof.
  unfold _endTest.
  apply (behaves_bind 0 0); [apply behaves_pop_executable|].
  intros [uuid|]; [|apply behaves_ret].
  destruct (uuid =? "")%string; [apply behaves_ret|].
  apply (behaves_bind 0 0); [apply behaves_closeOpenedSteps|]. intros _.
  apply (behaves_bind 0 0); [apply behaves_call|]. intros _.
  apply (behaves_bind 0 0); [apply behaves_call|]. intros _.
  apply behaves_when, behaves_writeLastTest.
Qed.

Lemma behaves_startHook (data : WDIOHookStartData) : behaves rt F 0 (_startHook rt data).
Proof.
  unfold _startHook.
  apply (behaves_bind 0 0); [apply behaves_get|]. intros st.
  apply (behaves_bind 0 0); [apply behaves_when, behaves_writeLastTest|]. intros _.
  apply (behaves_bind 0 0); [apply behaves_get|]. intros st'.
  apply (behaves_bind 0 0); [apply behaves_call_fixture|]. intros [uuid|];
    [|apply behaves_ret].
  destruct (uuid =? "")%string; [apply behaves_ret|].
  apply behaves_modify. intros s. split; [reflexivity|]. unfold weight. simpl. lia.
Qed.

Lemma behaves_endHook (data : WDIOHookEndData) : behaves rt F 0 (_endHook rt data).
Proof.
  unfold _endHook.
  apply (behaves_bind 0 0); [apply behaves_pop_fixture|].
  intros [uuid|]; [|apply behaves_ret].
  destruct (uuid =? "")%string; [apply behaves_ret|].
  apply (behaves_bind 0 0); [apply behaves_call|]. intros _. apply behaves_call.
Qed.

Lemma behaves_forward (m : RuntimeMessage) : behaves rt F 1 (forward rt m).
Proof.
  unfold forward.
  apply (behaves_bind 0 1); [apply behaves_get|]. intros st.
  destruct (_currentTestUuid st) as [uuid|];
    [|apply (behaves_weaken 0); [lia|apply behaves_ret]].
  destruct (uuid =? "")%string; [apply (behaves_weaken 0); [lia|apply behaves_ret]|].
  apply (behaves_bind 1 0).
  - apply behaves_when, behaves_modify. intros s. split; [reflexivity|].
    unfold weight. simpl. lia.
  - intros _. apply (behaves_bind 0 0); [|intros _; apply behaves_call].
    apply behaves_when, behaves_modify. intros s. split; [reflexivity|].
    unfold weight. simpl. lia.
Qed.

Lemma behaves_process_message (message : WDIORuntimeMessage) (lastMessage : bool) :
  behaves rt F 1 (process_message rt Date_now F message lastMessage).
Proof.
  destruct message; simpl.
  - apply behaves_startSuite.
  - apply (behaves_weaken 0); [lia|apply behaves_endSuite].
  - apply behaves_startTest.
  - apply (behaves_weaken 0); [lia|apply behaves_addTestInfo].
  - apply (behaves_weaken 0); [lia|apply behaves_endTest].
  - apply (behaves_weaken 0); [lia|apply behaves_startHook].
  - apply (behaves_weaken 0); [lia|apply behaves_endHook].
  - apply behaves_forward.
Qed.

End WellBehaved.

(* ------------------------------------------------------------------ *)
(** ** What the scope and test finalisers do *)

Section Finalisers.

Variable rt : ReporterRuntime.
Variable Date_now : list Call -> Z.

Lemma outcome_done (o : Outcome unit) :
  o <> Failed -> o <> OutOfFuel -> o = Done tt.
Proof. destruct o as [[]| |]; congruence. Qed.

Lemma truthy_some (u : string) : truthy (Some u) = negb (u =? "")%string.
Proof. reflexivity. Qed.

(** [_closeScope] pops the scope stack and asks for the popped scope to
    be written; it ends in the same state whether the call fails or not. *)
Lemma closeScope_run (st : AllureReportState) (tr : list Call) :
  exists o,
    _closeScope rt st tr =
      (o, set_scopesStack (removelast (_scopesStack st)) st, tr ++ closing_calls st) /\
    o <> OutOfFuel.
Proof.
  unfold _closeScope, bind, pop_scope, pop, closing_calls, call, ret.
  destruct (last (_scopesStack st)) as [uuid|].
  - destruct (uuid =? "")%string.
    + exists (Done tt). rewrite app_nil_r. split; [reflexivity|discriminate].
    + destruct (fails rt tr (writeScope uuid)).
      * exists Failed. split; [reflexivity|discriminate].
      * exists (Done tt). split; [reflexivity|discriminate].
  - exists (Done tt). rewrite app_nil_r. split; [reflexivity|discriminate].
Qed.

Lemma writeLastTest_closed (st : AllureReportState) (tr : list Call) :
  truthy (_currentTestUuid st) = false ->
  _writeLastTest rt st tr = (Done tt, st, tr).
Proof.
  unfold _writeLastTest, bind, get, truthy, ret.
  destruct (_currentTestUuid st) as [uuid|]; [|reflexivity].
  destruct (uuid =? "")%string; [reflexivity|discriminate].
Qed.

(** Finalising the current test [uuid]: close the top scope, write the
    test, forget it. *)
Lemma writeLastTest_open (st st' : AllureReportState) (tr tr' : list Call) (uuid : string) :
  _currentTestUuid st = Some uuid ->
  (uuid =? "")%string = false ->
  _writeLastTest rt st tr = (Done tt, st', tr') ->
  st' = set_currentTestUuid None (set_scopesStack (removelast (_scopesStack st)) st) /\
  tr' = tr ++ closing_calls st ++ [writeTest uuid].
Proof.
  intros Hcur Hne. unfold _writeLastTest, get.
  unfold bind at 1. rewrite Hcur, Hne.
  unfold bind at 1.
  destruct (closeScope_run st tr) as (o & -> & _).
  destruct o as [[]| |]; try discriminate.
  unfold bind, call, modify.
  destruct (fails rt _ _); intros H; inversion H; subst.
  rewrite <- app_assoc. split; reflexivity.
Qed.

Lemma writeLastTest_done (st st' : AllureReportState) (tr tr' : list Call) :
  _writeLastTest rt st tr = (Done tt, st', tr') ->
  truthy (_currentTestUuid st') = false.
Proof.
  destruct (truthy (_currentTestUuid st)) eqn:Ht.
  - destruct (_currentTestUuid st) as [uuid|] eqn:Hcur; [|discriminate].
    rewrite truthy_some in Ht. apply negb_true_iff in Ht.
    intros H. destruct (writeLastTest_open st st' tr tr' uuid Hcur Ht H) as [-> _].
    reflexivity.
  - rewrite writeLastTest_closed by exact Ht. intros H. inversion H; subst. exact Ht.
Qed.

(** The loop that closes the remaining scopes ends within as many rounds
    as scopes are open, and when it completes no scope is left. *)
Lemma closing_scopes_sound (F : nat) :
  forall fuel st tr,
    match while fuel (fun s => (0 <? List.length (_scopesStack s))%nat)
                (_closeScope rt) st tr with
    | (o, st', tr') =>
        ((List.length (_scopesStack st) <= fuel)%nat -> o <> OutOfFuel) /\
        sound rt 0 st tr (o, st', tr') /\
        (o = Done tt -> (0 <? List.length (_scopesStack st'))%nat = false)
    end.
Proof.
  apply (while_sound rt (fun s => (0 <? List.length (_scopesStack s))%nat) _
                     (fun s => List.length (_scopesStack s))).
  - intros st Hc. apply Nat.ltb_lt in Hc. exact Hc.
  - intros st tr.
    pose proof (behaves_closeScope rt F st tr) as Hb.
    destruct (closeScope_run st tr) as (o & Hrun & Hno).
    rewrite Hrun in Hb |- *. destruct Hb as [_ Hs].
    split; [exact Hno|]. split; [exact Hs|].
    intros Hc _. apply Nat.ltb_lt in Hc. simpl. rewrite length_removelast. lia.
Qed.

(** Closing scopes touches neither the current test nor the other stacks. *)
Lemma closing_scopes_frame (fuel : nat) (st : AllureReportState) (tr : list Call) :
  match while fuel (fun s => (0 <? List.length (_scopesStack s))%nat)
              (_closeScope rt) st tr with
  | (_, st', _) =>
      _currentTestUuid st' = _currentTestUuid st /\
      _executablesStack st' = _executablesStack st /\
      _fixturesStack st' = _fixturesStack st
  end.
Proof.
  apply (while_invariant
           (fun s => _currentTestUuid s = _currentTestUuid st /\
                     _executablesStack s = _executablesStack st /\
                     _fixturesStack s = _fixturesStack st)).
  - intros s t HP. destruct (closeScope_run s t) as (o & -> & _). exact HP.
  - repeat split.
Qed.

Lemma behaves_drain (F : nat) : behaves rt F 0 (drain rt F).
Proof.
  unfold drain.
  apply (behaves_bind rt F 0 0); [apply behaves_get|]. intros st.
  apply (behaves_bind rt F 0 0); [apply behaves_when, behaves_writeLastTest|]. intros _.
  intros s tr.
  pose proof (closing_scopes_sound F F s tr) as H.
  destruct (while F _ _ s tr) as [[o st'] tr'].
  destruct H as (H1 & H2 & _).
  split; [|exact H2].
  intros Hw. apply H1. unfold weight in Hw. lia.
Qed.

(** When the end-of-log drain completes, no scope is open and no test is
    current; the two other stacks are as the drain found them. *)
Lemma drain_done (fuel : nat) (st st' : AllureReportState) (tr tr' : list Call) :
  drain rt fuel st tr = (Done tt, st', tr') ->
  _scopesStack st' = [] /\ truthy (_currentTestUuid st') = false /\
  _executablesStack st' = _executablesStack st /\
  _fixturesStack st' = _fixturesStack st.
Proof.
  unfold drain, get. unfold bind at 1. unfold bind at 1.
  assert (forall s1 t1,
             when (truthy (_currentTestUuid st)) (_writeLastTest rt) st tr = (Done tt, s1, t1) ->
             truthy (_currentTestUuid s1) = false /\
             _executablesStack s1 = _executablesStack st /\
             _fixturesStack s1 = _fixturesStack st) as Hfin.
  { intros s1 t1. destruct (truthy (_currentTestUuid st)) eqn:Ht; simpl.
    - destruct (_currentTestUuid st) as [uuid|] eqn:Hcur; [|discriminate].
      rewrite truthy_some in Ht. apply negb_true_iff in Ht.
      intros H. destruct (writeLastTest_open st s1 tr t1 uuid Hcur Ht H) as [-> _].
      repeat split.
    - unfold ret. intros H. inversion H; subst. repeat split. exact Ht. }
  destruct (when _ _ st tr) as [[o1 s1] t1]; destruct o1 as [[]| |]; try discriminate.
  destruct (Hfin s1 t1 eq_refl) as (Hcur & Hexe & Hfix).
  pose proof (closing_scopes_sound fuel fuel s1 t1) as H.
  pose proof (closing_scopes_frame fuel s1 t1) as Hframe.
  destruct (while fuel _ _ s1 t1) as [[o2 s2] t2].
  destruct H as (_ & _ & G). destruct Hframe as (G4 & G5 & G6).
  intros E. inversion E; subst.
  specialize (G eq_refl). apply Nat.ltb_ge in G.
  repeat split; try congruence.
  destruct (_scopesStack st'); [reflexivity|simpl in G; lia].
Qed.

(* ---------------------------------------------------------------- *)
(** ** The loop over the log *)

(** With a round for every remaining message, the [for] loop runs the
    remaining rounds in order, each once. *)
Lemma for_messages_rounds (fuel : nat) :
  forall n i st tr,
    (List.length (messages st) - i <= n)%nat ->
    for_messages rt Date_now fuel n i st tr =
    rounds rt Date_now fuel i (List.length (messages st) - i) st tr.
Proof.
  induction n as [|n IH]; intros i st tr Hn.
  - simpl. destruct (i <? List.length (messages st))%nat eqn:Hi.
    + apply Nat.ltb_lt in Hi. lia.
    + replace (List.length (messages st) - i)%nat with O by lia. reflexivity.
  - simpl. destruct (i <? List.length (messages st))%nat eqn:Hi.
    + apply Nat.ltb_lt in Hi.
      destruct (List.length (messages st) - i)%nat as [|c] eqn:Hc; [lia|].
      simpl. destruct (nth_error (messages st) i) as [message|] eqn:Hm.
      * unfold bind.
        pose proof (behaves_process_message rt Date_now fuel message
                      (i =? List.length (messages st) - 1)%nat st tr) as Hb.
        destruct (process_message rt Date_now fuel message _ st tr) as [[o st1] tr1].
        destruct Hb as (_ & Hmsgs & _).
        destruct o as [[]| |]; try reflexivity.
        rewrite IH by (rewrite Hmsgs; lia).
        rewrite Hmsgs. replace (List.length (messages st) - S i)%nat with c by lia.
        reflexivity.
      * apply nth_error_None in Hm. lia.
    + apply Nat.ltb_ge in Hi.
      replace (List.length (messages st) - i)%nat with O by lia. reflexivity.
Qed.

Lemma behaves_rounds (F : nat) :
  forall count i, behaves rt F count (rounds rt Date_now F i count).
Proof.
  induction count as [|count IH]; intros i st tr; simpl.
  - exact (behaves_ret rt F tt st tr).
  - destruct (nth_error (messages st) i) as [message|].
    + exact (behaves_bind rt F 1 count _ _
               (behaves_process_message rt Date_now F message _)
               (fun _ => IH (S i)) st tr).
    + exact (behaves_weaken rt F 0 (S count) (ret tt) (Nat.le_0_l _)
               (behaves_ret rt F tt) st tr).
Qed.


(** With enough fuel the whole pass does not run out of fuel; it is
    sound, and it completes when the backend never fails. *)
Lemma processRuntimeMessage_terminates (fuel : nat) (st : AllureReportState)
      (tr : list Call) :
  (enough_fuel st <= fuel)%nat ->
  match processRuntimeMessage rt Date_now fuel st tr with
  | (o, st', tr') =>
      o <> OutOfFuel /\ (never_fails rt -> o = Done tt) /\
      sound rt (List.length (messages st)) st tr (o, st', tr')
  end.
Proof.
  intros Hfuel. unfold enough_fuel in Hfuel.
  assert (behaves rt fuel (List.length (messages st) + 0)
                  (rounds rt Date_now fuel 0 (List.length (messages st)) ;;;
                   drain rt fuel)) as Hb.
  { apply behaves_bind; [apply behaves_rounds|]. intros _. apply behaves_drain. }
  specialize (Hb st tr). rewrite Nat.add_0_r in Hb.
  unfold processRuntimeMessage. unfold bind in *.
  rewrite for_messages_rounds by lia. rewrite Nat.sub_0_r.
  destruct (rounds rt Date_now fuel 0 _ st tr) as [[o1 st1] tr1].
  assert (forall o s t,
             ((weight st + List.length (messages st) <= fuel)%nat -> o <> OutOfFuel) /\
             sound rt (List.length (messages st)) st tr (o, s, t) ->
             o <> OutOfFuel /\ (never_fails rt -> o = Done tt) /\
             sound rt (List.length (messages st)) st tr (o, s, t)) as Hfin.
  { intros o s t [H1 Hs]. specialize (H1 Hfuel).
    split; [exact H1|]. split; [|exact Hs].
    intros Hn. apply outcome_done; [|exact H1].
    intros ->. destruct Hs as (_ & _ & calls & _ & Hi).
    exact (never_fails_not_failed rt tr calls Hn Hi). }
  destruct o1 as [[]| |].
  - destruct (drain rt fuel st1 tr1) as [[o2 st2] tr2]. apply Hfin. exact Hb.
  - apply Hfin. exact Hb.
  - apply Hfin. exact Hb.
Qed.

End Finalisers.

(* ------------------------------------------------------------------ *)
(** ** The replay pass: what is left open (C1) *)

(** C1, as stated, fails: a test and a hook that never end stay on the
    executable stack and on the fixture stack after a completed replay. *)
Lemma replay_leaves_unended_test_and_hook :
  exists st' tr',
    processRuntimeMessage counting_runtime ticking_clock 2 (session unfinished_log) [] =
      (Done tt, st', tr') /\
    _scopesStack st' = [] /\
    _executablesStack st' = ["test:A"] /\
    _fixturesStack st' = ["hook#2"].
Proof. do 2 eexists. split; [vm_compute; reflexivity|]. repeat split. Qed.

(* ------------------------------------------------------------------ *)
(** ** Ends with nothing to end (C8) *)

Lemma set_executablesStack_same (st : AllureReportState) :
  set_executablesStack (_executablesStack st) st = st.
Proof. destruct st; reflexivity. Qed.

Lemma set_fixturesStack_same (st : AllureReportState) :
  set_fixturesStack (_fixturesStack st) st = st.
Proof. destruct st; reflexivity. Qed.

(** C8. A test end met with an empty executable stack, and a hook end met
    with an empty fixture stack, complete without any backend call and
    leave the session as it was; popping the empty stack gives
    [undefined] and the empty stack. *)
Theorem end_without_start_is_noop :
  forall (rt : ReporterRuntime) (Date_now : list Call -> Z) (fuel : nat)
         (st : AllureReportState) (tr : list Call) (lastMessage : bool),
    (forall data,
        _executablesStack st = [] ->
        process_message rt Date_now fuel (allure_test_end data) lastMessage st tr =
          (Done tt, st, tr)) /\
    (forall data,
        _fixturesStack st = [] ->
        process_message rt Date_now fuel (allure_hook_end data) lastMessage st tr =
          (Done tt, st, tr)) /\
    pop (@nil string) = (None, []).
Proof.
  intros rt Date_now fuel st tr lastMessage. repeat split.
  - intros data Hempty. simpl. unfold _endTest, bind, pop_executable, pop.
    rewrite Hempty. simpl. unfold ret.
    rewrite <- Hempty, set_executablesStack_same. reflexivity.
  - intros data Hempty. simpl. unfold _endHook, bind, pop_fixture, pop.
    rewrite Hempty. simpl. unfold ret.
    rewrite <- Hempty, set_fixturesStack_same. reflexivity.
Qed.

Lemma end_without_start_is_noop_witness :
  process_message counting_runtime ticking_clock 0 (passed_at 4) true
                  (session [passed_at 4]) [] = (Done tt, session [passed_at 4], []) /\
  process_message counting_runtime ticking_clock 0
                  (allure_hook_end (mkHookEnd passed None None (Some 5))) false
                  (session []) [] = (Done tt, session [], []).
Proof.
  split.
  - apply (proj1 (end_without_start_is_noop counting_runtime ticking_clock 0
                    (session [passed_at 4]) [] true)).
    reflexivity.
  - apply (proj1 (proj2 (end_without_start_is_noop counting_runtime ticking_clock 0
                           (session []) [] false))).
    reflexivity.
Defined.

(* ------------------------------------------------------------------ *)
(** ** A test start while a test is open (C2) *)

(** C2. When a test start is processed while test [a] is current, [a] is
    finalised first: the calls made are the closing of the top scope, the
    write of [a] (no update of [a] in between, so it is written with the
    status it carried), the opening of a scope and the start of the new
    test.  Afterwards the new test is the current one, it is on top of the
    executable stack, and the open-step counter is 0.  The calls are made
    in full whenever the backend fails none of them. *)
Theorem second_test_start_finalises_first :
  forall (rt : ReporterRuntime) (Date_now : list Call -> Z) (fuel : nat)
         (st : AllureReportState) (tr : list Call)
         (data : WDIOTestStartData) (lastMessage : bool) (a : string),
    _currentTestUuid st = Some a ->
    (a =? "")%string = false ->
    let finalise := closing_calls st ++ [writeTest a] in
    let scopes := push (removelast (_scopesStack st))
                       (new_uuid rt (tr ++ finalise) startScope) in
    let start := startTest (ts_name data) (ts_start data) scopes in
    let b := new_uuid rt (tr ++ finalise ++ [startScope]) start in
    (forall st' tr',
        process_message rt Date_now fuel (allure_test_start data) lastMessage st tr =
          (Done tt, st', tr') ->
        tr' = tr ++ finalise ++ [startScope; start] /\
        _currentTestUuid st' = Some b /\
        _executablesStack st' = push (_executablesStack st) b /\
        last (_executablesStack st') = Some b /\
        _openSteps st' = 0 /\
        _scopesStack st' = scopes) /\
    (never_fails rt ->
     exists st' tr',
       process_message rt Date_now fuel (allure_test_start data) lastMessage st tr =
         (Done tt, st', tr')).
Proof.
  intros rt Date_now fuel st tr data lastMessage a Hcur Hne finalise scopes start b.
  assert (forall o st' tr',
             process_message rt Date_now fuel (allure_test_start data) lastMessage st tr =
               (o, st', tr') ->
             o <> OutOfFuel /\
             (o = Done tt ->
              tr' = tr ++ finalise ++ [startScope; start] /\
              st' = set_openSteps 0
                      (set_currentTestUuid (Some b)
                         (set_executablesStack (push (_executablesStack st) b)
                            (set_scopesStack scopes
                               (set_currentTestUuid None st)))))) as Hrun.
  { intros o st' tr'. simpl. unfold _startTest, get. unfold bind at 1.
    unfold truthy. rewrite Hcur, Hne. simpl when. unfold bind at 1.
    pose proof (writeLastTest_open rt st) as Hopen.
    destruct (_writeLastTest rt st tr) as [[o1 st1] tr1] eqn:Hw.
    destruct o1 as [[]| |].
    - destruct (Hopen st1 tr tr1 a Hcur Hne Hw) as [-> ->]. clear Hw Hopen.
      unfold _openScope, bind, call_uuid, modify, get. simpl.
      repeat match goal with
             | |- context [fails rt ?h ?c] => destruct (fails rt h c)
             end;
        intros H; inversion H; subst; (split; [discriminate|]); intros; try discriminate.
      subst b start scopes finalise. rewrite <- !app_assoc. simpl.
      split; reflexivity.
    - intros H; inversion H; subst. split; [discriminate|discriminate].
    - exfalso. pose proof (behaves_writeLastTest rt (weight st) st tr) as Hb.
      rewrite Hw in Hb. destruct Hb as [Hno _]. apply Hno; [lia|reflexivity]. }
  split.
  - intros st' tr' H. destruct (Hrun _ _ _ H) as [_ Hdone].
    destruct (Hdone eq_refl) as [-> ->]. simpl. repeat split.
    unfold last, push. destruct (_executablesStack st) as [|x l] eqn:Hl; simpl.
    + reflexivity.
    + rewrite length_app. simpl. rewrite Nat.add_1_r. simpl.
      change (x :: l ++ [b]) with ((x :: l) ++ [b]).
      rewrite nth_error_app2 by (simpl; lia). simpl. rewrite Nat.sub_diag. reflexivity.
  - intros Hn.
    pose proof (behaves_process_message rt Date_now fuel (allure_test_start data)
                  lastMessage st tr) as Hb.
    destruct (process_message rt Date_now fuel (allure_test_start data) lastMessage st tr)
      as [[o st'] tr'] eqn:H.
    destruct (Hrun _ _ _ eq_refl) as [Hno _].
    destruct Hb as (_ & _ & _ & calls & _ & Hi).
    exists st', tr'. f_equal. f_equal. apply outcome_done; [|exact Hno].
    intros ->. exact (never_fails_not_failed rt tr calls Hn Hi).
Qed.

Lemma second_test_start_finalises_first_witness :
  exists st' tr',
    process_message counting_runtime ticking_clock 0
                    (allure_test_start (mkTestStart "B" 5)) false
                    (test_A_open [] 0) test_A_calls = (Done tt, st', tr') /\
    tr' = test_A_calls ++ [writeScope "scope#0"; writeTest "test:A";
                           startScope; startTest "B" 5 ["scope#4"]] /\
    _currentTestUuid st' = Some "test:B" /\
    _openSteps st' = 0.
Proof.
  destruct (second_test_start_finalises_first
              counting_runtime ticking_clock 0 (test_A_open [] 0) test_A_calls
              (mkTestStart "B" 5) false "test:A" eq_refl eq_refl)
    as [Hshape Hcompletes].
  destruct Hcompletes as (st' & tr' & Hrun); [intros history c; reflexivity|].
  exists st', tr'. split; [exact Hrun|].
  destruct (Hshape st' tr' Hrun) as (H1 & H2 & _ & _ & H5 & _).
  split; [exact H1|]. split; [exact H2|exact H5].
Defined.

(* ------------------------------------------------------------------ *)
(** ** A test end with steps still open (C3) *)

Lemma set_openSteps_same (st : AllureReportState) :
  set_openSteps (_openSteps st) st = st.
Proof. destruct st; reflexivity. Qed.

(** The force-close loop, when it completes from [n] open steps, has made
    exactly [n] forced step stops and has brought the counter to 0. *)
Lemma closing_steps_done (rt : ReporterRuntime) (Date_now : list Call -> Z)
      (uuid : string) (status : AllureStatus) (stop : option Z) :
  forall (n fuel : nat) (st st' : AllureReportState) (tr tr' : list Call),
    _openSteps st = Z.of_nat n ->
    while fuel (fun s => _openSteps s >? 0)
          (close_one_step rt Date_now uuid status stop) st tr = (Done tt, st', tr') ->
    st' = set_openSteps 0 st /\
    exists forced,
      tr' = tr ++ forced /\ List.length forced = n /\
      Forall (forced_stop uuid status stop) forced.
Proof.
  induction n as [|n IH]; intros fuel st st' tr tr' Hn.
  - assert ((_openSteps st >? 0) = false) as Hc by (rewrite Hn; reflexivity).
    assert (st = set_openSteps 0 st) as Hsame.
    { simpl in Hn. rewrite <- Hn. symmetry. apply set_openSteps_same. }
    destruct fuel; simpl; rewrite Hc; intros H; inversion H; subst st' tr'.
    + split; [exact Hsame|].
      exists []. rewrite app_nil_r. repeat split. constructor.
    + split; [exact Hsame|].
      exists []. rewrite app_nil_r. repeat split. constructor.
  - assert ((_openSteps st >? 0) = true) as Hc by (apply Z.gtb_lt; lia).
    destruct fuel as [|fuel]; simpl; rewrite Hc; [discriminate|].
    unfold bind.
    destruct (close_one_step_run rt Date_now uuid status stop st tr)
      as (t & Hstop & _ & Hrun).
    simpl in Hrun. rewrite Hrun.
    intros H. apply IH in H; [|simpl; lia].
    destruct H as [-> (forced & -> & Hlen & Hall)].
    split; [reflexivity|].
    exists (applyRuntimeMessages uuid [step_stop status t None] :: forced).
    rewrite <- app_assoc. repeat split.
    + simpl. rewrite Hlen. reflexivity.
    + constructor; [|exact Hall]. exists t. split; [reflexivity|exact Hstop].
Qed.

(** C3, as stated, fails: [_closeOpenedSteps] returns at its guard when
    no test is current.  A test that a suite start has finalised ends with
    its step still open: no step stop is applied and the counter stays
    at 1. *)
Lemma test_end_after_finalise_leaves_step_open :
  exists st',
    processRuntimeMessage counting_runtime ticking_clock 4
                          (session finalised_early_log) [] =
      (Done tt, st',
       [startScope; startTest "A" 1 ["scope#0"];
        applyRuntimeMessages "test:A" [step_start "click" 2];
        writeScope "scope#0"; writeTest "test:A"; startScope;
        updateTest "test:A" (set_result passed (Some finished) None);
        stopTest "test:A" (Some 9) None;
        writeScope "scope#5"]) /\
    _openSteps st' = 1.
Proof. eexists. split; [vm_compute; reflexivity|reflexivity]. Qed.

(** C3, amended. When a test end is processed while the executable
    stack holds a test on top, [t], and a test [u] is still current with
    [n > 0] steps open, the [n] open steps are force-closed before [t] is
    updated and stopped: exactly [n] step stops are applied to [u], each
    with the status of the test end and with its stop time when the
    message carries one, and the counter is 0 afterwards.  Outside these
    conditions no step is force-closed: when a test is on top of the
    executable stack but none is current, that test is updated and
    stopped and the counter keeps its value; when the executable stack is
    empty the test end does nothing at all. *)
Theorem test_end_closes_open_steps :
  forall (rt : ReporterRuntime) (Date_now : list Call -> Z) (fuel : nat)
         (st : AllureReportState) (tr : list Call)
         (data : WDIOTestEndData) (lastMessage : bool),
    (forall (t u : string) (n : nat),
        last (_executablesStack st) = Some t -> (t =? "")%string = false ->
        _currentTestUuid st = Some u -> (u =? "")%string = false ->
        _openSteps st = Z.of_nat n -> (0 < n)%nat -> (n <= fuel)%nat ->
        (forall st' tr',
            process_message rt Date_now fuel (allure_test_end data) lastMessage st tr =
              (Done tt, st', tr') ->
            exists forced,
              tr' = tr ++ forced ++
                       [updateTest t (set_result (te_status data) (te_stage data)
                                                 (te_statusDetails data));
                        stopTest t (te_stop data) (te_duration data)] ++
                       (if lastMessage then closing_calls st ++ [writeTest u] else []) /\
              List.length forced = n /\
              Forall (forced_stop u (te_status data) (te_stop data)) forced /\
              count_calls is_apply (skipn (List.length tr) tr') = n /\
              _openSteps st' = 0) /\
        (never_fails rt ->
         exists st' tr',
           process_message rt Date_now fuel (allure_test_end data) lastMessage st tr =
             (Done tt, st', tr'))) /\
    (forall (t : string),
        last (_executablesStack st) = Some t -> (t =? "")%string = false ->
        truthy (_currentTestUuid st) = false ->
        forall st' tr',
          process_message rt Date_now fuel (allure_test_end data) lastMessage st tr =
            (Done tt, st', tr') ->
          tr' = tr ++ [updateTest t (set_result (te_status data) (te_stage data)
                                                (te_statusDetails data));
                       stopTest t (te_stop data) (te_duration data)] /\
          _openSteps st' = _openSteps st) /\
    (_executablesStack st = [] ->
     process_message rt Date_now fuel (allure_test_end data) lastMessage st tr =
       (Done tt, st, tr)).
Proof.
  intros rt Date_now fuel st tr data lastMessage. split; [|split].
  { intros t u n Htop Ht Hcur Hu Hn Hpos Hfuel.
  set (st0 := set_executablesStack (removelast (_executablesStack st)) st).
  assert (forall o st' tr',
             process_message rt Date_now fuel (allure_test_end data) lastMessage st tr =
               (o, st', tr') ->
             o <> OutOfFuel /\
             (o = Done tt ->
              exists forced,
                tr' = tr ++ forced ++
                         [updateTest t (set_result (te_status data) (te_stage data)
                                                   (te_statusDetails data));
                          stopTest t (te_stop data) (te_duration data)] ++
                         (if lastMessage then closing_calls st ++ [writeTest u] else []) /\
                List.length forced = n /\
                Forall (forced_stop u (te_status data) (te_stop data)) forced /\
                _openSteps st' = 0)) as Hrun.
  { intros o st' tr'. simpl. unfold _endTest, pop_executable, pop. unfold bind at 1.
    rewrite Htop, Ht. fold st0. unfold bind at 1.
    unfold _closeOpenedSteps, get. unfold bind at 1.
    change (_currentTestUuid st0) with (_currentTestUuid st). rewrite Hcur, Hu.
    pose proof (closing_steps_sound rt Date_now fuel u (te_status data) (te_stop data)
                  fuel st0 tr) as Hsound.
    pose proof (closing_steps_done rt Date_now u (te_status data) (te_stop data)
                  n fuel st0) as Hdone.
    destruct (while fuel _ _ st0 tr) as [[o1 st1] tr1] eqn:Hloop.
    destruct Hsound as (Hno & _ & _).
    destruct o1 as [[]| |].
    - destruct (Hdone st1 tr tr1 Hn Hloop) as [-> (forced & -> & Hlen & Hall)].
      clear Hloop Hdone.
      unfold bind, call.
      destruct (fails rt _ _); [intros H; inversion H; split; discriminate|].
      destruct (fails rt _ _); [intros H; inversion H; split; discriminate|].
      destruct lastMessage; simpl when.
      + match goal with
        | |- _writeLastTest rt ?s ?h = _ -> _ =>
            pose proof (writeLastTest_open rt s) as Hopen;
            pose proof (behaves_writeLastTest rt (weight s) s h) as Hb;
            destruct (_writeLastTest rt s h) as [[o2 st2] tr2] eqn:Hw
        end.
        destruct Hb as [Hno2 _]. specialize (Hno2 (Nat.eq_le_incl _ _ (Nat.add_0_r _))).
        intros H. inversion H; subst o st' tr'. split; [exact Hno2|].
        intros ->. destruct (Hopen st2 _ tr2 u Hcur Hu Hw) as [-> ->].
        exists forced. repeat split; trivial.
        rewrite <- !app_assoc. reflexivity.
      + unfold ret. intros H. inversion H; subst. split; [discriminate|]. intros _.
        exists forced. repeat split; trivial.
        rewrite <- !app_assoc. reflexivity.
    - intros H. inversion H. split; discriminate.
    - exfalso. apply Hno; [|reflexivity]. simpl. rewrite Hn. lia. }
  split.
  - intros st' tr' H. destruct (Hrun _ _ _ H) as [_ Hdone].
    destruct (Hdone eq_refl) as (forced & -> & Hlen & Hall & Hzero).
    exists forced. repeat split; trivial.
    assert (filter is_apply forced = forced) as Hfilter.
    { clear - Hall. induction Hall as [|c l (t0 & -> & _) _ IH]; [reflexivity|].
      simpl. rewrite IH. reflexivity. }
    rewrite skipn_app, skipn_all, Nat.sub_diag. simpl.
    unfold count_calls. rewrite filter_app, length_app, Hfilter, Hlen.
    destruct lastMessage; simpl.
    + unfold closing_calls.
      destruct (last (_scopesStack st)) as [s|]; [destruct (s =? "")%string|]; simpl; lia.
    + lia.
  - intros Hn'.
    pose proof (behaves_process_message rt Date_now fuel (allure_test_end data)
                  lastMessage st tr) as Hb.
    destruct (process_message rt Date_now fuel (allure_test_end data) lastMessage st tr)
      as [[o st'] tr'] eqn:H.
    destruct (Hrun _ _ _ eq_refl) as [Hno _].
    destruct Hb as (_ & _ & _ & calls & _ & Hi).
    exists st', tr'. f_equal. f_equal. apply outcome_done; [|exact Hno].
    intros ->. exact (never_fails_not_failed rt tr calls Hn' Hi).
  }
  { intros t Htop Ht Hcur st' tr'.
    assert (_currentTestUuid st = None \/ _currentTestUuid st = Some "") as Hcases.
    { unfold truthy in Hcur. destruct (_currentTestUuid st) as [uuid|]; [|left; reflexivity].
      right. destruct uuid; [reflexivity|discriminate]. }
    simpl. unfold _endTest, pop_executable, pop. unfold bind at 1. rewrite Htop, Ht.
    unfold bind at 1. unfold _closeOpenedSteps, get. unfold bind at 1.
    cbn [_currentTestUuid set_executablesStack].
    destruct Hcases as [Hc|Hc]; rewrite Hc; simpl; unfold ret, bind, call;
      (destruct (fails rt _ _); [discriminate|]);
      (destruct (fails rt _ _); [discriminate|]);
      destruct lastMessage; simpl; unfold _writeLastTest, get, bind, ret; simpl;
      rewrite ?Hc; simpl; intros H; inversion H; subst;
      rewrite <- app_assoc; split; reflexivity. }
  { intros Hempty. simpl. unfold _endTest, bind, pop_executable, pop.
    rewrite Hempty. simpl. unfold ret.
    rewrite <- Hempty, set_executablesStack_same. reflexivity. }
Qed.

Lemma test_end_closes_open_steps_witness :
  exists st' tr',
    process_message counting_runtime ticking_clock 2 (passed_at 9) false
                    (test_A_open [] 2) test_A_calls = (Done tt, st', tr') /\
    count_calls is_apply (skipn 2 tr') = 2%nat /\
    _openSteps st' = 0.
Proof.
  destruct (proj1 (test_end_closes_open_steps
                     counting_runtime ticking_clock 2 (test_A_open [] 2) test_A_calls
                     (passed_data 9) false)
                  "test:A" "test:A" 2%nat
                  eq_refl eq_refl eq_refl eq_refl eq_refl)
    as [Hshape Hcompletes]; [lia|lia|].
  destruct Hcompletes as (st' & tr' & Hrun); [intros history c; reflexivity|].
  exists st', tr'. split; [exact Hrun|].
  destruct (Hshape st' tr' Hrun) as (forced & _ & _ & _ & Hcount & Hzero).
  split; [exact Hcount|exact Hzero].
Defined.

(* ------------------------------------------------------------------ *)
(** ** An "after all" hook while a test is open (C7) *)

(** C7. When a hook start whose name matches [/after all/i] is processed
    while test [u] is current, the calls made are, in this order: the
    closing of the top scope, the write of [u], the start of the fixture.
    A failure cuts the sequence short, so the fixture is never started
    before [u] has been written. *)
Theorem after_all_hook_writes_test_first :
  forall (rt : ReporterRuntime) (Date_now : list Call -> Z) (fuel : nat)
         (st : AllureReportState) (tr : list Call)
         (data : WDIOHookStartData) (lastMessage : bool) (u : string),
    after_all (hs_name data) = true ->
    _currentTestUuid st = Some u -> (u =? "")%string = false ->
    let fixture := startFixture (last (removelast (_scopesStack st)))
                                (hs_type data) (hs_name data) (hs_start data) in
    exists o st' tr',
      process_message rt Date_now fuel (allure_hook_start data) lastMessage st tr =
        (o, st', tr') /\
      ((o = Done tt /\ _currentTestUuid st' = None /\
        tr' = tr ++ closing_calls st ++ [writeTest u; fixture]) \/
       (o = Failed /\
        (tr' = tr ++ closing_calls st ++ [writeTest u; fixture] \/
         tr' = tr ++ closing_calls st ++ [writeTest u] \/
         tr' = tr ++ closing_calls st))) /\
      (never_fails rt -> o = Done tt).
Proof.
  intros rt Date_now fuel st tr data lastMessage u Hafter Hcur Hu fixture.
  simpl. unfold _startHook, get. unfold bind at 1.
  rewrite Hafter. unfold truthy. rewrite Hcur, Hu. simpl when. unfold bind at 1.
  unfold _writeLastTest, get. unfold bind at 1. rewrite Hcur, Hu. unfold bind at 1.
  destruct (closeScope_run rt st tr) as (o1 & Hclose & Hno1). rewrite Hclose.
  destruct o1 as [[]| |]; [| |congruence].
  - clear Hclose. unfold bind at 1. unfold call at 1.
    destruct (fails rt (tr ++ closing_calls st) (writeTest u)) eqn:Hf1.
    + do 3 eexists. split; [reflexivity|]. split.
      * right. split; [reflexivity|]. right. left. rewrite <- app_assoc. reflexivity.
      * intros Hn. rewrite Hn in Hf1. discriminate.
    + unfold modify, bind, call_fixture. simpl.
      fold fixture.
      destruct (fails rt ((tr ++ closing_calls st) ++ [writeTest u]) fixture) eqn:Hf2.
      * do 3 eexists. split; [reflexivity|]. split.
        -- right. split; [reflexivity|]. left. rewrite <- !app_assoc. reflexivity.
        -- intros Hn. rewrite Hn in Hf2. discriminate.
      * destruct (new_fixture rt _ fixture) as [h|]; [destruct (h =? "")%string|];
          (do 3 eexists; split; [reflexivity|]; split;
           [left; repeat split; rewrite <- !app_assoc; reflexivity|reflexivity]).
  - do 3 eexists. split; [reflexivity|]. split.
    + right. split; [reflexivity|]. right. right. reflexivity.
    + intros Hn. exfalso.
      pose proof (behaves_closeScope rt 0 st tr) as Hb.
      rewrite Hclose in Hb. destruct Hb as (_ & _ & _ & calls & _ & Hi).
      exact (never_fails_not_failed rt tr calls Hn Hi).
Qed.

Lemma after_all_hook_writes_test_first_witness :
  exists st' tr',
    process_message counting_runtime ticking_clock 0
                    (allure_hook_start (mkHookStart "After All hook" after 7)) false
                    (test_A_open [] 0) test_A_calls = (Done tt, st', tr') /\
    tr' = test_A_calls ++ [writeScope "scope#0"; writeTest "test:A";
                           startFixture None after "After All hook" 7].
Proof.
  destruct (after_all_hook_writes_test_first
              counting_runtime ticking_clock 0 (test_A_open [] 0) test_A_calls
              (mkHookStart "After All hook" after 7) false "test:A"
              eq_refl eq_refl eq_refl)
    as (o & st' & tr' & Hrun & Hshape & Hdone).
  assert (o = Done tt) as -> by (apply Hdone; intros history c; reflexivity).
  exists st', tr'. split; [exact Hrun|].
  destruct Hshape as [(_ & _ & Htr)|(Hfailed & _)]; [exact Htr|discriminate].
Defined.

(* ------------------------------------------------------------------ *)
(** ** The round trip (C4) *)

(** C4, as stated, fails: the round trip persists two scopes, the one the
    suite opened and the one the test opened for itself. *)
Lemma round_trip_writes_two_scopes :
  exists st' tr',
    processRuntimeMessage counting_runtime ticking_clock 6 (session round_trip_log) [] =
      (Done tt, st', tr') /\
    count_calls is_writeScope tr' = 2%nat /\
    count_calls is_writeScope tr' <> 1%nat.
Proof.
  do 2 eexists. split; [vm_compute; reflexivity|]. split; [reflexivity|discriminate].
Qed.

Lemma for_messages_end (rt : ReporterRuntime) (Date_now : list Call -> Z)
      (fuel n i : nat) (st : AllureReportState) (tr : list Call) :
  (List.length (messages st) <= i)%nat ->
  for_messages rt Date_now fuel n i st tr = (Done tt, st, tr).
Proof.
  intros Hi. apply Nat.ltb_ge in Hi. destruct n; simpl; rewrite Hi; reflexivity.
Qed.

(** C4, amended. Replaying suite start, test start, step start, step
    stop, test end, suite end on a backend that completes every call and
    returns non-empty handles persists exactly two scopes (the test's own
    scope, then the suite's), persists exactly one test, applies exactly
    one step start and one step stop to that test, and ends with the
    open-step counter at zero and nothing left on the stacks. *)
Theorem round_trip_two_scopes_one_test :
  forall (rt : ReporterRuntime) (Date_now : list Call -> Z) (fuel : nat)
         (suite : WDIOSuiteStartData) (test : WDIOTestStartData)
         (step_name : string) (step_started : Z)
         (step_status : AllureStatus) (step_stopped : Z) (step_details : option StatusDetails)
         (ended : WDIOTestEndData),
    never_fails rt ->
    (forall history c, (new_uuid rt history c =? "")%string = false) ->
    (6 <= fuel)%nat ->
    let log := [allure_suite_start suite; allure_test_start test;
                runtime (step_start step_name step_started);
                runtime (step_stop step_status step_stopped step_details);
                allure_test_end ended; allure_suite_end] in
    let s1 := new_uuid rt [] startScope in
    let s2 := new_uuid rt [startScope] startScope in
    let start := startTest (ts_name test) (ts_start test) [s1; s2] in
    let t := new_uuid rt [startScope; startScope] start in
    let calls :=
        [startScope; startScope; start;
         applyRuntimeMessages t [step_start step_name step_started];
         applyRuntimeMessages t [step_stop step_status step_stopped step_details];
         updateTest t (set_result (te_status ended) (te_stage ended)
                                  (te_statusDetails ended));
         stopTest t (te_stop ended) (te_duration ended);
         writeScope s2; writeScope s1; writeTest t] in
    processRuntimeMessage rt Date_now fuel (session log) [] =
      (Done tt, session log, calls) /\
    count_calls is_writeScope calls = 2%nat /\
    count_calls is_writeTest calls = 1%nat /\
    count_calls is_apply calls = 2%nat.
Proof.
  intros rt Date_now fuel suite test step_name step_started step_status step_stopped
         step_details ended Hn Hne Hfuel log s1 s2 start t calls.
  split; [|repeat split].
  do 6 (destruct fuel as [|fuel]; [lia|]). clear Hfuel.
  unfold processRuntimeMessage, session, log.
  repeat (progress (unfold bind, _startSuite, _startTest, _endTest, _endSuite, forward,
                    _writeLastTest, _closeOpenedSteps, _openScope, _closeScope,
                    pop_scope, pop_executable, pop, call, call_uuid, modify, get,
                    ret, when, drain;
                    simpl; rewrite ?Hn, ?Hne)).
  rewrite for_messages_end by (simpl; lia).
  simpl.
  reflexivity.
Qed.

Lemma round_trip_two_scopes_one_test_witness :
  processRuntimeMessage counting_runtime ticking_clock 6 (session round_trip_log) [] =
    (Done tt, session round_trip_log,
     [startScope; startScope; startTest "A" 1 ["scope#0"; "scope#1"];
      applyRuntimeMessages "test:A" [step_start "click" 2];
      applyRuntimeMessages "test:A" [step_stop passed 3 None];
      updateTest "test:A" (set_result passed (Some finished) None);
      stopTest "test:A" (Some 4) None;
      writeScope "scope#1"; writeScope "scope#0"; writeTest "test:A"]).
Proof.
  apply (round_trip_two_scopes_one_test
           counting_runtime ticking_clock 6
           (mkSuiteStart "S" None) (mkTestStart "A" 1) "click" 2 passed 3 None
           (passed_data 4)).
  - intros history c. reflexivity.
  - intros history c. destruct c; reflexivity.
  - lia.
Defined.

(* ------------------------------------------------------------------ *)
(** ** A backend failure (C9) *)




(* ------------------------------------------------------------------ *)
(** ** Termination (C10) *)

(** C10. With fuel for [enough_fuel st] rounds the replay of a finite log
    does not run out of fuel: the loop over the log is the sequence of
    its rounds 0, 1, ..., one per message; each completed round of the
    force-close loop lowers the open-step counter by one and keeps it
    non-negative; each round of the end-of-log loop shortens the scope
    stack by one. *)
Theorem replay_terminates :
  forall (rt : ReporterRuntime) (Date_now : list Call -> Z) (fuel : nat)
         (st : AllureReportState) (tr : list Call),
    (enough_fuel st <= fuel)%nat ->
    fst (fst (processRuntimeMessage rt Date_now fuel st tr)) <> OutOfFuel /\
    for_messages rt Date_now fuel fuel 0 st tr =
      rounds rt Date_now fuel 0 (List.length (messages st)) st tr /\
    (forall uuid status stop s t s' t',
        (_openSteps s >? 0) = true ->
        close_one_step rt Date_now uuid status stop s t = (Done tt, s', t') ->
        _openSteps s' = _openSteps s - 1 /\ 0 <= _openSteps s') /\
    (forall s t o s' t',
        (0 <? List.length (_scopesStack s))%nat = true ->
        _closeScope rt s t = (o, s', t') ->
        S (List.length (_scopesStack s')) = List.length (_scopesStack s)).
Proof.
  intros rt Date_now fuel st tr Hfuel. split; [|split; [|split]].
  - pose proof (processRuntimeMessage_terminates rt Date_now fuel st tr Hfuel) as H.
    destruct (processRuntimeMessage rt Date_now fuel st tr) as [[o st'] tr'].
    simpl. apply H.
  - unfold enough_fuel in Hfuel.
    rewrite for_messages_rounds by lia. rewrite Nat.sub_0_r. reflexivity.
  - intros uuid status stop s t s' t' Hc Hrun.
    apply Z.gtb_lt in Hc.
    destruct (close_one_step_run rt Date_now uuid status stop s t) as (t0 & _ & _ & Heq).
    simpl in Heq. rewrite Heq in Hrun.
    inversion Hrun; subst. simpl. lia.
  - intros s t o s' t' Hc Hrun. apply Nat.ltb_lt in Hc.
    destruct (closeScope_run rt s t) as (o' & Heq & _).
    rewrite Heq in Hrun. inversion Hrun; subst. simpl.
    rewrite length_removelast. lia.
Qed.

Lemma replay_terminates_witness :
  fst (fst (processRuntimeMessage counting_runtime ticking_clock 6
                                  (session round_trip_log) [])) <> OutOfFuel.
Proof.
  apply (replay_terminates counting_runtime ticking_clock 6 (session round_trip_log) []).
  vm_compute. lia.
Defined.

(* ------------------------------------------------------------------ *)
(** ** Completed runs of the methods, step by step *)

Section CompletedRuns.

Variable rt : ReporterRuntime.
Variable Date_now : list Call -> Z.

Lemma bind_done {A B : Type} (m : M A) (f : A -> M B)
      (st st' : AllureReportState) (tr tr' : list Call) (b : B) :
  bind m f st tr = (Done b, st', tr') ->
  exists a st1 tr1, m st tr = (Done a, st1, tr1) /\ f a st1 tr1 = (Done b, st', tr').
Proof.
  unfold bind. destruct (m st tr) as [[o st1] tr1].
  destruct o as [a| |]; try discriminate.
  intros H. exists a, st1, tr1. split; [reflexivity|exact H].
Qed.

Lemma call_done (c : Call) (st st' : AllureReportState) (tr tr' : list Call) :
  call rt c st tr = (Done tt, st', tr') ->
  st' = st /\ tr' = tr ++ [c] /\ fails rt tr c = false.
Proof.
  unfold call. destruct (fails rt tr c); intros H; inversion H; subst.
  repeat split.
Qed.

Lemma openScope_done (st st' : AllureReportState) (tr tr' : list Call) :
  _openScope rt st tr = (Done tt, st', tr') ->
  st' = set_scopesStack (push (_scopesStack st) (new_uuid rt tr startScope)) st /\
  tr' = tr ++ [startScope].
Proof.
  unfold _openScope, bind, call_uuid, modify.
  destruct (fails rt tr startScope); intros H; inversion H; subst.
  split; reflexivity.
Qed.

Lemma closeScope_done (st st' : AllureReportState) (tr tr' : list Call) :
  _closeScope rt st tr = (Done tt, st', tr') ->
  st' = set_scopesStack (removelast (_scopesStack st)) st /\
  tr' = tr ++ closing_calls st.
Proof.
  destruct (closeScope_run rt st tr) as (o & -> & _).
  intros H. inversion H; subst. split; reflexivity.
Qed.

(** Finalising the current test, if there is one. *)
Lemma writeLastTest_finalises (st st' : AllureReportState) (tr tr' : list Call) :
  _writeLastTest rt st tr = (Done tt, st', tr') ->
  st' = finalised st /\ tr' = tr ++ finalising_calls st.
Proof.
  unfold finalised, finalising_calls.
  destruct (truthy (_currentTestUuid st)) eqn:Ht.
  - destruct (_currentTestUuid st) as [uuid|] eqn:Hcur; [|discriminate].
    rewrite truthy_some in Ht. apply negb_true_iff in Ht. rewrite Ht.
    apply writeLastTest_open; assumption.
  - rewrite writeLastTest_closed by exact Ht.
    intros H. inversion H; subst.
    destruct (_currentTestUuid st') as [uuid|]; simpl in Ht.
    + apply negb_false_iff in Ht. rewrite Ht, app_nil_r. split; reflexivity.
    + rewrite app_nil_r. split; reflexivity.
Qed.

Lemma finalising_calls_closed (st : AllureReportState) :
  truthy (_currentTestUuid st) = false -> finalising_calls st = [] /\ finalised st = st.
Proof.
  intros Ht. unfold finalising_calls, finalised. rewrite Ht.
  destruct (_currentTestUuid st) as [uuid|]; simpl in Ht; [|split; reflexivity].
  apply negb_false_iff in Ht. rewrite Ht. split; reflexivity.
Qed.

Lemma when_finalises (b : bool) (st st' : AllureReportState) (tr tr' : list Call) :
  when b (_writeLastTest rt) st tr = (Done tt, st', tr') ->
  if b then st' = finalised st /\ tr' = tr ++ finalising_calls st
  else st' = st /\ tr' = tr.
Proof.
  destruct b; simpl.
  - apply writeLastTest_finalises.
  - unfold ret. intros H. inversion H; subst. split; reflexivity.
Qed.

(** [if (this._currentTestUuid) { await this._writeLastTest() }]. *)
Lemma finalise_if_current (st st' : AllureReportState) (tr tr' : list Call) :
  when (truthy (_currentTestUuid st)) (_writeLastTest rt) st tr = (Done tt, st', tr') ->
  st' = finalised st /\ tr' = tr ++ finalising_calls st.
Proof.
  intros H. apply when_finalises in H.
  destruct (truthy (_currentTestUuid st)) eqn:Ht; [exact H|].
  destruct H as [-> ->].
  destruct (finalising_calls_closed st Ht) as [-> ->].
  rewrite app_nil_r. split; reflexivity.
Qed.

Lemma finalised_not_current (st : AllureReportState) :
  truthy (_currentTestUuid (finalised st)) = false.
Proof.
  unfold finalised. destruct (truthy (_currentTestUuid st)) eqn:Ht; [reflexivity|exact Ht].
Qed.

(** A computation that is sound and does not run out of fuel completes
    on a backend that never fails. *)
Lemma completes_when_never_fails (F k : nat) (m : M unit)
      (st : AllureReportState) (tr : list Call) :
  behaves rt F k m -> (weight st + k <= F)%nat -> never_fails rt ->
  exists st' tr', m st tr = (Done tt, st', tr').
Proof.
  intros Hb Hw Hn. specialize (Hb st tr).
  destruct (m st tr) as [[o st'] tr'].
  destruct Hb as (Hno & _ & _ & calls & _ & Hi).
  exists st', tr'. f_equal. f_equal. apply outcome_done; [|apply Hno; exact Hw].
  intros ->. exact (never_fails_not_failed rt tr calls Hn Hi).
Qed.

End CompletedRuns.

(* ------------------------------------------------------------------ *)
(** ** Suite boundaries *)

(** X1. A suite start first finalises the current test, if there is one
    (its scope is closed and the test is written), and then opens a new
    scope on top of the stack: afterwards no test is current.  The round
    completes whenever the backend fails none of its calls. *)
Theorem suite_start_finalises_then_opens :
  forall (rt : ReporterRuntime) (Date_now : list Call -> Z) (fuel : nat)
         (st : AllureReportState) (tr : list Call)
         (data : WDIOSuiteStartData) (lastMessage : bool),
    (forall st' tr',
        process_message rt Date_now fuel (allure_suite_start data) lastMessage st tr =
          (Done tt, st', tr') ->
        tr' = tr ++ finalising_calls st ++ [startScope] /\
        _scopesStack st' =
          push (_scopesStack (finalised st))
               (new_uuid rt (tr ++ finalising_calls st) startScope) /\
        truthy (_currentTestUuid st') = false /\
        _executablesStack st' = _executablesStack st /\
        _fixturesStack st' = _fixturesStack st /\
        _openSteps st' = _openSteps st) /\
    (never_fails rt ->
     exists st' tr',
       process_message rt Date_now fuel (allure_suite_start data) lastMessage st tr =
         (Done tt, st', tr')).
Proof.
  intros rt Date_now fuel st tr data lastMessage. split.
  - intros st' tr'. simpl. unfold _startSuite, get. unfold bind at 1.
    intros H. apply bind_done in H. destruct H as ([] & st1 & tr1 & Hfin & Hopen).
    apply finalise_if_current in Hfin. destruct Hfin as [-> ->].
    apply openScope_done in Hopen. destruct Hopen as [-> ->].
    rewrite <- app_assoc. simpl.
    pose proof (finalised_not_current st) as Hnot.
    repeat split; trivial; unfold finalised;
      destruct (truthy (_currentTestUuid st)); reflexivity.
  - intros Hn.
    apply (completes_when_never_fails rt (weight st + 1) 1 (_startSuite rt));
      [apply behaves_startSuite|lia|exact Hn].
Qed.

Lemma suite_start_finalises_then_opens_witness :
  exists st' tr',
    process_message counting_runtime ticking_clock 0
                    (allure_suite_start (mkSuiteStart "S" None)) false
                    (test_A_open [] 0) test_A_calls = (Done tt, st', tr') /\
    tr' = test_A_calls ++ [writeScope "scope#0"; writeTest "test:A"; startScope] /\
    _scopesStack st' = ["scope#4"].
Proof.
  destruct (suite_start_finalises_then_opens
              counting_runtime ticking_clock 0 (test_A_open [] 0) test_A_calls
              (mkSuiteStart "S" None) false) as [Hshape Hcompletes].
  destruct Hcompletes as (st' & tr' & Hrun); [intros history c; reflexivity|].
  exists st', tr'. split; [exact Hrun|].
  destruct (Hshape st' tr' Hrun) as (H1 & H2 & _).
  split; [exact H1|exact H2].
Defined.

(** X2. A suite end closes the scope on top of the stack.  When it is not
    the last message it does nothing else: no test is written and the
    current test stays current.  When it is the last message it goes on
    to finalise the current test, which closes one more scope. *)
Theorem suite_end_closes_top_scope :
  forall (rt : ReporterRuntime) (Date_now : list Call -> Z) (fuel : nat)
         (st : AllureReportState) (tr : list Call) (lastMessage : bool),
    let closed := set_scopesStack (removelast (_scopesStack st)) st in
    (forall st' tr',
        process_message rt Date_now fuel allure_suite_end lastMessage st tr =
          (Done tt, st', tr') ->
        if lastMessage
        then st' = finalised closed /\
             tr' = tr ++ closing_calls st ++ finalising_calls closed
        else st' = closed /\ tr' = tr ++ closing_calls st) /\
    (never_fails rt ->
     exists st' tr',
       process_message rt Date_now fuel allure_suite_end lastMessage st tr =
         (Done tt, st', tr')).
Proof.
  intros rt Date_now fuel st tr lastMessage closed. split.
  - intros st' tr'. simpl. unfold _endSuite.
    intros H. apply bind_done in H. destruct H as ([] & st1 & tr1 & Hclose & Hfin).
    apply closeScope_done in Hclose. destruct Hclose as [-> ->]. fold closed in Hfin |- *.
    apply when_finalises in Hfin. destruct lastMessage.
    + destruct Hfin as [-> ->]. rewrite <- app_assoc. split; reflexivity.
    + exact Hfin.
  - intros Hn. simpl.
    apply (completes_when_never_fails rt (weight st) 0 (_endSuite rt lastMessage));
      [apply behaves_endSuite|lia|exact Hn].
Qed.

Lemma suite_end_closes_top_scope_witness :
  exists st' tr',
    process_message counting_runtime ticking_clock 0 allure_suite_end false
                    (test_A_open [] 0) test_A_calls = (Done tt, st', tr') /\
    _currentTestUuid st' = Some "test:A" /\
    tr' = test_A_calls ++ [writeScope "scope#0"].
Proof.
  destruct (suite_end_closes_top_scope
              counting_runtime ticking_clock 0 (test_A_open [] 0) test_A_calls false)
    as [Hshape Hcompletes].
  destruct Hcompletes as (st' & tr' & Hrun); [intros history c; reflexivity|].
  exists st', tr'. split; [exact Hrun|].
  destruct (Hshape st' tr' Hrun) as [-> ->]. split; reflexivity.
Defined.

(* ------------------------------------------------------------------ *)
(** ** Test info and forwarded messages *)

(** X3. A test info message never changes the session, however the round
    ends: it only asks the backend to rename the test on top of the
    executable stack, and asks nothing when that stack is empty. *)
Theorem test_info_renames_top_test :
  forall (rt : ReporterRuntime) (Date_now : list Call -> Z) (fuel : nat)
         (st : AllureReportState) (tr : list Call)
         (fullName : string) (lastMessage : bool),
    exists o,
      process_message rt Date_now fuel (allure_test_info fullName) lastMessage st tr =
        (o, st, tr ++ renaming_calls st fullName) /\
      o <> OutOfFuel /\
      (never_fails rt -> o = Done tt) /\
      (_executablesStack st = [] -> o = Done tt /\ renaming_calls st fullName = []).
Proof.
  intros rt Date_now fuel st tr fullName lastMessage.
  simpl. unfold _addTestInfo, get, renaming_calls. unfold bind at 1.
  destruct (last (_executablesStack st)) as [t|] eqn:Hlast.
  - assert (_executablesStack st <> []) as Hne
        by (intros He; rewrite He in Hlast; discriminate).
    destruct (t =? "")%string.
    + exists (Done tt). unfold ret. rewrite app_nil_r.
      split; [reflexivity|]. split; [discriminate|]. split; [reflexivity|].
      intros He. contradiction.
    + unfold call. destruct (fails rt tr _) eqn:Hf.
      * exists Failed.
        split; [reflexivity|]. split; [discriminate|]. split.
        -- intros Hn. rewrite Hn in Hf. discriminate.
        -- intros He. contradiction.
      * exists (Done tt).
        split; [reflexivity|]. split; [discriminate|]. split; [reflexivity|].
        intros He. contradiction.
  - exists (Done tt). unfold ret. rewrite app_nil_r.
    split; [reflexivity|]. split; [discriminate|]. split; [reflexivity|].
    intros _. split; reflexivity.
Qed.

(** X4. While no test is current, a step start, a step stop, a metadata or
    an attachment message is dropped: no call is made, the open-step
    counter and the rest of the session stay as they are. *)
Theorem runtime_message_without_test_is_dropped :
  forall (rt : ReporterRuntime) (Date_now : list Call -> Z) (fuel : nat)
         (st : AllureReportState) (tr : list Call)
         (m : RuntimeMessage) (lastMessage : bool),
    truthy (_currentTestUuid st) = false ->
    process_message rt Date_now fuel (runtime m) lastMessage st tr = (Done tt, st, tr).
Proof.
  intros rt Date_now fuel st tr m lastMessage Ht.
  simpl. unfold forward, get. unfold bind at 1.
  destruct (_currentTestUuid st) as [uuid|]; [|reflexivity].
  simpl in Ht. apply negb_false_iff in Ht. rewrite Ht. reflexivity.
Qed.

Lemma runtime_message_without_test_is_dropped_witness :
  process_message counting_runtime ticking_clock 0 (runtime (step_start "click" 2)) false
                  (session []) [] = (Done tt, session [], []).
Proof.
  apply (runtime_message_without_test_is_dropped
           counting_runtime ticking_clock 0 (session []) []
           (step_start "click" 2) false).
  reflexivity.
Defined.

(** X5. While test [u] is current, a message of allure-js-commons is
    forwarded as it is to [u] in one call, and only the open-step counter
    changes: a step start raises it by one, a step stop lowers it by one
    but not below zero, any other message leaves it alone. *)
Theorem runtime_message_is_forwarded :
  forall (rt : ReporterRuntime) (Date_now : list Call -> Z) (fuel : nat)
         (st : AllureReportState) (tr : list Call)
         (m : RuntimeMessage) (lastMessage : bool) (u : string),
    _currentTestUuid st = Some u -> (u =? "")%string = false ->
    exists o,
      process_message rt Date_now fuel (runtime m) lastMessage st tr =
        (o, set_openSteps (counted m (_openSteps st)) st,
         tr ++ [applyRuntimeMessages u [m]]) /\
      o <> OutOfFuel /\
      (never_fails rt -> o = Done tt) /\
      (0 <= _openSteps st -> 0 <= counted m (_openSteps st)).
Proof.
  intros rt Date_now fuel st tr m lastMessage u Hcur Hu.
  simpl. unfold forward, get. unfold bind at 1. rewrite Hcur, Hu.
  assert (forall c, exists o,
             call rt c (set_openSteps (counted m (_openSteps st)) st) tr =
               (o, set_openSteps (counted m (_openSteps st)) st, tr ++ [c]) /\
             o <> OutOfFuel /\ (never_fails rt -> o = Done tt)) as Hcall.
  { intros c. unfold call. destruct (fails rt tr c) eqn:Hf.
    - exists Failed. repeat split; try discriminate.
      intros Hn. rewrite Hn in Hf. discriminate.
    - exists (Done tt). repeat split; discriminate. }
  destruct (Hcall (applyRuntimeMessages u [m])) as (o & Hrun & Hno & Hdone).
  exists o. split; [|split; [exact Hno|split; [exact Hdone|]]].
  - rewrite <- Hrun.
    destruct m; simpl; unfold bind, modify, ret; simpl;
      try rewrite set_openSteps_same; reflexivity.
  - intros Hpos. destruct m; simpl; lia.
Qed.

Lemma runtime_message_is_forwarded_witness :
  process_message counting_runtime ticking_clock 0 (runtime (step_stop passed 3 None)) false
                  (test_A_open [] 0) test_A_calls =
    (Done tt, test_A_open [] 0,
     test_A_calls ++ [applyRuntimeMessages "test:A" [step_stop passed 3 None]]).
Proof.
  destruct (runtime_message_is_forwarded
              counting_runtime ticking_clock 0 (test_A_open [] 0) test_A_calls
              (step_stop passed 3 None) false "test:A" eq_refl eq_refl)
    as (o & Hrun & _ & Hdone & _).
  rewrite Hrun. rewrite (Hdone (fun _ _ => eq_refl)). reflexivity.
Defined.

Lemma test_info_renames_top_test_witness :
  process_message counting_runtime ticking_clock 0 (allure_test_info "suite A") false
                  (session []) [] = (Done tt, session [], []).
Proof.
  destruct (test_info_renames_top_test
              counting_runtime ticking_clock 0 (session []) [] "suite A" false)
    as (o & Hrun & _ & _ & Hempty).
  destruct (Hempty eq_refl) as [Ho Hcalls].
  rewrite Hrun, Ho, Hcalls. reflexivity.
Defined.

(* ------------------------------------------------------------------ *)
(** ** Round trips on the stacks *)

Lemma last_push {A : Type} (l : list A) (x : A) : last (push l x) = Some x.
Proof.
  unfold last, push. destruct l as [|y l]; [reflexivity|].
  change ((y :: l) ++ [x]) with (y :: (l ++ [x])).
  cbv beta iota. change (y :: (l ++ [x])) with ((y :: l) ++ [x]).
  rewrite length_app. simpl List.length. rewrite Nat.add_1_r. simpl Nat.pred.
  rewrite nth_error_app2 by (simpl; lia). rewrite Nat.sub_diag. reflexivity.
Qed.

(** Popping what was just pushed gives it back and restores the stack. *)
Lemma pop_push {A : Type} (l : list A) (x : A) : pop (push l x) = (Some x, l).
Proof.
  unfold pop. rewrite last_push. unfold push. rewrite removelast_last. reflexivity.
Qed.

Lemma while_end (fuel : nat) (cond : AllureReportState -> bool) (body : M unit)
      (st : AllureReportState) (tr : list Call) :
  cond st = false -> while fuel cond body st tr = (Done tt, st, tr).
Proof. intros Hc. destruct fuel; simpl; rewrite Hc; reflexivity. Qed.

Lemma set_fixturesStack_twice (v w : list string) (st : AllureReportState) :
  set_fixturesStack v (set_fixturesStack w st) = set_fixturesStack v st.
Proof. reflexivity. Qed.

(** X6. A hook start that is not an "after all" hook over an open test
    makes a single call, the start of the fixture in the scope on top of
    the scope stack, and pushes the handle it gets; if the backend
    declines (no handle) the session is left as it was.  A hook end that
    follows a pushed handle [h] updates and stops [h] and restores the
    session the hook start found. *)
Theorem hook_start_then_end_round_trip :
  forall (rt : ReporterRuntime) (Date_now : list Call -> Z) (fuel : nat)
         (st st1 st2 : AllureReportState) (tr tr1 tr2 : list Call)
         (started : WDIOHookStartData) (ended : WDIOHookEndData) (l1 l2 : bool),
    (after_all (hs_name started) && truthy (_currentTestUuid st))%bool = false ->
    process_message rt Date_now fuel (allure_hook_start started) l1 st tr =
      (Done tt, st1, tr1) ->
    process_message rt Date_now fuel (allure_hook_end ended) l2 st1 tr1 =
      (Done tt, st2, tr2) ->
    let start := startFixture (last (_scopesStack st)) (hs_type started)
                              (hs_name started) (hs_start started) in
    tr1 = tr ++ [start] /\
    match new_fixture rt tr start with
    | Some h =>
        if (h =? "")%string then st1 = st
        else st1 = set_fixturesStack (push (_fixturesStack st) h) st /\
             st2 = st /\
             tr2 = tr1 ++ [updateFixture h (he_status ended) (he_statusDetails ended);
                           stopFixture h (he_stop ended) (he_duration ended)]
    | None => st1 = st
    end.
Proof.
  intros rt Date_now fuel st st1 st2 tr tr1 tr2 started ended l1 l2 Hplain Hstart Hend start.
  simpl in Hstart. unfold _startHook, get in Hstart. unfold bind at 1 in Hstart.
  rewrite Hplain in Hstart. simpl when in Hstart.
  unfold bind at 1 in Hstart. unfold ret at 1 in Hstart.
  unfold bind at 1 in Hstart. unfold bind, call_fixture in Hstart. fold start in Hstart.
  destruct (fails rt tr start); [discriminate|].
  destruct (new_fixture rt tr start) as [h|].
  - destruct (h =? "")%string eqn:Hh.
    + unfold ret in Hstart. inversion Hstart; subst. split; reflexivity.
    + unfold modify in Hstart. inversion Hstart; subst st1 tr1. clear Hstart.
      split; [reflexivity|]. split; [reflexivity|].
      simpl in Hend. unfold _endHook, pop_fixture in Hend. unfold bind at 1 in Hend.
      simpl _fixturesStack in Hend. rewrite pop_push, Hh in Hend.
      rewrite set_fixturesStack_twice, set_fixturesStack_same in Hend.
      apply bind_done in Hend. destruct Hend as ([] & s3 & t3 & Hc1 & Hc2).
      apply call_done in Hc1. destruct Hc1 as (-> & -> & _).
      apply call_done in Hc2. destruct Hc2 as (-> & -> & _).
      rewrite <- app_assoc. split; reflexivity.
  - unfold ret in Hstart. inversion Hstart; subst. split; reflexivity.
Qed.

Lemma hook_start_then_end_round_trip_witness :
  exists st1 tr1 tr2,
    process_message counting_runtime ticking_clock 0
                    (allure_hook_start (mkHookStart "before each" before 2)) false
                    (test_A_open [] 0) test_A_calls = (Done tt, st1, tr1) /\
    process_message counting_runtime ticking_clock 0
                    (allure_hook_end (mkHookEnd passed None None (Some 3))) false
                    st1 tr1 = (Done tt, test_A_open [] 0, tr2) /\
    tr2 = test_A_calls ++ [startFixture (Some "scope#0") before "before each" 2;
                           updateFixture "hook#2" passed None;
                           stopFixture "hook#2" (Some 3) None].
Proof.
  do 3 eexists. split; [vm_compute; reflexivity|]. split; [vm_compute; reflexivity|].
  destruct (hook_start_then_end_round_trip
              counting_runtime ticking_clock 0 (test_A_open [] 0) _ _ test_A_calls _ _
              (mkHookStart "before each" before 2) (mkHookEnd passed None None (Some 3))
              false false eq_refl eq_refl eq_refl) as [_ (_ & _ & Htr)].
  exact Htr.
Defined.

(** X7. With no test current and a backend that returns non-empty handles,
    a test start followed by a test end that is not the last message opens
    one scope, starts the test, updates and stops it, and writes nothing:
    the executable stack is back to what it was, while the test stays the
    current one and its scope stays open until something finalises it. *)
Theorem test_start_then_end_round_trip :
  forall (rt : ReporterRuntime) (Date_now : list Call -> Z) (fuel : nat)
         (st st1 st2 : AllureReportState) (tr tr1 tr2 : list Call)
         (started : WDIOTestStartData) (ended : WDIOTestEndData) (l1 : bool),
    nonempty_handles rt ->
    truthy (_currentTestUuid st) = false ->
    process_message rt Date_now fuel (allure_test_start started) l1 st tr =
      (Done tt, st1, tr1) ->
    process_message rt Date_now fuel (allure_test_end ended) false st1 tr1 =
      (Done tt, st2, tr2) ->
    let scopes := push (_scopesStack st) (new_uuid rt tr startScope) in
    let start := startTest (ts_name started) (ts_start started) scopes in
    let t := new_uuid rt (tr ++ [startScope]) start in
    tr2 = tr ++ [startScope; start;
                 updateTest t (set_result (te_status ended) (te_stage ended)
                                          (te_statusDetails ended));
                 stopTest t (te_stop ended) (te_duration ended)] /\
    _executablesStack st2 = _executablesStack st /\
    _currentTestUuid st2 = Some t /\
    _scopesStack st2 = scopes /\
    _openSteps st2 = 0 /\
    count_calls is_writeTest (skipn (List.length tr) tr2) = 0%nat.
Proof.
  intros rt Date_now fuel st st1 st2 tr tr1 tr2 started ended l1 Hne Hclosed
         Hstart Hend scopes start t.
  simpl in Hstart. unfold _startTest, get in Hstart. unfold bind at 1 in Hstart.
  rewrite Hclosed in Hstart. simpl when in Hstart.
  unfold bind at 1 in Hstart. unfold ret at 1 in Hstart.
  apply bind_done in Hstart. destruct Hstart as ([] & s1 & t1 & Hopen & Hstart).
  apply openScope_done in Hopen. destruct Hopen as [-> ->].
  unfold get in Hstart. unfold bind at 1 in Hstart.
  unfold bind, call_uuid, modify in Hstart. simpl _scopesStack in Hstart.
  fold scopes in Hstart. fold start in Hstart.
  destruct (fails rt (tr ++ [startScope]) start); [discriminate|].
  fold t in Hstart. inversion Hstart; subst st1 tr1. clear Hstart.
  simpl in Hend. unfold _endTest, pop_executable in Hend. unfold bind at 1 in Hend.
  simpl _executablesStack in Hend. rewrite pop_push in Hend.
  assert ((t =? "")%string = false) as Ht by apply Hne. rewrite Ht in Hend.
  apply bind_done in Hend. destruct Hend as ([] & s2 & t2 & Hsteps & Hend).
  unfold _closeOpenedSteps, get in Hsteps. unfold bind at 1 in Hsteps.
  cbn [_currentTestUuid set_executablesStack set_openSteps set_currentTestUuid]
    in Hsteps.
  rewrite Ht in Hsteps.
  rewrite while_end in Hsteps by reflexivity. inversion Hsteps; subst s2 t2. clear Hsteps.
  apply bind_done in Hend. destruct Hend as ([] & s3 & t3 & Hc1 & Hend).
  apply call_done in Hc1. destruct Hc1 as (-> & -> & _).
  apply bind_done in Hend. destruct Hend as ([] & s4 & t4 & Hc2 & Hend).
  apply call_done in Hc2. destruct Hc2 as (-> & -> & _).
  simpl when in Hend. unfold ret in Hend. inversion Hend; subst st2 tr2. clear Hend.
  rewrite <- !app_assoc. simpl.
  repeat split.
  rewrite skipn_app, skipn_all, Nat.sub_diag. reflexivity.
Qed.

Lemma test_start_then_end_round_trip_witness :
  exists st1 tr1 st2 tr2,
    process_message counting_runtime ticking_clock 0
                    (allure_test_start (mkTestStart "A" 1)) false (session []) [] =
      (Done tt, st1, tr1) /\
    process_message counting_runtime ticking_clock 0 (passed_at 4) false st1 tr1 =
      (Done tt, st2, tr2) /\
    _executablesStack st2 = [] /\ _currentTestUuid st2 = Some "test:A".
Proof.
  assert (nonempty_handles counting_runtime) as Hne
      by (intros history c; destruct c; reflexivity).
  do 4 eexists. split; [vm_compute; reflexivity|]. split; [vm_compute; reflexivity|].
  destruct (test_start_then_end_round_trip
              counting_runtime ticking_clock 0 (session []) _ _ [] _ _
              (mkTestStart "A" 1) (passed_data 4) false Hne eq_refl eq_refl eq_refl)
    as (_ & Hexe & Hcur & _).
  split; [exact Hexe|exact Hcur].
Defined.

(* ------------------------------------------------------------------ *)
(** ** Properties of the session that every method keeps *)

Section Always.

Variable rt : ReporterRuntime.
Variable Date_now : list Call -> Z.
Variable P : AllureReportState -> Prop.

(** [P] does not depend on the stacks or on the current test, and it
    survives the four ways in which the open-step counter is changed. *)
Hypothesis P_scopes : forall v s, P s -> P (set_scopesStack v s).
Hypothesis P_executables : forall v s, P s -> P (set_executablesStack v s).
Hypothesis P_fixtures : forall v s, P s -> P (set_fixturesStack v s).
Hypothesis P_current : forall v s, P s -> P (set_currentTestUuid v s).
Hypothesis P_reset : forall s, P s -> P (set_openSteps 0 s).
Hypothesis P_raise : forall s, P s -> P (set_openSteps (_openSteps s + 1) s).
Hypothesis P_floor : forall s, P s -> P (set_openSteps (Z.max 0 (_openSteps s - 1)) s).
Hypothesis P_lower :
  forall s, P s -> (_openSteps s >? 0) = true -> P (set_openSteps (_openSteps s - 1) s).

Lemma always_ret {A : Type} (a : A) : always P (ret a).
Proof. intros st tr HP. exact HP. Qed.

Lemma always_get : always P get.
Proof. intros st tr HP. exact HP. Qed.

Lemma always_modify (f : AllureReportState -> AllureReportState) :
  (forall s, P s -> P (f s)) -> always P (modify f).
Proof. intros Hf st tr HP. apply Hf. exact HP. Qed.

Lemma always_bind {A B : Type} (m : M A) (f : A -> M B) :
  always P m -> (forall a, always P (f a)) -> always P (bind m f).
Proof.
  intros Hm Hf st tr HP. unfold bind. specialize (Hm st tr HP).
  destruct (m st tr) as [[o st1] tr1].
  destruct o as [a| |]; try exact Hm.
  apply Hf. exact Hm.
Qed.

Lemma always_when (b : bool) (m : M unit) : always P m -> always P (when b m).
Proof. intros Hm. destruct b; [exact Hm|apply always_ret]. Qed.

Lemma always_call (c : Call) : always P (call rt c).
Proof. intros st tr HP. unfold call. destruct (fails rt tr c); exact HP. Qed.

Lemma always_call_uuid (c : Call) : always P (call_uuid rt c).
Proof. intros st tr HP. unfold call_uuid. destruct (fails rt tr c); exact HP. Qed.

Lemma always_call_fixture (c : Call) : always P (call_fixture rt c).
Proof. intros st tr HP. unfold call_fixture. destruct (fails rt tr c); exact HP. Qed.

Lemma always_while (fuel : nat) (cond : AllureReportState -> bool) (body : M unit) :
  (forall st tr, cond st = true -> P st -> match body st tr with (_, st', _) => P st' end) ->
  always P (while fuel cond body).
Proof.
  intros Hbody. induction fuel as [|fuel IH]; intros st tr HP; simpl.
  - destruct (cond st); exact HP.
  - destruct (cond st) eqn:Hc; [|exact HP]. unfold bind.
    specialize (Hbody st tr Hc HP). destruct (body st tr) as [[o st1] tr1].
    destruct o as [[]| |]; try exact Hbody.
    apply IH. exact Hbody.
Qed.

Lemma always_openScope : always P (_openScope rt).
Proof.
  apply always_bind; [apply always_call_uuid|].
  intros uuid. apply always_modify. intros s. apply P_scopes.
Qed.

Lemma always_closeScope : always P (_closeScope rt).
Proof.
  apply always_bind.
  - intros st tr HP. unfold pop_scope, pop. apply P_scopes. exact HP.
  - intros [uuid|]; [|apply always_ret].
    destruct (uuid =? "")%string; [apply always_ret|apply always_call].
Qed.

Lemma always_writeLastTest : always P (_writeLastTest rt).
Proof.
  apply always_bind; [apply always_get|]. intros st.
  destruct (_currentTestUuid st) as [uuid|]; [|apply always_ret].
  destruct (uuid =? "")%string; [apply always_ret|].
  apply always_bind; [apply always_closeScope|]. intros _.
  apply always_bind; [apply always_call|]. intros _.
  apply always_modify. intros s. apply P_current.
Qed.

Lemma always_closeOpenedSteps (fuel : nat) (status : AllureStatus) (stop : option Z) :
  always P (_closeOpenedSteps rt Date_now fuel status stop).
Proof.
  apply always_bind; [apply always_get|]. intros st.
  destruct (_currentTestUuid st) as [uuid|]; [|apply always_ret].
  destruct (uuid =? "")%string; [apply always_ret|].
  apply always_while. intros s t Hc HP.
  destruct (close_one_step_run rt Date_now uuid status stop s t) as (t0 & _ & _ & Hrun).
  simpl in Hrun. rewrite Hrun. apply P_lower; assumption.
Qed.

Lemma always_process_message (fuel : nat) (message : WDIORuntimeMessage)
      (lastMessage : bool) :
  always P (process_message rt Date_now fuel message lastMessage).
Proof.
  destruct message; simpl.
  - apply always_bind; [apply always_get|]. intros st.
    apply always_bind; [apply always_when, always_writeLastTest|]. intros _.
    apply always_openScope.
  - apply always_bind; [apply always_closeScope|]. intros _.
    apply always_when, always_writeLastTest.
  - apply always_bind; [apply always_get|]. intros st.
    apply always_bind; [apply always_when, always_writeLastTest|]. intros _.
    apply always_bind; [apply always_openScope|]. intros _.
    apply always_bind; [apply always_get|]. intros st'.
    apply always_bind; [apply always_call_uuid|]. intros testUuid.
    apply always_modify. intros s HP.
    apply P_reset, P_current, P_executables. exact HP.
  - apply always_bind; [apply always_get|]. intros st.
    destruct (last (_executablesStack st)) as [uuid|]; [|apply always_ret].
    destruct (uuid =? "")%string; [apply always_ret|apply always_call].
  - apply always_bind.
    + intros st tr HP. unfold pop_executable, pop. apply P_executables. exact HP.
    + intros [uuid|]; [|apply always_ret].
      destruct (uuid =? "")%string; [apply always_ret|].
      apply always_bind; [apply always_closeOpenedSteps|]. intros _.
      apply always_bind; [apply always_call|]. intros _.
      apply always_bind; [apply always_call|]. intros _.
      apply always_when, always_writeLastTest.
  - apply always_bind; [apply always_get|]. intros st.
    apply always_bind; [apply always_when, always_writeLastTest|]. intros _.
    apply always_bind; [apply always_get|]. intros st'.
    apply always_bind; [apply always_call_fixture|]. intros [uuid|]; [|apply always_ret].
    destruct (uuid =? "")%string; [apply always_ret|].
    apply always_modify. intros s. apply P_fixtures.
  - apply always_bind.
    + intros st tr HP. unfold pop_fixture, pop. apply P_fixtures. exact HP.
    + intros [uuid|]; [|apply always_ret].
      destruct (uuid =? "")%string; [apply always_ret|].
      apply always_bind; [apply always_call|]. intros _. apply always_call.
  - apply always_bind; [apply always_get|]. intros st.
    destruct (_currentTestUuid st) as [uuid|]; [|apply always_ret].
    destruct (uuid =? "")%string; [apply always_ret|].
    apply always_bind; [apply always_when, always_modify, P_raise|]. intros _.
    apply always_bind; [apply always_when, always_modify, P_floor|]. intros _.
    apply always_call.
Qed.

Lemma always_for_messages (fuel : nat) :
  forall n i, always P (for_messages rt Date_now fuel n i).
Proof.
  induction n as [|n IH]; intros i st tr HP; simpl.
  - destruct (i <? List.length (messages st))%nat; exact HP.
  - destruct (i <? List.length (messages st))%nat; [|exact HP].
    destruct (nth_error (messages st) i) as [message|]; [|exact HP].
    exact (always_bind _ _ (always_process_message fuel message _)
                       (fun _ => IH (S i)) st tr HP).
Qed.

Lemma always_processRuntimeMessage (fuel : nat) :
  always P (processRuntimeMessage rt Date_now fuel).
Proof.
  apply always_bind; [apply always_for_messages|]. intros _.
  apply always_bind; [apply always_get|]. intros st.
  apply always_bind; [apply always_when, always_writeLastTest|]. intros _.
  apply always_while. intros s t _ HP. exact (always_closeScope s t HP).
Qed.

End Always.

(** X8. The open-step counter never goes negative: a replay started with
    a counter that is not negative ends, however it ends and whatever the
    fuel, with a counter that is not negative. *)
Theorem open_steps_never_negative :
  forall (rt : ReporterRuntime) (Date_now : list Call -> Z) (fuel : nat)
         (st : AllureReportState) (tr : list Call),
    0 <= _openSteps st ->
    0 <= _openSteps (snd (fst (processRuntimeMessage rt Date_now fuel st tr))).
Proof.
  intros rt Date_now fuel st tr Hpos.
  pose proof (always_processRuntimeMessage rt Date_now (fun s => 0 <= _openSteps s))
    as Halways.
  specialize (Halways ltac:(intros; assumption) ltac:(intros; assumption)
                      ltac:(intros; assumption) ltac:(intros; assumption)).
  specialize (Halways ltac:(intros; cbv beta in *; simpl; lia)
                      ltac:(intros; cbv beta in *; simpl; lia)
                      ltac:(intros; cbv beta in *; simpl; lia)).
  assert (forall s, 0 <= _openSteps s -> (_openSteps s >? 0) = true ->
                    0 <= _openSteps (set_openSteps (_openSteps s - 1) s)) as Hlower.
  { intros s _ Hc. apply Z.gtb_lt in Hc. simpl. lia. }
  specialize (Halways Hlower fuel st tr Hpos).
  destruct (processRuntimeMessage rt Date_now fuel st tr) as [[o st'] tr'].
  exact Halways.
Qed.

Lemma open_steps_never_negative_witness :
  0 <= _openSteps (snd (fst (processRuntimeMessage counting_runtime ticking_clock 4
                                                   (session finalised_early_log) []))).
Proof.
  apply (open_steps_never_negative counting_runtime ticking_clock 4
                                   (session finalised_early_log) []).
  simpl. lia.
Defined.

(** X9. A replay never touches the message log, however it ends: the
    pending predicates and [currentFeature] answer after the replay what
    they answered before. *)
Theorem replay_leaves_log_untouched :
  forall (rt : ReporterRuntime) (Date_now : list Call -> Z) (fuel : nat)
         (st : AllureReportState) (tr : list Call),
    let st' := snd (fst (processRuntimeMessage rt Date_now fuel st tr)) in
    messages st' = messages st /\
    hasPendingSuite (messages st') = hasPendingSuite (messages st) /\
    hasPendingTest (messages st') = hasPendingTest (messages st) /\
    hasPendingStep (messages st') = hasPendingStep (messages st) /\
    hasPendingHook (messages st') = hasPendingHook (messages st) /\
    currentFeature (messages st') = currentFeature (messages st).
Proof.
  intros rt Date_now fuel st tr st'.
  assert (messages st' = messages st) as Hlog.
  { pose proof (always_processRuntimeMessage rt Date_now
                  (fun s => messages s = messages st)) as Halways.
    specialize (Halways ltac:(intros; assumption) ltac:(intros; assumption)
                        ltac:(intros; assumption) ltac:(intros; assumption)
                        ltac:(intros; assumption) ltac:(intros; assumption)
                        ltac:(intros; assumption) ltac:(intros; assumption)
                        fuel st tr eq_refl).
    subst st'. destruct (processRuntimeMessage rt Date_now fuel st tr) as [[o s] t].
    exact Halways. }
  rewrite Hlog. repeat split.
Qed.

(* ------------------------------------------------------------------ *)
(** ** The accounting of scopes and tests *)

Section Accounting.

Variable rt : ReporterRuntime.
Variable Date_now : list Call -> Z.
Hypothesis handles : nonempty_handles rt.

Lemma count_calls_app (p : Call -> bool) (a b : list Call) :
  count_calls p (a ++ b) = (count_calls p a + count_calls p b)%nat.
Proof. unfold count_calls. rewrite filter_app, length_app. reflexivity. Qed.

Lemma keeps_ret (J : AllureReportState -> list Call -> Prop) {A : Type} (a : A) :
  keeps J (ret a).
Proof. intros st tr b st' tr' HJ H. inversion H; subst. exact HJ. Qed.

Lemma keeps_get (J : AllureReportState -> list Call -> Prop) : keeps J get.
Proof. intros st tr b st' tr' HJ H. inversion H; subst. exact HJ. Qed.

Lemma keeps_bind (J : AllureReportState -> list Call -> Prop) {A B : Type}
      (m : M A) (f : A -> M B) :
  keeps J m -> (forall a, keeps J (f a)) -> keeps J (bind m f).
Proof.
  intros Hm Hf st tr b st' tr' HJ H.
  apply bind_done in H. destruct H as (a & st1 & tr1 & H1 & H2).
  exact (Hf a st1 tr1 b st' tr' (Hm st tr a st1 tr1 HJ H1) H2).
Qed.

Lemma keeps_when (J : AllureReportState -> list Call -> Prop) (b : bool) (m : M unit) :
  keeps J m -> keeps J (when b m).
Proof. intros Hm. destruct b; [exact Hm|apply keeps_ret]. Qed.

Lemma keeps_while (J : AllureReportState -> list Call -> Prop) (fuel : nat)
      (cond : AllureReportState -> bool) (body : M unit) :
  keeps J body -> keeps J (while fuel cond body).
Proof.
  intros Hbody. induction fuel as [|fuel IH]; intros st tr [] st' tr' HJ; simpl.
  - destruct (cond st); intros H; inversion H; subst. exact HJ.
  - destruct (cond st).
    + apply (keeps_bind J body (fun _ => while fuel cond body) Hbody (fun _ => IH)).
      exact HJ.
    + intros H; inversion H; subst. exact HJ.
Qed.

(** A call that starts or writes neither a scope nor a test. *)
Lemma balanced_neutral (c : Call) (st : AllureReportState) (tr : list Call) :
  neutral c = true -> balanced st tr -> balanced st (tr ++ [c]).
Proof.
  intros Hc (H1 & H2 & H3).
  unfold neutral in Hc. apply negb_true_iff in Hc.
  apply orb_false_iff in Hc. destruct Hc as [Hc Hwt].
  apply orb_false_iff in Hc. destruct Hc as [Hc Hst].
  apply orb_false_iff in Hc. destruct Hc as [Hss Hws].
  unfold balanced. rewrite !count_calls_app. unfold count_calls at 2 4 6 8. simpl.
  rewrite Hss, Hws, Hst, Hwt. simpl. rewrite !Nat.add_0_r.
  repeat split; assumption.
Qed.

Lemma keeps_neutral_call (c : Call) : neutral c = true -> keeps balanced (call rt c).
Proof.
  intros Hc st tr [] st' tr' HJ H.
  apply call_done in H. destruct H as (-> & -> & _).
  apply balanced_neutral; assumption.
Qed.

(** A change of the session that leaves the scope stack and the current
    test alone. *)
Lemma keeps_modify (f : AllureReportState -> AllureReportState) :
  (forall s, _scopesStack (f s) = _scopesStack s /\
             _currentTestUuid (f s) = _currentTestUuid s) ->
  keeps balanced (modify f).
Proof.
  intros Hf st tr [] st' tr' HJ H. unfold modify in H. inversion H; subst.
  destruct (Hf st) as [Hs Hc]. unfold balanced in *. rewrite Hs, Hc. exact HJ.
Qed.

Lemma snoc_cases {A : Type} (l : list A) : l = [] \/ exists l' x, l = l' ++ [x].
Proof.
  induction l as [|x l _] using rev_ind; [left; reflexivity|].
  right. exists l, x. reflexivity.
Qed.

Lemma keeps_openScope : keeps balanced (_openScope rt).
Proof.
  intros st tr [] st' tr' (H1 & H2 & H3) H.
  apply openScope_done in H. destruct H as [-> ->].
  unfold balanced, push. simpl. rewrite !count_calls_app, length_app.
  unfold count_calls at 2 4 6 8. simpl.
  repeat split; try lia.
  apply Forall_app. split; [exact H3|]. constructor; [apply handles|constructor].
Qed.

Lemma keeps_closeScope : keeps balanced (_closeScope rt).
Proof.
  intros st tr [] st' tr' (H1 & H2 & H3) H.
  apply closeScope_done in H. destruct H as [-> ->].
  unfold balanced, closing_calls. simpl.
  destruct (snoc_cases (_scopesStack st)) as [Hl|(l & x & Hl)]; rewrite Hl in *.
  - simpl. rewrite app_nil_r. repeat split; assumption.
  - apply Forall_app in H3. destruct H3 as [H3 Hx]. inversion Hx; subst.
    fold (push l x). rewrite last_push. unfold push.
    rewrite removelast_last.
    match goal with Hx' : (x =? "")%string = false |- _ => rewrite Hx' end.
    rewrite !count_calls_app. unfold count_calls at 2 4 6 8. simpl.
    rewrite length_app in H1. simpl in H1.
    repeat split; try lia. exact H3.
Qed.

Lemma keeps_writeLastTest : keeps balanced (_writeLastTest rt).
Proof.
  intros st tr [] st' tr' HJ H.
  destruct (_currentTestUuid st) as [uuid|] eqn:Hcur.
  - destruct (uuid =? "")%string eqn:Hu.
    + rewrite writeLastTest_closed in H by (rewrite Hcur; simpl; rewrite Hu; reflexivity).
      inversion H; subst. exact HJ.
    + unfold _writeLastTest, get in H. unfold bind at 1 in H. rewrite Hcur, Hu in H.
      apply bind_done in H. destruct H as ([] & s1 & t1 & Hclose & H).
      pose proof (keeps_closeScope st tr tt s1 t1 HJ Hclose) as (K1 & K2 & K3).
      apply closeScope_done in Hclose. destruct Hclose as [Hs1 _].
      apply bind_done in H. destruct H as ([] & s2 & t2 & Hcall & H).
      apply call_done in Hcall. destruct Hcall as (-> & -> & _).
      unfold modify in H. inversion H; subst st' tr'. clear H.
      assert (truthy (_currentTestUuid s1) = true) as Ht.
      { rewrite Hs1. simpl. rewrite Hcur. simpl. rewrite Hu. reflexivity. }
      rewrite Ht in K2.
      unfold balanced. simpl. rewrite !count_calls_app.
      unfold count_calls at 2 4 6 8. simpl.
      repeat split; try lia. exact K3.
  - rewrite writeLastTest_closed in H by (rewrite Hcur; reflexivity).
    inversion H; subst. exact HJ.
Qed.

Lemma keeps_closeOpenedSteps (fuel : nat) (status : AllureStatus) (stop : option Z) :
  keeps balanced (_closeOpenedSteps rt Date_now fuel status stop).
Proof.
  apply keeps_bind; [apply keeps_get|]. intros st.
  destruct (_currentTestUuid st) as [uuid|]; [|apply keeps_ret].
  destruct (uuid =? "")%string; [apply keeps_ret|].
  apply keeps_while. intros s t [] s' t' HJ H.
  destruct (close_one_step_run rt Date_now uuid status stop s t) as (t0 & _ & _ & Hrun).
  simpl in Hrun. rewrite Hrun in H. inversion H; subst s' t'.
  assert (balanced s (t ++ [applyRuntimeMessages uuid [step_stop status t0 None]])) as HJ'.
  { apply balanced_neutral; [reflexivity|exact HJ]. }
  exact HJ'.
Qed.

(** After the current test has been finalised, starting a test opens
    its scope and makes it the current test. *)
Lemma keeps_startTest (data : WDIOTestStartData) : keeps balanced (_startTest rt data).
Proof.
  intros st tr [] st' tr' HJ H.
  unfold _startTest, get in H. unfold bind at 1 in H.
  apply bind_done in H. destruct H as ([] & s1 & t1 & Hfin & H).
  assert (balanced s1 t1) as HJ1
      by (exact (keeps_when balanced _ _ keeps_writeLastTest st tr tt s1 t1 HJ Hfin)).
  apply finalise_if_current in Hfin. destruct Hfin as [Hs1 _].
  assert (truthy (_currentTestUuid s1) = false) as Hnot
      by (rewrite Hs1; apply finalised_not_current).
  apply bind_done in H. destruct H as ([] & s2 & t2 & Hopen & H).
  pose proof (keeps_openScope s1 t1 tt s2 t2 HJ1 Hopen) as (K1 & K2 & K3).
  apply openScope_done in Hopen. destruct Hopen as [Hs2 _].
  assert (truthy (_currentTestUuid s2) = false) as Hnot2 by (rewrite Hs2; exact Hnot).
  rewrite Hnot2 in K2.
  unfold get in H. unfold bind at 1 in H. unfold bind, call_uuid, modify in H.
  destruct (fails rt t2 _); [discriminate|]. inversion H; subst st' tr'. clear H.
  unfold balanced. simpl. rewrite handles. simpl.
  rewrite !count_calls_app. unfold count_calls at 2 4 6 8. simpl.
  repeat split; try lia. exact K3.
Qed.

Lemma keeps_process_message (fuel : nat) (message : WDIORuntimeMessage)
      (lastMessage : bool) :
  keeps balanced (process_message rt Date_now fuel message lastMessage).
Proof.
  destruct message; simpl.
  - apply keeps_bind; [apply keeps_get|]. intros st.
    apply keeps_bind; [apply keeps_when, keeps_writeLastTest|]. intros _.
    apply keeps_openScope.
  - apply keeps_bind; [apply keeps_closeScope|]. intros _.
    apply keeps_when, keeps_writeLastTest.
  - apply keeps_startTest.
  - apply keeps_bind; [apply keeps_get|]. intros st.
    destruct (last (_executablesStack st)) as [uuid|]; [|apply keeps_ret].
    destruct (uuid =? "")%string; [apply keeps_ret|].
    apply keeps_neutral_call. reflexivity.
  - apply keeps_bind.
    + intros st tr a st' tr' HJ H. unfold pop_executable, pop in H.
      inversion H; subst. exact HJ.
    + intros [uuid|]; [|apply keeps_ret].
      destruct (uuid =? "")%string; [apply keeps_ret|].
      apply keeps_bind; [apply keeps_closeOpenedSteps|]. intros _.
      apply keeps_bind; [apply keeps_neutral_call; reflexivity|]. intros _.
      apply keeps_bind; [apply keeps_neutral_call; reflexivity|]. intros _.
      apply keeps_when, keeps_writeLastTest.
  - apply keeps_bind; [apply keeps_get|]. intros st.
    apply keeps_bind; [apply keeps_when, keeps_writeLastTest|]. intros _.
    apply keeps_bind; [apply keeps_get|]. intros st'.
    apply keeps_bind.
    + intros s t a s' t' HJ H. unfold call_fixture in H.
      destruct (fails rt t _) eqn:Hf; [discriminate|]. inversion H; subst.
      apply (keeps_neutral_call
               (startFixture (last (_scopesStack st')) (hs_type data)
                             (hs_name data) (hs_start data))
               eq_refl s' t tt); [exact HJ|].
      unfold call. rewrite Hf. reflexivity.
    + intros [uuid|]; [|apply keeps_ret].
      destruct (uuid =? "")%string; [apply keeps_ret|].
      apply keeps_modify. intros s. split; reflexivity.
  - apply keeps_bind.
    + intros st tr a st' tr' HJ H. unfold pop_fixture, pop in H.
      inversion H; subst. exact HJ.
    + intros [uuid|]; [|apply keeps_ret].
      destruct (uuid =? "")%string; [apply keeps_ret|].
      apply keeps_bind; [apply keeps_neutral_call; reflexivity|]. intros _.
      apply keeps_neutral_call. reflexivity.
  - apply keeps_bind; [apply keeps_get|]. intros st.
    destruct (_currentTestUuid st) as [uuid|]; [|apply keeps_ret].
    destruct (uuid =? "")%string; [apply keeps_ret|].
    apply keeps_bind; [apply keeps_when, keeps_modify; intros s; split; reflexivity|].
    intros _.
    apply keeps_bind; [apply keeps_when, keeps_modify; intros s; split; reflexivity|].
    intros _. apply keeps_neutral_call. reflexivity.
Qed.

Lemma keeps_for_messages (fuel : nat) :
  forall n i, keeps balanced (for_messages rt Date_now fuel n i).
Proof.
  induction n as [|n IH]; intros i st tr a st' tr' HJ; simpl.
  - destruct (i <? List.length (messages st))%nat; intros H; inversion H; subst. exact HJ.
  - destruct (i <? List.length (messages st))%nat.
    + destruct (nth_error (messages st) i) as [message|]; [|discriminate].
      apply (keeps_bind balanced _ _ (keeps_process_message fuel message _)
                        (fun _ => IH (S i))).
      exact HJ.
    + intros H; inversion H; subst. exact HJ.
Qed.

Lemma keeps_processRuntimeMessage (fuel : nat) :
  keeps balanced (processRuntimeMessage rt Date_now fuel).
Proof.
  apply keeps_bind; [apply keeps_for_messages|]. intros _.
  apply keeps_bind; [apply keeps_get|]. intros st.
  apply keeps_bind; [apply keeps_when, keeps_writeLastTest|]. intros _.
  apply keeps_while, keeps_closeScope.
Qed.

End Accounting.

(** X10. On a backend that returns non-empty handles, a replay that
    completes has written exactly as many scopes as it started and exactly
    as many tests as it started: starting from a session whose books
    balance (a fresh session does), no scope and no test is left
    unwritten and none is written without having been started. *)
Theorem completed_replay_writes_what_it_started :
  forall (rt : ReporterRuntime) (Date_now : list Call -> Z) (fuel : nat)
         (st st' : AllureReportState) (tr tr' : list Call),
    nonempty_handles rt ->
    balanced st tr ->
    processRuntimeMessage rt Date_now fuel st tr = (Done tt, st', tr') ->
    count_calls is_writeScope tr' = count_calls is_startScope tr' /\
    count_calls is_writeTest tr' = count_calls is_startTest tr'.
Proof.
  intros rt Date_now fuel st st' tr tr' Hne HJ Hrun.
  pose proof (keeps_processRuntimeMessage rt Date_now Hne fuel st tr tt st' tr' HJ Hrun)
    as (H1 & H2 & _).
  unfold processRuntimeMessage in Hrun. apply bind_done in Hrun.
  destruct Hrun as ([] & s1 & t1 & _ & Hdrain).
  apply drain_done in Hdrain. destruct Hdrain as (Hscopes & Hcur & _).
  rewrite Hscopes in H1. rewrite Hcur in H2. simpl in H1, H2. lia.
Qed.

Lemma completed_replay_writes_what_it_started_witness :
  let tr' := [startScope; startTest "A" 1 ["scope#0"];
              applyRuntimeMessages "test:A" [step_start "click" 2];
              writeScope "scope#0"; writeTest "test:A"; startScope;
              updateTest "test:A" (set_result passed (Some finished) None);
              stopTest "test:A" (Some 9) None;
              writeScope "scope#5"] in
  count_calls is_writeScope tr' = count_calls is_startScope tr' /\
  count_calls is_writeTest tr' = count_calls is_startTest tr'.
Proof.
  apply (completed_replay_writes_what_it_started
           counting_runtime ticking_clock 4 (session finalised_early_log)
           (mkState [] [] [] None finalised_early_log 1) []).
  - intros history c. destruct c; reflexivity.
  - repeat split. constructor.
  - vm_compute. reflexivity.
Defined.

(* ------------------------------------------------------------------ *)
(** ** What a completed replay leaves on the stacks (C1) *)

Section Stacks.

Variable rt : ReporterRuntime.
Variable Date_now : list Call -> Z.

Lemma always_run (P : AllureReportState -> Prop) {A : Type} (m : M A)
      (st st' : AllureReportState) (tr tr' : list Call) (o : Outcome A) :
  always P m -> P st -> m st tr = (o, st', tr') -> P st'.
Proof. intros Hm HP H. specialize (Hm st tr HP). rewrite H in Hm. exact Hm. Qed.

Lemma kept_finalise (E F : list string) (b : bool) :
  always (stacks_are E F) (when b (_writeLastTest rt)).
Proof.
  apply always_when, always_writeLastTest; intros v s HP; exact HP.
Qed.

Lemma kept_forward (E F : list string) (m : RuntimeMessage) :
  always (stacks_are E F) (forward rt m).
Proof.
  unfold forward. apply always_bind; [apply always_get|]. intros st.
  destruct (_currentTestUuid st) as [uuid|]; [|apply always_ret].
  destruct (uuid =? "")%string; [apply always_ret|].
  apply always_bind; [apply always_when, always_modify; intros s HP; exact HP|].
  intros _.
  apply always_bind; [apply always_when, always_modify; intros s HP; exact HP|].
  intros _. apply always_call.
Qed.

(** What one round of the loop does to the two stacks when it
    completes. *)
Lemma process_message_stacks (fuel : nat) (m : WDIORuntimeMessage) (lastMessage : bool)
      (st st' : AllureReportState) (tr tr' : list Call) :
  process_message rt Date_now fuel m lastMessage st tr = (Done tt, st', tr') ->
  match m with
  | allure_test_start _ =>
      (exists u, _executablesStack st' = _executablesStack st ++ [u]) /\
      _fixturesStack st' = _fixturesStack st
  | allure_test_end _ =>
      _executablesStack st' = removelast (_executablesStack st) /\
      _fixturesStack st' = _fixturesStack st
  | allure_hook_start _ =>
      _executablesStack st' = _executablesStack st /\
      (_fixturesStack st' = _fixturesStack st \/
       exists h, _fixturesStack st' = _fixturesStack st ++ [h]) /\
      (fixtures_get_handles rt ->
       exists h, _fixturesStack st' = _fixturesStack st ++ [h])
  | allure_hook_end _ =>
      _executablesStack st' = _executablesStack st /\
      _fixturesStack st' = removelast (_fixturesStack st)
  | _ =>
      _executablesStack st' = _executablesStack st /\
      _fixturesStack st' = _fixturesStack st
  end.
Proof.
  set (E := _executablesStack st). set (F := _fixturesStack st).
  assert (stacks_are E F st) as Hst by (split; reflexivity).
  destruct m as [data| |data|fullName|data|data|data|m]; simpl; intros H.
  - (* suite start *)
    refine (always_run (stacks_are E F) _ _ _ _ _ _ _ Hst H).
    apply always_bind; [apply always_get|]. intros s.
    apply always_bind; [apply kept_finalise|]. intros _.
    apply always_openScope. intros v s' HP. exact HP.
  - (* suite end *)
    refine (always_run (stacks_are E F) _ _ _ _ _ _ _ Hst H).
    apply always_bind; [apply always_closeScope; intros v s' HP; exact HP|].
    intros _. apply kept_finalise.
  - (* test start *)
    unfold _startTest in H.
    apply bind_done in H. destruct H as (s0 & s1 & t1 & H0 & H).
    unfold get in H0. inversion H0; subst s0 s1 t1. clear H0.
    apply bind_done in H. destruct H as ([] & s1 & t1 & H1 & H).
    pose proof (always_run (stacks_are E F) _ _ _ _ _ _ (kept_finalise E F _) Hst H1) as Hs1.
    apply bind_done in H. destruct H as ([] & s2 & t2 & H2 & H).
    assert (stacks_are E F s2) as Hs2.
    { refine (always_run (stacks_are E F) _ _ _ _ _ _ _ Hs1 H2).
      apply always_openScope. intros v s' HP. exact HP. }
    apply bind_done in H. destruct H as (s3 & s4 & t4 & H3 & H).
    unfold get in H3. inversion H3; subst s3 s4 t4. clear H3.
    apply bind_done in H. destruct H as (u & s5 & t5 & H5 & H).
    pose proof (always_run (stacks_are E F) _ _ _ _ _ _ (always_call_uuid rt _ _) Hs2 H5) as Hs5.
    unfold modify in H. inversion H; subst st' tr'. simpl.
    destruct Hs5 as [-> ->]. split; [exists u; reflexivity|reflexivity].
  - (* test info *)
    refine (always_run (stacks_are E F) _ _ _ _ _ _ _ Hst H).
    unfold _addTestInfo. apply always_bind; [apply always_get|]. intros s.
    destruct (last (_executablesStack s)) as [uuid|]; [|apply always_ret].
    destruct (uuid =? "")%string; [apply always_ret|apply always_call].
  - (* test end *)
    unfold _endTest in H.
    apply bind_done in H. destruct H as (popped & s1 & t1 & H1 & H).
    unfold pop_executable, pop in H1. inversion H1; subst popped s1 t1. clear H1.
    refine (always_run (stacks_are (removelast E) F) _ _ _ _ _ _ _ _ H);
      [|split; reflexivity].
    destruct (last (_executablesStack st)) as [uuid|]; [|apply always_ret].
    destruct (uuid =? "")%string; [apply always_ret|].
    apply always_bind; [apply always_closeOpenedSteps; intros s HP _; exact HP|].
    intros _. apply always_bind; [apply always_call|].
    intros _. apply always_bind; [apply always_call|].
    intros _. apply kept_finalise.
  - (* hook start *)
    unfold _startHook in H.
    apply bind_done in H. destruct H as (s0 & s1 & t1 & H0 & H).
    unfold get in H0. inversion H0; subst s0 s1 t1. clear H0.
    apply bind_done in H. destruct H as ([] & s1 & t1 & H1 & H).
    pose proof (always_run (stacks_are E F) _ _ _ _ _ _ (kept_finalise E F _) Hst H1) as Hs1.
    apply bind_done in H. destruct H as (s3 & s4 & t4 & H3 & H).
    unfold get in H3. inversion H3; subst s3 s4 t4. clear H3.
    apply bind_done in H. destruct H as (h & s5 & t5 & H5 & H).
    pose proof (always_run (stacks_are E F) _ _ _ _ _ _ (always_call_fixture rt _ _) Hs1 H5)
      as Hs5.
    unfold call_fixture in H5.
    destruct (fails rt t1 _); [discriminate|]. inversion H5; subst h s5 t5. clear H5.
    destruct Hs5 as [HE HF].
    destruct (new_fixture rt t1 _) as [uuid|] eqn:Hh.
    + destruct (uuid =? "")%string eqn:Hu.
      * unfold ret in H. inversion H; subst st' tr'.
        split; [exact HE|]. split; [left; exact HF|].
        intros Hg. destruct (Hg t1 (startFixture (last (_scopesStack s1)) (hs_type data)
                                                  (hs_name data) (hs_start data)))
          as (h' & Hh' & Hne).
        rewrite Hh in Hh'. inversion Hh'; subst h'. rewrite Hne in Hu. discriminate.
      * unfold modify in H. inversion H; subst st' tr'. simpl. rewrite HE, HF.
        split; [reflexivity|]. split; [right; exists uuid; reflexivity|].
        intros _. exists uuid. reflexivity.
    + unfold ret in H. inversion H; subst st' tr'.
      split; [exact HE|]. split; [left; exact HF|].
      intros Hg. destruct (Hg t1 (startFixture (last (_scopesStack s1)) (hs_type data)
                                                (hs_name data) (hs_start data)))
        as (h' & Hh' & _).
      rewrite Hh in Hh'. discriminate.
  - (* hook end *)
    unfold _endHook in H.
    apply bind_done in H. destruct H as (popped & s1 & t1 & H1 & H).
    unfold pop_fixture, pop in H1. inversion H1; subst popped s1 t1. clear H1.
    refine (always_run (stacks_are E (removelast F)) _ _ _ _ _ _ _ _ H);
      [|split; reflexivity].
    destruct (last (_fixturesStack st)) as [uuid|]; [|apply always_ret].
    destruct (uuid =? "")%string; [apply always_ret|].
    apply always_bind; [apply always_call|]. intros _. apply always_call.
  - (* a message of allure-js-commons *)
    exact (always_run (stacks_are E F) _ _ _ _ _ _ (kept_forward E F m) Hst H).
Qed.

Lemma unended_monotone (start stop : string) (log : list WDIORuntimeMessage) :
  forall a b, (a <= b)%nat -> (unended start stop log a <= unended start stop log b)%nat.
Proof.
  induction log as [|m log IH]; intros a b Hab; simpl; [exact Hab|].
  apply IH. destruct (has_type start m); [lia|].
  destruct (has_type stop m); lia.
Qed.

Lemma skipn_nth_error {A : Type} (l : list A) (i : nat) (x : A) :
  nth_error l i = Some x -> skipn i l = x :: skipn (S i) l.
Proof.
  revert i. induction l as [|y l IH]; intros [|i]; simpl; try discriminate.
  - intros H. inversion H. reflexivity.
  - intros H. exact (IH i H).
Qed.

(** The loop over the log, when it completes, leaves on the two stacks
    what the starts and ends of the log amount to. *)
Lemma for_messages_stacks (fuel : nat) :
  forall (n i : nat) (st st' : AllureReportState) (tr tr' : list Call),
    for_messages rt Date_now fuel n i st tr = (Done tt, st', tr') ->
    List.length (_executablesStack st') =
      unended "allure:test:start" "allure:test:end" (skipn i (messages st))
              (List.length (_executablesStack st)) /\
    (List.length (_fixturesStack st') <=
       unended "allure:hook:start" "allure:hook:end" (skipn i (messages st))
               (List.length (_fixturesStack st)))%nat /\
    (fixtures_get_handles rt ->
     List.length (_fixturesStack st') =
       unended "allure:hook:start" "allure:hook:end" (skipn i (messages st))
               (List.length (_fixturesStack st))).
Proof.
  induction n as [|n IH]; intros i st st' tr tr'; simpl.
  - destruct (i <? List.length (messages st))%nat eqn:Hi; [discriminate|].
    intros H. inversion H; subst st' tr'. apply Nat.ltb_ge in Hi.
    rewrite skipn_all2 by exact Hi. simpl. split; [reflexivity|]. split; [lia|reflexivity].
  - destruct (i <? List.length (messages st))%nat eqn:Hi.
    + destruct (nth_error (messages st) i) as [m|] eqn:Hm; [|discriminate].
      intros H. apply bind_done in H. destruct H as ([] & s1 & t1 & H1 & H).
      pose proof (behaves_process_message rt Date_now fuel m
                    (i =? List.length (messages st) - 1)%nat st tr) as Hb.
      rewrite H1 in Hb. destruct Hb as (_ & Hmsgs & _).
      apply IH in H. rewrite Hmsgs in H. destruct H as (He & Hf & Hg).
      apply process_message_stacks in H1.
      rewrite (skipn_nth_error _ _ _ Hm). simpl unended.
      destruct m as [data| |data|fullName|data|data|data|r];
        try (destruct r);
        cbn [has_type type runtime_type String.eqb Ascii.eqb Bool.eqb] in *;
        destruct H1 as [HE HF].
      all: try (rewrite HE, HF in *; split; [exact He|split; [exact Hf|exact Hg]]).
      * destruct HE as [u HE]. rewrite HE, HF, length_app in *. simpl in *.
        rewrite Nat.add_1_r in *. split; [exact He|split; [exact Hf|exact Hg]].
      * rewrite HE, HF, length_removelast in *. rewrite Nat.sub_1_r in *.
        split; [exact He|split; [exact Hf|exact Hg]].
      * destruct HF as [HF Hgh]. rewrite HE in *. split; [exact He|]. split.
        -- etransitivity; [exact Hf|]. apply unended_monotone.
           destruct HF as [->|[h ->]]; [lia|].
           rewrite length_app. simpl. lia.
        -- intros Hhandles. rewrite (Hg Hhandles).
           destruct (Hgh Hhandles) as [h ->]. rewrite length_app. simpl.
           rewrite Nat.add_1_r. reflexivity.
      * rewrite HE, HF, length_removelast in *. rewrite Nat.sub_1_r in *.
        split; [exact He|split; [exact Hf|exact Hg]].
    + intros H. inversion H; subst st' tr'. apply Nat.ltb_ge in Hi.
      rewrite skipn_all2 by exact Hi. simpl.
      split; [reflexivity|]. split; [lia|reflexivity].
Qed.

End Stacks.

(** C1, amended. After a replay that completes, the scope stack is empty
    and no test is current.  The executable stack holds exactly as many
    handles as test starts of the log are left without their end, and the
    fixture stack at most as many as hook starts are left without theirs,
    exactly as many when the backend gives every fixture a handle.  So
    when every test start and every hook start of the log is ended, all
    three stacks are empty after the replay, on every backend.  With
    enough fuel and a backend that never fails the replay does
    complete. *)
Theorem replay_empties_stacks_of_ended_logs :
  forall (rt : ReporterRuntime) (Date_now : list Call -> Z) (fuel : nat)
         (st : AllureReportState) (tr : list Call),
    let tests_left := unended "allure:test:start" "allure:test:end" (messages st)
                              (List.length (_executablesStack st)) in
    let hooks_left := unended "allure:hook:start" "allure:hook:end" (messages st)
                              (List.length (_fixturesStack st)) in
    (forall st' tr',
        processRuntimeMessage rt Date_now fuel st tr = (Done tt, st', tr') ->
        _scopesStack st' = [] /\
        truthy (_currentTestUuid st') = false /\
        List.length (_executablesStack st') = tests_left /\
        (List.length (_fixturesStack st') <= hooks_left)%nat /\
        (fixtures_get_handles rt -> List.length (_fixturesStack st') = hooks_left) /\
        (tests_left = 0%nat -> hooks_left = 0%nat ->
         _scopesStack st' = [] /\ _executablesStack st' = [] /\ _fixturesStack st' = [])) /\
    ((enough_fuel st <= fuel)%nat -> never_fails rt ->
     exists st' tr', processRuntimeMessage rt Date_now fuel st tr = (Done tt, st', tr')).
Proof.
  intros rt Date_now fuel st tr tests_left hooks_left. split.
  - intros st' tr'. unfold processRuntimeMessage. unfold bind at 1.
    destruct (for_messages rt Date_now fuel fuel 0 st tr) as [[o1 st1] tr1] eqn:Hloop.
    destruct o1 as [[]| |]; try discriminate.
    intros Hdrain. apply drain_done in Hdrain.
    destruct Hdrain as (H1 & H2 & H3 & H4).
    apply for_messages_stacks in Hloop. simpl skipn in Hloop.
    destruct Hloop as (He & Hf & Hg). rewrite <- H3 in He. rewrite <- H4 in Hf, Hg.
    split; [exact H1|]. split; [exact H2|]. split; [exact He|].
    split; [exact Hf|]. split; [exact Hg|].
    intros Ht Hh. split; [exact H1|]. split.
    + apply length_zero_iff_nil. rewrite He. exact Ht.
    + apply length_zero_iff_nil. unfold hooks_left in Hh. lia.
  - intros Hfuel Hn.
    pose proof (processRuntimeMessage_terminates rt Date_now fuel st tr Hfuel) as H.
    destruct (processRuntimeMessage rt Date_now fuel st tr) as [[o st'] tr'].
    destruct H as (_ & Hdone & _). rewrite (Hdone Hn). exists st', tr'. reflexivity.
Qed.

Lemma replay_empties_stacks_of_ended_logs_witness :
  exists st' tr',
    processRuntimeMessage counting_runtime ticking_clock 6 (session round_trip_log) [] =
      (Done tt, st', tr') /\
    _scopesStack st' = [] /\ _executablesStack st' = [] /\ _fixturesStack st' = [].
Proof.
  destruct (replay_empties_stacks_of_ended_logs
              counting_runtime ticking_clock 6 (session round_trip_log) [])
    as [Hclosed Hcompletes].
  destruct Hcompletes as (st' & tr' & Hrun).
  - vm_compute. lia.
  - intros history c. reflexivity.
  - exists st', tr'. split; [exact Hrun|].
    destruct (Hclosed st' tr' Hrun) as (_ & _ & _ & _ & _ & Hempty).
    apply Hempty; reflexivity.
Defined.

(* ------------------------------------------------------------------ *)
(** ** The session registry *)

Section MapFacts.

Context {K V : Type}.
Variable eqb : K -> K -> bool.
Hypothesis eqb_eq : forall a b, eqb a b = true <-> a = b.

Lemma eqb_same (k : K) : eqb k k = true.
Proof. apply eqb_eq. reflexivity. Qed.

Lemma eqb_differ (a b : K) : a <> b -> eqb a b = false /\ eqb b a = false.
Proof.
  intros Hne. split.
  - destruct (eqb a b) eqn:H; [|reflexivity]. apply eqb_eq in H. contradiction.
  - destruct (eqb b a) eqn:H; [|reflexivity]. apply eqb_eq in H. congruence.
Qed.

Lemma Map_get_set_same (k : K) (v : V) (m : list (K * V)) :
  Map_get eqb k (Map_set eqb k v m) = Some v.
Proof.
  induction m as [|[k' v'] m IH]; simpl.
  - rewrite eqb_same. reflexivity.
  - destruct (eqb k' k) eqn:Hk; simpl.
    + rewrite eqb_same. reflexivity.
    + rewrite Hk. exact IH.
Qed.

Lemma Map_get_set_other (k k' : K) (v : V) (m : list (K * V)) :
  k' <> k -> Map_get eqb k' (Map_set eqb k v m) = Map_get eqb k' m.
Proof.
  intros Hne. destruct (eqb_differ k' k Hne) as [_ Hkk'].
  induction m as [|[k0 v0] m IH]; simpl.
  - rewrite Hkk'. reflexivity.
  - destruct (eqb k0 k) eqn:Hk; simpl.
    + apply eqb_eq in Hk. subst k0. rewrite Hkk'. reflexivity.
    + rewrite IH. reflexivity.
Qed.

Lemma Map_set_keys (k : K) (v : V) (m : list (K * V)) :
  map fst (Map_set eqb k v m) =
  if Map_has eqb k m then map fst m else map fst m ++ [k].
Proof.
  unfold Map_has. induction m as [|[k' v'] m IH]; simpl; [reflexivity|].
  destruct (eqb k' k) eqn:Hk; simpl.
  - apply eqb_eq in Hk. subst k'. reflexivity.
  - rewrite IH. destruct (Map_get eqb k m); reflexivity.
Qed.

Lemma Map_has_in (k : K) (m : list (K * V)) :
  Map_has eqb k m = false -> ~ In k (map fst m).
Proof.
  unfold Map_has. induction m as [|[k' v'] m IH]; simpl; [intros _ []|].
  destruct (eqb k' k) eqn:Hk; [discriminate|].
  intros H [Heq|Hin].
  - subst k'. rewrite eqb_same in Hk. discriminate.
  - exact (IH H Hin).
Qed.

Lemma Map_set_well_keyed (k : K) (v : V) (m : list (K * V)) :
  well_keyed m -> well_keyed (Map_set eqb k v m).
Proof.
  unfold well_keyed. intros Hm. rewrite Map_set_keys.
  destruct (Map_has eqb k m) eqn:Hk; [exact Hm|].
  apply NoDup_app; [exact Hm|repeat constructor; intros []|].
  intros x Hx [<-|[]]. exact (Map_has_in k m Hk Hx).
Qed.

End MapFacts.

(** What a push does to the session of the current worker. *)
Lemma push_current_session (DEFAULT_CID : string) (r : AllureReporter)
      (message : WDIORuntimeMessage) :
  exists r',
    _pushRuntimeMessage DEFAULT_CID message r = Some r' /\
    Map_get String.eqb (_currentCid DEFAULT_CID r) (allureStatesByCid r') =
      Some (pushRuntimeMessage
              (match Map_get String.eqb (_currentCid DEFAULT_CID r) (allureStatesByCid r) with
               | Some state => state
               | None => new_state
               end) message) /\
    _currentCid DEFAULT_CID r' = _currentCid DEFAULT_CID r.
Proof.
  unfold _pushRuntimeMessage, _ensureState, Map_has.
  destruct (Map_get String.eqb (_currentCid DEFAULT_CID r) (allureStatesByCid r)) as [state|] eqn:Hget;
    simpl.
  - rewrite Hget. eexists. split; [reflexivity|]. simpl.
    split; [apply (Map_get_set_same String.eqb String.eqb_eq)|reflexivity].
  - rewrite (Map_get_set_same String.eqb String.eqb_eq). eexists. split; [reflexivity|]. simpl.
    split; [apply (Map_get_set_same String.eqb String.eqb_eq)|reflexivity].
Qed.

(** X11. Pushing a message never throws.  It appends the message to the
    log of the current worker's session, which is created empty at the
    end of the registry if the worker had none, and it leaves the session
    of every other worker, the order of the registry and the other fields
    of the reporter as they were. *)
Theorem push_reaches_only_current_session :
  forall (DEFAULT_CID : string) (r : AllureReporter) (message : WDIORuntimeMessage),
    let cid := _currentCid DEFAULT_CID r in
    let before := match Map_get String.eqb cid (allureStatesByCid r) with
                  | Some state => state
                  | None => new_state
                  end in
    exists r',
      _pushRuntimeMessage DEFAULT_CID message r = Some r' /\
      Map_get String.eqb cid (allureStatesByCid r') = Some (pushRuntimeMessage before message) /\
      (forall other, other <> cid ->
                     Map_get String.eqb other (allureStatesByCid r') =
                     Map_get String.eqb other (allureStatesByCid r)) /\
      map fst (allureStatesByCid r') =
        (if Map_has String.eqb cid (allureStatesByCid r)
         then map fst (allureStatesByCid r)
         else map fst (allureStatesByCid r) ++ [cid]) /\
      (well_keyed (allureStatesByCid r) -> well_keyed (allureStatesByCid r')) /\
      _currentCid DEFAULT_CID r' = cid /\
      _isFlushing r' = _isFlushing r.
Proof.
  intros DEFAULT_CID r message cid before.
  unfold _pushRuntimeMessage, _ensureState. fold cid.
  unfold Map_has in *. subst before.
  destruct (Map_get String.eqb cid (allureStatesByCid r)) as [state|] eqn:Hget; simpl.
  - rewrite Hget. eexists. split; [reflexivity|]. simpl.
    split; [apply (Map_get_set_same String.eqb String.eqb_eq)|].
    split; [intros other Hne; apply (Map_get_set_other String.eqb String.eqb_eq); exact Hne|].
    split; [rewrite (Map_set_keys String.eqb String.eqb_eq); unfold Map_has; rewrite Hget; reflexivity|].
    split; [apply (Map_set_well_keyed String.eqb String.eqb_eq)|]. split; reflexivity.
  - rewrite (Map_get_set_same String.eqb String.eqb_eq). eexists. split; [reflexivity|]. simpl.
    split; [apply (Map_get_set_same String.eqb String.eqb_eq)|].
    split; [intros other Hne; rewrite !(Map_get_set_other String.eqb String.eqb_eq) by exact Hne; reflexivity|].
    split.
    + rewrite !(Map_set_keys String.eqb String.eqb_eq). unfold Map_has. rewrite Hget, (Map_get_set_same String.eqb String.eqb_eq). reflexivity.
    + split; [intros Hk; apply (Map_set_well_keyed String.eqb String.eqb_eq), (Map_set_well_keyed String.eqb String.eqb_eq); exact Hk|].
      split; reflexivity.
Qed.

(** X12. The reporter's pending-test query is undefined while the current
    worker has no session, true right after a test start has been pushed
    and false right after a test end has been pushed, whatever the other
    workers' sessions hold. *)
Theorem reporter_pending_test_follows_pushes :
  forall (DEFAULT_CID : string) (r : AllureReporter),
    (Map_has String.eqb (_currentCid DEFAULT_CID r) (allureStatesByCid r) = false ->
     _hasPendingTest DEFAULT_CID r = None) /\
    (forall data,
        exists r', _pushRuntimeMessage DEFAULT_CID (allure_test_start data) r = Some r' /\
                   _hasPendingTest DEFAULT_CID r' = Some true) /\
    (forall data,
        exists r', _pushRuntimeMessage DEFAULT_CID (allure_test_end data) r = Some r' /\
                   _hasPendingTest DEFAULT_CID r' = Some false).
Proof.
  intros DEFAULT_CID r. split; [|split].
  - unfold Map_has, _hasPendingTest.
    destruct (Map_get _ _); [discriminate|reflexivity].
  - intros data.
    destruct (push_current_session DEFAULT_CID r (allure_test_start data))
      as (r' & Hpush & Hget & Hcid).
    exists r'. split; [exact Hpush|].
    unfold _hasPendingTest. rewrite Hcid, Hget. f_equal.
    unfold hasPendingTest. simpl. unfold push. rewrite !findLastIndex_snoc. simpl.
    apply Z.gtb_lt.
    match goal with
    | |- findLastIndex ?log ?p < _ =>
        pose proof (findLastIndex_last_index p log) as H
    end.
    destruct H as [[H _]|(i & x & H & Hi & _)]; [lia|].
    apply nth_error_in_range in Hi. lia.
  - intros data.
    destruct (push_current_session DEFAULT_CID r (allure_test_end data))
      as (r' & Hpush & Hget & Hcid).
    exists r'. split; [exact Hpush|].
    unfold _hasPendingTest. rewrite Hcid, Hget. f_equal.
    unfold hasPendingTest. simpl. unfold push. rewrite !findLastIndex_snoc. simpl.
    match goal with
    | |- (findLastIndex ?log ?p >? ?n) = false =>
        pose proof (findLastIndex_last_index p log) as H;
        destruct (findLastIndex log p >? n) eqn:Hgt; [|reflexivity]
    end.
    apply Z.gtb_lt in Hgt.
    destruct H as [[H _]|(i & x & H & Hi & _)]; [lia|].
    apply nth_error_in_range in Hi. lia.
Qed.

Lemma reporter_pending_test_follows_pushes_witness :
  _hasPendingTest "0-0" (mkReporter None [] false false false) = None.
Proof.
  apply (proj1 (reporter_pending_test_follows_pushes
                  "0-0" (mkReporter None [] false false false))).
  reflexivity.
Defined.

(* ------------------------------------------------------------------ *)
(** ** The end of the run *)

Section Flush.

Variable rt : ReporterRuntime.
Variable Date_now : list Call -> Z.

(** Once the first sessions have been replayed and removed, the loop
    goes on with the others. *)
Lemma flush_app (fuel : nat) (first others : list (string * AllureReportState)) :
  forall tr tr1,
    flush rt Date_now fuel first tr = (Done tt, [], tr1) ->
    flush rt Date_now fuel (first ++ others) tr = flush rt Date_now fuel others tr1.
Proof.
  induction first as [|[cid state] first IH]; intros tr tr1; simpl.
  - intros H. inversion H; subst. reflexivity.
  - destruct (processRuntimeMessage rt Date_now fuel state tr) as [[o st'] tr'].
    destruct o as [[]| |]; try discriminate. apply IH.
Qed.

(** The loop completes exactly when it leaves no entry. *)
Lemma flush_done_iff_empty (fuel : nat) :
  forall entries tr o left tr',
    flush rt Date_now fuel entries tr = (o, left, tr') ->
    (o = Done tt <-> left = []).
Proof.
  induction entries as [|[cid state] rest IH]; intros tr o left tr'; simpl.
  - intros H. inversion H; subst. split; reflexivity.
  - destruct (processRuntimeMessage rt Date_now fuel state tr) as [[o1 st1] tr1].
    destruct o1 as [[]| |].
    + apply IH.
    + intros H. inversion H; subst. split; discriminate.
    + intros H. inversion H; subst. split; discriminate.
Qed.

Lemma flush_completes (fuel : nat) :
  never_fails rt ->
  forall entries tr,
    (forall cid state, In (cid, state) entries -> (enough_fuel state <= fuel)%nat) ->
    flush rt Date_now fuel entries tr =
      (Done tt, [], replayed_in_turn rt Date_now fuel entries tr).
Proof.
  intros Hn. induction entries as [|[cid state] rest IH]; intros tr Hfuel; simpl.
  - reflexivity.
  - pose proof (processRuntimeMessage_terminates rt Date_now fuel state tr
                  (Hfuel cid state (or_introl eq_refl))) as H.
    destruct (processRuntimeMessage rt Date_now fuel state tr) as [[o st'] tr'].
    destruct H as (_ & Hdone & _). rewrite (Hdone Hn). simpl.
    apply IH. intros c s Hin. apply (Hfuel c s). right. exact Hin.
Qed.

End Flush.

(** X13. However the flush of the sessions ends, [onRunnerEnd] leaves the
    reporter synchronised again (the flushing flag is reset in the
    [finally] block), restores the standard output when console logs were
    captured, and keeps the worker id.  It asks for the environment info
    exactly when it leaves the registry empty, and its promise can only
    resolve in that case. *)
Theorem onRunnerEnd_always_resets :
  forall (rt : ReporterRuntime) (Date_now : list Call -> Z)
         (environment_fails : list Call -> bool) (fuel : nat)
         (r : AllureReporter) (tr : list Call),
    let e := onRunnerEnd rt Date_now environment_fails fuel r tr in
    isSynchronised (reporter e) = true /\
    (addConsoleLogs r = true -> stdout_patched (reporter e) = false) /\
    (addConsoleLogs r = false -> stdout_patched (reporter e) = stdout_patched r) /\
    _cid (reporter e) = _cid r /\
    (environment_info_requested e = true <-> allureStatesByCid (reporter e) = []) /\
    (settled e = Done tt -> allureStatesByCid (reporter e) = []).
Proof.
  intros rt Date_now environment_fails fuel r tr e. subst e. unfold onRunnerEnd.
  pose proof (flush_done_iff_empty rt Date_now fuel (allureStatesByCid r) tr) as Hiff.
  destruct (flush rt Date_now fuel (allureStatesByCid r) tr) as [[o left] tr'].
  specialize (Hiff o left tr' eq_refl).
  destruct o as [[]| |].
  - destruct (environment_fails tr'); simpl;
      (split; [reflexivity|]); (split; [intros ->; reflexivity|]);
      (split; [intros ->; reflexivity|]); (split; [reflexivity|]);
      (split; [split; intros _; [apply Hiff|]; reflexivity|]);
      intros _; apply Hiff; reflexivity.
  - simpl. split; [reflexivity|]. split; [intros ->; reflexivity|].
    split; [intros ->; reflexivity|]. split; [reflexivity|].
    split; [|discriminate].
    split; [discriminate|]. intros H. apply Hiff in H. discriminate.
  - simpl. split; [reflexivity|]. split; [intros ->; reflexivity|].
    split; [intros ->; reflexivity|]. split; [reflexivity|].
    split; [|discriminate].
    split; [discriminate|]. intros H. apply Hiff in H. discriminate.
Qed.

Lemma onRunnerEnd_always_resets_witness :
  stdout_patched
    (reporter (onRunnerEnd stop_failing_runtime ticking_clock (fun _ => false) 2
                           two_workers [])) = false.
Proof.
  apply (onRunnerEnd_always_resets stop_failing_runtime ticking_clock (fun _ => false) 2
                                   two_workers []).
  reflexivity.
Defined.

(** X14. When the replay of a session fails, [onRunnerEnd] rejects there:
    the sessions before it have been replayed and removed, the failed
    session stays registered as the replay left it, the sessions after it
    stay registered untouched and none of their calls is made, and the
    environment info is not asked for. *)
Theorem onRunnerEnd_stops_at_failed_session :
  forall (rt : ReporterRuntime) (Date_now : list Call -> Z)
         (environment_fails : list Call -> bool) (fuel : nat)
         (r : AllureReporter) (tr tr1 tr2 : list Call)
         (first later : list (string * AllureReportState))
         (cid : string) (state state' : AllureReportState),
    allureStatesByCid r = first ++ (cid, state) :: later ->
    flush rt Date_now fuel first tr = (Done tt, [], tr1) ->
    processRuntimeMessage rt Date_now fuel state tr1 = (Failed, state', tr2) ->
    let e := onRunnerEnd rt Date_now environment_fails fuel r tr in
    settled e = Failed /\
    allureStatesByCid (reporter e) = (cid, state') :: later /\
    backend_calls e = tr2 /\
    environment_info_requested e = false /\
    isSynchronised (reporter e) = true.
Proof.
  intros rt Date_now environment_fails fuel r tr tr1 tr2 first later cid state state'
         Hentries Hfirst Hfail e.
  subst e. unfold onRunnerEnd. rewrite Hentries.
  rewrite (flush_app rt Date_now fuel first ((cid, state) :: later) tr tr1 Hfirst).
  simpl. rewrite Hfail. simpl. repeat split.
Qed.

Lemma onRunnerEnd_stops_at_failed_session_witness :
  let e := onRunnerEnd stop_failing_runtime ticking_clock (fun _ => false) 2
                       (mkReporter (Some "0-1")
                                   [("0-0", session []);
                                    ("0-1", session [allure_test_start (mkTestStart "A" 1);
                                                     passed_at 4]);
                                    ("0-2", session [allure_test_start (mkTestStart "B" 1)])]
                                   false true true) [] in
  settled e = Failed /\
  map fst (allureStatesByCid (reporter e)) = ["0-1"; "0-2"] /\
  environment_info_requested e = false.
Proof.
  destruct (onRunnerEnd_stops_at_failed_session
              stop_failing_runtime ticking_clock (fun _ => false) 2
              (mkReporter (Some "0-1")
                          [("0-0", session []);
                           ("0-1", session [allure_test_start (mkTestStart "A" 1);
                                            passed_at 4]);
                           ("0-2", session [allure_test_start (mkTestStart "B" 1)])]
                          false true true)
              [] _ _ [("0-0", session [])]
              [("0-2", session [allure_test_start (mkTestStart "B" 1)])]
              "0-1" (session [allure_test_start (mkTestStart "A" 1); passed_at 4]) _
              eq_refl eq_refl eq_refl)
    as (H1 & H2 & _ & H4 & _).
  split; [exact H1|]. split; [rewrite H2; reflexivity|exact H4].
Defined.

(** X15. On a backend that never fails, with fuel for every session,
    [onRunnerEnd] resolves: every session has been replayed in the order
    of the registry, each in full before the next starts, the registry is
    empty, and the environment info has been asked for. *)
Theorem onRunnerEnd_flushes_every_session :
  forall (rt : ReporterRuntime) (Date_now : list Call -> Z) (fuel : nat)
         (r : AllureReporter) (tr : list Call),
    never_fails rt ->
    (forall cid state, In (cid, state) (allureStatesByCid r) ->
                       (enough_fuel state <= fuel)%nat) ->
    let e := onRunnerEnd rt Date_now (fun _ => false) fuel r tr in
    settled e = Done tt /\
    allureStatesByCid (reporter e) = [] /\
    backend_calls e = replayed_in_turn rt Date_now fuel (allureStatesByCid r) tr /\
    environment_info_requested e = true.
Proof.
  intros rt Date_now fuel r tr Hn Hfuel e. subst e. unfold onRunnerEnd.
  rewrite (flush_completes rt Date_now fuel Hn (allureStatesByCid r) tr Hfuel).
  simpl. repeat split.
Qed.

Lemma onRunnerEnd_flushes_every_session_witness :
  let e := onRunnerEnd counting_runtime ticking_clock (fun _ => false) 2 two_workers [] in
  settled e = Done tt /\ allureStatesByCid (reporter e) = [] /\
  backend_calls e = [startScope; startTest "A" 1 ["scope#0"];
                     writeScope "scope#0"; writeTest "test:A"].
Proof.
  destruct (onRunnerEnd_flushes_every_session
              counting_runtime ticking_clock 2 two_workers [])
    as (H1 & H2 & H3 & _).
  - intros history c. reflexivity.
  - intros cid state [H|[H|[]]]; inversion H; subst; vm_compute; lia.
  - split; [exact H1|]. split; [exact H2|]. rewrite H3. reflexivity.
Defined.

(* ------------------------------------------------------------------ *)
(** ** Normalising selectors and titles *)

Section Runs.

Variable p : N -> bool.
Variable r : N.
Hypothesis r_in_class : p r = true.

Lemma replace_runs_canonical (s : jsstring) :
  forall after, canonical p r after (replace_runs p r after s) = true.
Proof.
  induction s as [|c s IH]; intros after; simpl; [reflexivity|].
  destruct (p c) eqn:Hc.
  - destruct after; [apply IH|].
    simpl. rewrite r_in_class, N.eqb_refl, IH. reflexivity.
  - simpl. rewrite Hc. apply IH.
Qed.

Lemma canonical_fixed (s : jsstring) :
  forall after, canonical p r after s = true -> replace_runs p r after s = s.
Proof.
  induction s as [|c s IH]; intros after; simpl; [reflexivity|].
  destruct (p c) eqn:Hc.
  - intros H. apply andb_true_iff in H. destruct H as [H Htail].
    apply andb_true_iff in H. destruct H as [Hafter Heq].
    apply negb_true_iff in Hafter. apply N.eqb_eq in Heq. subst after c.
    rewrite IH by exact Htail. reflexivity.
  - intros H. rewrite IH by exact H. reflexivity.
Qed.

Lemma canonical_weaken (s : jsstring) :
  canonical p r true s = true -> canonical p r false s = true.
Proof.
  destruct s as [|c s]; simpl; [reflexivity|].
  destruct (p c); [discriminate|]. intros H. exact H.
Qed.

Lemma canonical_anywhere (after : bool) (s : jsstring) :
  canonical p r after s = true -> canonical p r false s = true.
Proof. destruct after; [apply canonical_weaken|intros H; exact H]. Qed.

Lemma canonical_tail (after : bool) (c : N) (s : jsstring) :
  canonical p r after (c :: s) = true -> canonical p r false s = true.
Proof.
  simpl. destruct (p c).
  - intros H. apply andb_true_iff in H. destruct H as [_ H].
    apply canonical_weaken. exact H.
  - intros H. exact H.
Qed.

Lemma canonical_trimStart (s : jsstring) :
  forall after, canonical p r after s = true -> canonical p r false (trimStart s) = true.
Proof.
  induction s as [|c s IH]; intros after H; simpl; [reflexivity|].
  destruct (is_space c).
  - apply (IH false). exact (canonical_tail after c s H).
  - exact (canonical_anywhere after _ H).
Qed.

Lemma canonical_trimEnd (s : jsstring) :
  forall after, canonical p r after s = true -> canonical p r after (trimEnd s) = true.
Proof.
  induction s as [|c s IH]; intros after H; simpl; [reflexivity|].
  simpl in H.
  destruct (trimEnd s) as [|x rest] eqn:Hend.
  - destruct (is_space c); [reflexivity|]. simpl.
    destruct (p c); [|reflexivity].
    apply andb_true_iff in H. destruct H as [H _]. rewrite H. reflexivity.
  - change (canonical p r after (c :: x :: rest)) with
      (if p c then negb after && (c =? r)%N && canonical p r true (x :: rest)
       else canonical p r false (x :: rest)).
    destruct (p c).
    + apply andb_true_iff in H. destruct H as [H Htail].
      rewrite H. exact (IH true Htail).
    + exact (IH false H).
Qed.

Lemma canonical_units (s : jsstring) :
  forall after, canonical p r after s = true -> Forall (fun c => p c = true -> c = r) s.
Proof.
  induction s as [|c s IH]; intros after H; [constructor|].
  simpl in H. destruct (p c) eqn:Hc.
  - apply andb_true_iff in H. destruct H as [H Htail].
    apply andb_true_iff in H. destruct H as [_ Heq]. apply N.eqb_eq in Heq.
    constructor; [intros _; exact Heq|exact (IH true Htail)].
  - constructor; [intros Hp; rewrite Hc in Hp; discriminate Hp|exact (IH false H)].
Qed.

End Runs.

(** Collapsing the runs of slashes keeps the white space canonical: a
    run of slashes gives way to one slash, so it never brings two spaces
    together. *)
Lemma slashes_keep_spaces (s : jsstring) :
  forall after in_run,
    (after && in_run)%bool = false ->
    canonical is_space 32 after s = true ->
    canonical is_space 32 after (replace_runs is_slash 47 in_run s) = true.
Proof.
  induction s as [|c s IH]; intros after in_run Hstate H; simpl; [reflexivity|].
  simpl in H. destruct (is_slash c) eqn:Hslash.
  - assert (is_space c = false) as Hspace.
    { unfold is_slash in Hslash. apply orb_true_iff in Hslash.
      destruct Hslash as [Hc|Hc]; apply N.eqb_eq in Hc; subst c; reflexivity. }
    rewrite Hspace in H. destruct in_run.
    + destruct after; [discriminate|]. apply IH; [reflexivity|exact H].
    + simpl. apply IH; [reflexivity|exact H].
  - simpl. destruct (is_space c).
    + apply andb_true_iff in H. destruct H as [H Htail]. rewrite H.
      apply IH; [reflexivity|exact Htail].
    + apply IH; [reflexivity|exact H].
Qed.

Lemma trimEnd_idempotent (s : jsstring) : trimEnd (trimEnd s) = trimEnd s.
Proof.
  induction s as [|c s IH]; simpl; [reflexivity|].
  destruct (trimEnd s) as [|x rest] eqn:Hend.
  - destruct (is_space c) eqn:Hc; simpl; [reflexivity|]. rewrite Hc. reflexivity.
  - change (trimEnd (c :: x :: rest)) with
      (match trimEnd (x :: rest) with
       | [] => if is_space c then [] else [c]
       | rest' => c :: rest'
       end).
    rewrite IH. reflexivity.
Qed.

Lemma trimStart_fixed (c : N) (s : jsstring) :
  is_space c = false -> trimStart (c :: s) = c :: s.
Proof. intros Hc. simpl. rewrite Hc. reflexivity. Qed.

Lemma trimStart_head (s : jsstring) :
  trimStart s = [] \/ exists c t, trimStart s = c :: t /\ is_space c = false.
Proof.
  induction s as [|c s IH]; simpl; [left; reflexivity|].
  destruct (is_space c) eqn:Hc; [exact IH|].
  right. exists c, s. split; [reflexivity|exact Hc].
Qed.

Lemma trimEnd_keeps_head (c : N) (s : jsstring) :
  is_space c = false -> exists t, trimEnd (c :: s) = c :: t.
Proof.
  intros Hc. simpl. destruct (trimEnd s) as [|x rest].
  - rewrite Hc. exists []. reflexivity.
  - exists (x :: rest). reflexivity.
Qed.

Lemma trim_idempotent (s : jsstring) : trim (trim s) = trim s.
Proof.
  unfold trim. destruct (trimStart_head s) as [->|(c & t & -> & Hc)]; [reflexivity|].
  destruct (trimEnd_keeps_head c t Hc) as (t' & Hend).
  rewrite Hend, (trimStart_fixed c t' Hc), <- Hend. apply trimEnd_idempotent.
Qed.

Lemma normalize_canonical (s : jsstring) :
  canonical is_space 32 false (normalize s) = true /\
  canonical is_slash 47 false (normalize s) = true.
Proof.
  unfold normalize, trim. split.
  - apply canonical_trimEnd. apply (canonical_trimStart is_space 32 _ false).
    apply slashes_keep_spaces; [reflexivity|].
    apply replace_runs_canonical. reflexivity.
  - apply canonical_trimEnd. apply (canonical_trimStart is_slash 47 _ false).
    apply replace_runs_canonical. reflexivity.
Qed.

(** X16. Normalising is idempotent: a normalised selector or title is its
    own normal form, so the normalised key stored in the plan is found
    again by normalising it once more. *)
Theorem normalize_idempotent :
  forall s : jsstring, normalize (normalize s) = normalize s.
Proof.
  intros s. destruct (normalize_canonical s) as [Hspace Hslash].
  unfold normalize at 1.
  rewrite (canonical_fixed is_space 32 _ false Hspace).
  rewrite (canonical_fixed is_slash 47 _ false Hslash).
  unfold normalize. apply trim_idempotent.
Qed.

(** X17. A normalised string holds no backslash, no white space other
    than the plain space, no two slashes and no two spaces next to each
    other, and neither starts nor ends with a space. *)
Theorem normalize_shape :
  forall s : jsstring,
    let n := normalize s in
    ~ In 92%N n /\
    Forall (fun c => is_space c = true -> c = 32%N) n /\
    canonical is_space 32 false n = true /\
    canonical is_slash 47 false n = true /\
    trim n = n.
Proof.
  intros s n. subst n. destruct (normalize_canonical s) as [Hspace Hslash].
  split; [|split; [|split; [exact Hspace|split; [exact Hslash|]]]].
  - intros Hin.
    pose proof (canonical_units is_slash 47 _ false Hslash) as Hall.
    rewrite Forall_forall in Hall. specialize (Hall _ Hin eq_refl). discriminate.
  - exact (canonical_units is_space 32 _ false Hspace).
  - unfold normalize. apply trim_idempotent.
Qed.

(* ------------------------------------------------------------------ *)
(** ** Strings as keys *)

Lemma units_eqb_eq (a b : jsstring) : units_eqb a b = true <-> a = b.
Proof.
  revert b. induction a as [|x a IH]; intros [|y b]; simpl;
    try (split; [discriminate|discriminate]); [split; reflexivity|].
  rewrite andb_true_iff, N.eqb_eq, IH. split.
  - intros [-> ->]. reflexivity.
  - intros H. injection H as -> ->. split; reflexivity.
Qed.

Lemma startsWith_app (s prefix : jsstring) :
  startsWith s prefix = true <-> exists rest, s = prefix ++ rest.
Proof.
  revert s. induction prefix as [|x prefix IH]; intros s; simpl.
  - split; [intros _; exists s; reflexivity|intros _; destruct s; reflexivity].
  - destruct s as [|y s].
    + split; [discriminate|intros [rest H]; discriminate H].
    + change (startsWith (y :: s) (x :: prefix))
        with ((x =? y)%N && startsWith s prefix)%bool.
      rewrite andb_true_iff, N.eqb_eq, IH. split.
      * intros [-> [rest ->]]. exists rest. reflexivity.
      * intros [rest H]. injection H as -> ->. split; [reflexivity|].
        exists rest. reflexivity.
Qed.

Lemma endsWith_app (s suffix : jsstring) :
  endsWith s suffix = true <-> exists front, s = front ++ suffix.
Proof.
  unfold endsWith. rewrite startsWith_app. split.
  - intros [rest H]. exists (rev rest).
    rewrite <- (rev_involutive s), H, rev_app_distr, rev_involutive. reflexivity.
  - intros [front ->]. exists (rev front). apply rev_app_distr.
Qed.

Lemma Map_set_in {K V : Type} (eqb : K -> K -> bool) (k : K) (v : V)
      (m : list (K * V)) (e : K * V) :
  In e (Map_set eqb k v m) -> e = (k, v) \/ In e m.
Proof.
  induction m as [|[k' v'] m IH]; simpl.
  - intros [<-|[]]. left. reflexivity.
  - destruct (eqb k' k); simpl.
    + intros [<-|H]; [left; reflexivity|right; right; exact H].
    + intros [<-|H]; [right; left; reflexivity|].
      destruct (IH H) as [->|Hin]; [left; reflexivity|right; right; exact Hin].
Qed.

Lemma Map_get_in (k v : jsstring) (m : list (jsstring * jsstring)) :
  Map_get units_eqb k m = Some v -> In (k, v) m.
Proof.
  induction m as [|[k' v'] m IH]; simpl; [discriminate|].
  destruct (units_eqb k' k) eqn:Hk.
  - intros H. injection H as ->. apply units_eqb_eq in Hk. subst k'.
    left. reflexivity.
  - intros H. right. exact (IH H).
Qed.

Lemma Set_add_in (x : jsstring) (s : list jsstring) : In x (Set_add x s).
Proof.
  unfold Set_add. destruct (existsb (units_eqb x) s) eqn:H.
  - apply existsb_exists in H. destruct H as (y & Hin & Heq).
    apply units_eqb_eq in Heq. subst y. exact Hin.
  - apply in_or_app. right. left. reflexivity.
Qed.

Lemma Set_add_keeps (x y : jsstring) (s : list jsstring) :
  In y s -> In y (Set_add x s).
Proof.
  unfold Set_add. destruct (existsb (units_eqb x) s); [intros H; exact H|].
  intros H. apply in_or_app. left. exact H.
Qed.

(* ------------------------------------------------------------------ *)
(** ** Loading and matching the test plan *)

Section PlanFacts.

Variable number : Type.
Variable number_to_string : number -> jsstring.
Variable relative_to_cwd : jsstring -> jsstring.
Variable basename : jsstring -> jsstring.

Local Abbreviation Test := (PlanTest number).
Local Abbreviation id_of t := (String_of_id number number_to_string (id number t)).
Local Abbreviation index := (index_test number number_to_string).
Local Abbreviation plan_at := (plan_of number number_to_string).
Local Abbreviation load := (loadTestPlan number number_to_string).
Local Abbreviation matching := (matchInPlan relative_to_cwd basename).

Lemma index_skips (acc : list (jsstring * jsstring) * list jsstring) (t : Test) :
  listed_selector t = [] -> index acc t = acc.
Proof. unfold listed_selector, index_test. intros ->. reflexivity. Qed.

Lemma index_sets (acc : list (jsstring * jsstring) * list jsstring) (t : Test) :
  listed_selector t <> [] ->
  index acc t =
  (Map_set units_eqb (normalize (listed_selector t)) (id_of t)
           (Map_set units_eqb (listed_selector t) (id_of t) (fst acc)),
   Set_add (id_of t) (snd acc)).
Proof.
  unfold listed_selector, index_test.
  destruct (trim _) as [|c s]; [intros H; contradiction H; reflexivity|reflexivity].
Qed.

Lemma index_get_own (acc : list (jsstring * jsstring) * list jsstring) (t : Test)
      (k : jsstring) :
  listed_selector t <> [] ->
  k = listed_selector t \/ k = normalize (listed_selector t) ->
  Map_get units_eqb k (fst (index acc t)) = Some (id_of t).
Proof.
  intros Hsel Hk. rewrite (index_sets acc t Hsel). simpl.
  destruct Hk as [->| ->].
  - destruct (units_eqb (listed_selector t) (normalize (listed_selector t))) eqn:Heq.
    + apply units_eqb_eq in Heq. rewrite <- Heq.
      apply (Map_get_set_same units_eqb units_eqb_eq).
    + rewrite (Map_get_set_other units_eqb units_eqb_eq).
      * apply (Map_get_set_same units_eqb units_eqb_eq).
      * intros H. rewrite <- H in Heq.
        rewrite (eqb_same units_eqb units_eqb_eq) in Heq. discriminate.
  - apply (Map_get_set_same units_eqb units_eqb_eq).
Qed.

Lemma index_get_other (acc : list (jsstring * jsstring) * list jsstring) (t : Test)
      (k : jsstring) :
  (listed_selector t = [] \/
   (k <> listed_selector t /\ k <> normalize (listed_selector t))) ->
  Map_get units_eqb k (fst (index acc t)) = Map_get units_eqb k (fst acc).
Proof.
  intros [Hempty|[H1 H2]]; [rewrite (index_skips acc t Hempty); reflexivity|].
  destruct (listed_selector t) as [|c s] eqn:Hsel.
  - rewrite (index_skips acc t Hsel). reflexivity.
  - rewrite (index_sets acc t) by (rewrite Hsel; discriminate). simpl.
    rewrite Hsel.
    rewrite (Map_get_set_other units_eqb units_eqb_eq) by exact H2.
    apply (Map_get_set_other units_eqb units_eqb_eq). exact H1.
Qed.

Lemma later_tests_keep (post : list Test) (k : jsstring) :
  forall acc,
    (forall t', In t' post ->
                listed_selector t' = [] \/
                (k <> listed_selector t' /\ k <> normalize (listed_selector t'))) ->
    Map_get units_eqb k (fst (fold_left index post acc)) = Map_get units_eqb k (fst acc).
Proof.
  induction post as [|t' post IH]; intros acc Hpost; simpl; [reflexivity|].
  rewrite IH by (intros t'' Hin; apply Hpost; right; exact Hin).
  apply index_get_other. apply Hpost. left. reflexivity.
Qed.

Lemma indexed_lookup (p : jsstring) (pre post : list Test) (t : Test) (k : jsstring) :
  listed_selector t <> [] ->
  k = listed_selector t \/ k = normalize (listed_selector t) ->
  (forall t', In t' post ->
              listed_selector t' = [] \/
              normalize (listed_selector t') <> normalize (listed_selector t)) ->
  Map_get units_eqb k (bySelector (plan_at p (Some (pre ++ t :: post)))) = Some (id_of t).
Proof.
  intros Hsel Hk Hpost. unfold plan_of. simpl.
  rewrite fold_left_app. simpl. rewrite later_tests_keep.
  - apply index_get_own; assumption.
  - intros t' Hin. destruct (Hpost t' Hin) as [Hempty|Hne]; [left; exact Hempty|].
    right. split; intros Heq; apply Hne.
    + destruct Hk as [Hk|Hk]; rewrite Hk in Heq.
      * rewrite Heq. reflexivity.
      * rewrite <- Heq. apply normalize_idempotent.
    + destruct Hk as [Hk|Hk]; rewrite Hk in Heq.
      * rewrite Heq. symmetry. apply normalize_idempotent.
      * symmetry. exact Heq.
Qed.

Lemma indexed_values (l : list Test) (R : jsstring -> list jsstring -> Prop) :
  (forall v x ids, R v ids -> R v (Set_add x ids)) ->
  (forall t ids, In t l -> listed_selector t <> [] -> R (id_of t) (Set_add (id_of t) ids)) ->
  forall acc,
    (forall k v, In (k, v) (fst acc) -> R v (snd acc)) ->
    forall k v, In (k, v) (fst (fold_left index l acc)) ->
                R v (snd (fold_left index l acc)).
Proof.
  intros Hgrow. induction l as [|t l IH]; intros Hown acc Hacc; simpl; [exact Hacc|].
  apply IH; [intros t' ids Hin; apply Hown; right; exact Hin|].
  destruct (listed_selector t) as [|c s] eqn:Hsel.
  - rewrite (index_skips acc t Hsel). exact Hacc.
  - assert (listed_selector t <> []) as Hfilled by (rewrite Hsel; discriminate).
    rewrite (index_sets acc t Hfilled). simpl. intros k v Hin.
    apply Map_set_in in Hin. destruct Hin as [Heq|Hin].
    { injection Heq as _ ->. apply Hown; [left; reflexivity|exact Hfilled]. }
    apply Map_set_in in Hin. destruct Hin as [Heq|Hin].
    { injection Heq as _ ->. apply Hown; [left; reflexivity|exact Hfilled]. }
    apply Hgrow. exact (Hacc k v Hin).
Qed.

Lemma plan_values (p : jsstring) (tests : option (list Test)) (k v : jsstring) :
  In (k, v) (bySelector (plan_at p tests)) ->
  In v (byId (plan_at p tests)) /\
  exists t, In t (match tests with Some l => l | None => [] end) /\
            listed_selector t <> [] /\ id_of t = v.
Proof.
  unfold plan_of. simpl. set (l := match tests with Some l => l | None => [] end).
  intros Hin. split.
  - revert k v Hin.
    apply (indexed_values l (fun v ids => In v ids)).
    + intros v x ids. apply Set_add_keeps.
    + intros t ids _ _. apply Set_add_in.
    + intros k v [].
  - revert k v Hin.
    apply (indexed_values l (fun v _ =>
             exists t, In t l /\ listed_selector t <> [] /\ id_of t = v)).
    + intros v x ids H. exact H.
    + intros t ids Hin Hsel. exists t. split; [exact Hin|split; [exact Hsel|reflexivity]].
    + intros k v [].
Qed.

Lemma heuristic_scan_sound (ft : jsstring) (entries : list (jsstring * jsstring))
      (i : jsstring) :
  heuristic_scan ft entries = Some i ->
  exists sel, In (sel, i) entries /\ includes_hash sel = false /\
              (ft = normalize sel \/
               (exists front, ft = front ++ 32%N :: normalize sel) \/
               (exists rest, ft = normalize sel ++ 32%N :: rest)).
Proof.
  induction entries as [|[sel v] entries IH]; simpl; [discriminate|].
  destruct (includes_hash sel) eqn:Hhash.
  - intros H. destruct (IH H) as (sel' & Hin & Hrest).
    exists sel'. split; [right; exact Hin|exact Hrest].
  - destruct (units_eqb ft (normalize sel) || endsWith ft (32%N :: normalize sel) ||
              startsWith ft (normalize sel ++ [32%N]))%bool eqn:Hfit.
    + intros H. injection H as ->. exists sel.
      split; [left; reflexivity|split; [exact Hhash|]].
      apply orb_true_iff in Hfit. destruct Hfit as [Hfit|Hfit].
      * apply orb_true_iff in Hfit. destruct Hfit as [Hfit|Hfit].
        -- left. apply units_eqb_eq. exact Hfit.
        -- right. left. apply endsWith_app. exact Hfit.
      * right. right. apply startsWith_app in Hfit. destruct Hfit as [rest ->].
        exists rest. rewrite <- app_assoc. reflexivity.
    + intros H. destruct (IH H) as (sel' & Hin & Hrest).
      exists sel'. split; [right; exact Hin|exact Hrest].
Qed.

Lemma first_hit_sound (plan : LoadedTestPlan) (keys : list jsstring) (i : jsstring) :
  first_hit plan keys = Some i ->
  exists k, In k keys /\ In (k, i) (bySelector plan) /\ i <> [].
Proof.
  induction keys as [|k keys IH]; simpl; [discriminate|].
  destruct (Map_get units_eqb k (bySelector plan)) as [[|c hit]|] eqn:Hget.
  - intros H. destruct (IH H) as (k' & Hin & Hrest).
    exists k'. split; [right; exact Hin|exact Hrest].
  - intros H. injection H as Hi. subst i. exists k.
    split; [left; reflexivity|split; [apply Map_get_in; exact Hget|discriminate]].
  - intros H. destruct (IH H) as (k' & Hin & Hrest).
    exists k'. split; [right; exact Hin|exact Hrest].
Qed.

Lemma matched_entry (plan : LoadedTestPlan) (args : MatchableArgs) (i : jsstring) :
  matching (Some plan) args = Some i -> exists k, In (k, i) (bySelector plan).
Proof.
  destruct args as [file testPath|file fullTitle fullName]; simpl.
  - destruct (Map_get units_eqb _ (bySelector plan)) as [hit|] eqn:Hget.
    + intros H. injection H as ->. eexists. apply Map_get_in. exact Hget.
    + intros H. eexists. apply Map_get_in. exact H.
  - destruct (first_hit plan _) as [hit|] eqn:Hhit.
    + intros H. injection H as ->.
      destruct (first_hit_sound _ _ _ Hhit) as (k & _ & Hin & _).
      exists k. exact Hin.
    + unfold heuristicMatch. destruct fullTitle as [[|c title]|]; try discriminate.
      intros H. destruct (heuristic_scan_sound _ _ _ H) as (sel & Hin & _).
      exists sel. exact Hin.
Qed.

(** X18. A test listed in the plan is matched by the test-info event
    that spells its selector: when the event's [file#path] is the
    trimmed selector of a listed test or its normal form, or is no key
    of the plan but normalises as the selector does, and no later test
    of the plan has the same normalised selector, the match is the id
    of that test. *)
Theorem listed_test_is_matched :
  forall (p : jsstring) (pre post : list Test) (t : Test)
         (file : jsstring) (testPath : list jsstring),
    let plan := plan_at p (Some (pre ++ t :: post)) in
    let fn := file ++ 35%N :: join [32%N] testPath in
    listed_selector t <> [] ->
    (forall t', In t' post ->
                listed_selector t' = [] \/
                normalize (listed_selector t') <> normalize (listed_selector t)) ->
    fn = listed_selector t \/ fn = normalize (listed_selector t) \/
    (Map_get units_eqb fn (bySelector plan) = None /\
     normalize fn = normalize (listed_selector t)) ->
    matching (Some plan) (AddTestInfoEventArgs file testPath) = Some (id_of t).
Proof.
  intros p pre post t file testPath plan fn Hsel Hpost Hfn.
  change (match Map_get units_eqb fn (bySelector plan) with
          | Some hit => Some hit
          | None => Map_get units_eqb (normalize fn) (bySelector plan)
          end = Some (id_of t)).
  destruct Hfn as [Hfn|[Hfn|[Hmiss Hfn]]].
  - unfold plan. rewrite (indexed_lookup p pre post t fn Hsel (or_introl Hfn) Hpost).
    reflexivity.
  - unfold plan. rewrite (indexed_lookup p pre post t fn Hsel (or_intror Hfn) Hpost).
    reflexivity.
  - rewrite Hmiss, Hfn. unfold plan.
    apply indexed_lookup; [exact Hsel|right; reflexivity|exact Hpost].
Qed.

(** X19. Whatever the arguments, a match is the id of a test of the
    plan whose trimmed selector is not empty, and it is one of the ids
    the plan collected. *)
Theorem matched_id_is_listed :
  forall (p : jsstring) (tests : option (list Test)) (args : MatchableArgs)
         (i : jsstring),
    matching (Some (plan_at p tests)) args = Some i ->
    In i (byId (plan_at p tests)) /\
    exists t, In t (match tests with Some l => l | None => [] end) /\
              listed_selector t <> [] /\ id_of t = i.
Proof.
  intros p tests args i H. destruct (matched_entry _ _ _ H) as [k Hin].
  exact (plan_values p tests k i Hin).
Qed.

(** X20. The heuristic match never answers from a selector that holds
    a [#]: its answer is the id stored under a selector without one,
    whose normal form is the normalised title, ends it after a space,
    or starts it before a space. *)
Theorem heuristic_skips_hash_selectors :
  forall (plan : LoadedTestPlan) (fullTitle : option jsstring) (i : jsstring),
    heuristicMatch plan fullTitle = Some i ->
    exists title sel,
      fullTitle = Some title /\ title <> [] /\
      In (sel, i) (bySelector plan) /\ includes_hash sel = false /\
      (normalize title = normalize sel \/
       (exists front, normalize title = front ++ 32%N :: normalize sel) \/
       (exists rest, normalize title = normalize sel ++ 32%N :: rest)).
Proof.
  intros plan fullTitle i. unfold heuristicMatch.
  destruct fullTitle as [[|c title]|]; try discriminate.
  intros H. destruct (heuristic_scan_sound _ _ _ H) as (sel & Hin & Hhash & Hfit).
  exists (c :: title), sel.
  split; [reflexivity|split; [discriminate|]].
  split; [exact Hin|split; [exact Hhash|exact Hfit]].
Qed.

Lemma index_tests_well_formed (tests : list Test) :
  forall acc, index_tests number number_to_string (map Some tests) acc =
              Some (fold_left index tests acc).
Proof.
  induction tests as [|t tests IH]; intros acc; simpl; [reflexivity|apply IH].
Qed.

Lemma index_tests_done (elements : list (option Test)) :
  forall acc indexed,
    index_tests number number_to_string elements acc = Some indexed ->
    exists tests, elements = map Some tests /\ indexed = fold_left index tests acc.
Proof.
  induction elements as [|[t|] elements IH]; intros acc indexed; simpl.
  - intros H. injection H as <-. exists []. split; reflexivity.
  - intros H. destruct (IH _ _ H) as (tests & -> & ->).
    exists (t :: tests). split; reflexivity.
  - discriminate.
Qed.

Lemma index_tests_throws (elements : list (option Test)) :
  In None elements ->
  forall acc, index_tests number number_to_string elements acc = None.
Proof.
  induction elements as [|[t|] elements IH]; intros Hin acc; simpl.
  - destruct Hin.
  - destruct Hin as [Hin|Hin]; [discriminate Hin|]. apply IH. exact Hin.
  - reflexivity.
Qed.

(** The body of the [try] returns a plan exactly for a well-formed
    file, and the plan is the one of its tests. *)
Lemma try_plan_done (p : jsstring) (raw : RawPlan number) (plan : LoadedTestPlan) :
  try_plan number number_to_string p raw = Some plan ->
  exists tests,
    plan = plan_at p tests /\
    ((raw = raw_value number (tests_missing number) /\ tests = None) \/
     (exists l, raw = raw_value number (tests_array number (map Some l)) /\
                tests = Some l)).
Proof.
  destruct raw as [|[| |elements]]; simpl; try discriminate.
  - intros H. injection H as <-. exists None.
    split; [reflexivity|]. left. split; reflexivity.
  - destruct (index_tests number number_to_string elements ([], [])) as [indexed|] eqn:Hi;
      [|discriminate].
    intros H. injection H as <-.
    destruct (index_tests_done _ _ _ Hi) as (tests & -> & ->).
    exists (Some tests). split; [reflexivity|]. right. exists tests. split; reflexivity.
Qed.

(** X21. A plan at the path of the environment comes first: when that
    path is not empty and its file reads and parses to a well-formed
    plan (its tests are missing, or an array without a [null]), the
    loaded plan is the one of that file, whatever lies in the working
    directory.  When the file cannot be read or parsed, or indexing it
    throws (it parses to [null], its tests are not iterable, or one of
    them is [null]), the candidate is skipped: the result is the one
    the candidates of the working directory give. *)
Theorem loadTestPlan_prefers_environment :
  forall (p cwd : jsstring) (read : jsstring -> option (RawPlan number)),
    p <> [] ->
    (forall tests,
        read p = Some (raw_value number (tests_array number (map Some tests))) ->
        load (Some p) cwd read = Some (plan_at p (Some tests))) /\
    (read p = Some (raw_value number (tests_missing number)) ->
     load (Some p) cwd read = Some (plan_at p None)) /\
    (read p = None \/
     read p = Some (raw_null number) \/
     read p = Some (raw_value number (tests_not_iterable number)) \/
     (exists elements,
         read p = Some (raw_value number (tests_array number elements)) /\
         In None elements) ->
     load (Some p) cwd read = load None cwd read).
Proof.
  intros p cwd read Hp. unfold loadTestPlan.
  destruct p as [|c p]; [contradiction Hp; reflexivity|].
  split; [|split].
  - intros tests Hread. simpl. rewrite Hread. simpl.
    rewrite index_tests_well_formed. reflexivity.
  - intros Hread. simpl. rewrite Hread. reflexivity.
  - intros Hread. simpl.
    destruct Hread as [->|[->|[->|(elements & -> & Hin)]]]; try reflexivity.
    simpl. rewrite (index_tests_throws elements Hin). reflexivity.
Qed.

(** X22. A loaded plan never has the empty path: its path is one of the
    three candidates, the file at that path was read and parsed, it is
    well formed, and the plan is the one built from its tests. *)
Theorem loadTestPlan_reads_a_candidate :
  forall (env : option jsstring) (cwd : jsstring)
         (read : jsstring -> option (RawPlan number)) (plan : LoadedTestPlan),
    load env cwd read = Some plan ->
    path plan <> [] /\
    (env = Some (path plan) \/
     path plan = cwd ++ js "/.allure/testplan.json" \/
     path plan = cwd ++ js "/testplan.json") /\
    exists raw tests,
      read (path plan) = Some raw /\ plan = plan_at (path plan) tests /\
      ((raw = raw_value number (tests_missing number) /\ tests = None) \/
       (exists l, raw = raw_value number (tests_array number (map Some l)) /\
                  tests = Some l)).
Proof.
  intros env cwd read plan. unfold loadTestPlan.
  assert (forall l,
             Forall (fun q => q <> [] /\
                              (env = Some q \/
                               q = cwd ++ js "/.allure/testplan.json" \/
                               q = cwd ++ js "/testplan.json")) l ->
             first_plan number number_to_string read l = Some plan ->
             path plan <> [] /\
             (env = Some (path plan) \/
              path plan = cwd ++ js "/.allure/testplan.json" \/
              path plan = cwd ++ js "/testplan.json") /\
             exists raw tests,
               read (path plan) = Some raw /\ plan = plan_at (path plan) tests /\
               ((raw = raw_value number (tests_missing number) /\ tests = None) \/
                (exists l, raw = raw_value number (tests_array number (map Some l)) /\
                           tests = Some l))) as Hscan.
  { induction l as [|q l IH]; simpl; [discriminate|].
    intros Hall. inversion Hall as [|? ? [Hq Hfrom] Hrest]; subst.
    destruct (read q) as [raw|] eqn:Hread; [|exact (IH Hrest)].
    destruct (try_plan number number_to_string q raw) as [built|] eqn:Htry;
      [|exact (IH Hrest)].
    intros H. injection H as <-.
    destruct (try_plan_done q raw built Htry) as (tests & -> & Hshape). simpl.
    split; [exact Hq|split; [exact Hfrom|]].
    exists raw, tests. split; [exact Hread|split; [reflexivity|exact Hshape]]. }
  apply Hscan. apply Forall_forall. intros q Hin.
  apply filter_In in Hin. destruct Hin as [Hin Hfilled]. split.
  - intros ->. discriminate Hfilled.
  - destruct Hin as [<-|[<-|[<-|[]]]].
    + left. destruct env as [e|]; [reflexivity|discriminate Hfilled].
    + right. left. reflexivity.
    + right. right. reflexivity.
Qed.

End PlanFacts.

Lemma listed_test_is_matched_witness :
  matchInPlan (fun p => p) (fun p => p) (Some two_tests_plan)
              (AddTestInfoEventArgs (js "spec.js") [js "suite"; js "one"]) = Some (js "7").
Proof.
  apply (listed_test_is_matched N one_digit (fun p => p) (fun p => p)
                                (js "plan.json") [] [login_works] suite_one
                                (js "spec.js") [js "suite"; js "one"]).
  - vm_compute. discriminate.
  - intros t' [<-|[]]. right. vm_compute. discriminate.
  - right. left. vm_compute. reflexivity.
Defined.

Lemma matched_id_is_listed_witness :
  In (js "9") (byId two_tests_plan).
Proof.
  apply (matched_id_is_listed N one_digit (fun p => p) (fun p => p)
                              (js "plan.json") (Some ([] ++ suite_one :: [login_works]))
                              (LooseArgs None (Some (js "auth login works")) None)
                              (js "9")).
  vm_compute. reflexivity.
Defined.

Lemma heuristic_skips_hash_selectors_witness :
  exists title sel,
    Some (js "auth login works") = Some title /\ title <> [] /\
    In (sel, js "9") (bySelector two_tests_plan) /\ includes_hash sel = false /\
    (normalize title = normalize sel \/
     (exists front, normalize title = front ++ 32%N :: normalize sel) \/
     (exists rest, normalize title = normalize sel ++ 32%N :: rest)).
Proof.
  apply (heuristic_skips_hash_selectors two_tests_plan (Some (js "auth login works")) (js "9")).
  vm_compute. reflexivity.
Defined.

Lemma loadTestPlan_prefers_environment_witness :
  loadTestPlan N one_digit (Some (js "/tmp/plan.json")) (js "/work") only_tmp_plan =
  Some (plan_of N one_digit (js "/tmp/plan.json") (Some [suite_one; login_works])).
Proof.
  destruct (loadTestPlan_prefers_environment N one_digit (js "/tmp/plan.json")
                                             (js "/work") only_tmp_plan)
    as [Hwell_formed _].
  - vm_compute. discriminate.
  - apply Hwell_formed. vm_compute. reflexivity.
Defined.

Lemma loadTestPlan_reads_a_candidate_witness :
  path (plan_of N one_digit (js "/tmp/plan.json") (Some [suite_one; login_works])) <> [].
Proof.
  apply (loadTestPlan_reads_a_candidate
           N one_digit (Some (js "/tmp/plan.json")) (js "/work") only_tmp_plan
           (plan_of N one_digit (js "/tmp/plan.json") (Some [suite_one; login_works]))).
  vm_compute. reflexivity.
Defined.

Lemma push_reaches_only_current_session_witness :
  exists r',
    _pushRuntimeMessage "0-0" (allure_test_start (mkTestStart "B" 1)) two_workers = Some r' /\
    map fst (allureStatesByCid r') = ["0-1"; "0-2"].
Proof.
  destruct (push_reaches_only_current_session
              "0-0" two_workers (allure_test_start (mkTestStart "B" 1)))
    as (r' & Hpush & _ & _ & Hkeys & _).
  exists r'. split; [exact Hpush|]. rewrite Hkeys. reflexivity.
Defined.

Lemma normalize_shape_witness :
  ~ In 92%N (normalize (js "  a\\b//c   d  ")).
Proof.
  apply (normalize_shape (js "  a\\b//c   d  ")).
Defined.
